(** * Agent session orchestration of SpeakMCP (main process, tipc router)

    Shallow embedding of the orchestration code of [src/unnamed/part_002]
    ([processWithAgentMode], its [executeToolCall] closure,
    [processQueuedMessages], and the router procedures [createMcpTextInput],
    [stopAgentSession], [retryQueuedMessage], [updateQueuedMessageText],
    [resumeMessageQueue] and the other queue endpoints).

    The code talks to collaborators ([messageQueueService],
    [agentSessionTracker], [toolApprovalManager], [conversationService],
    [mcpService], [emitAgentProgress], the panel window).  They are the
    fields of the record [Env]: every call takes the collaborator state [S]
    to a new state and either a value or a thrown exception.  Programs run in
    a state / trace / exception monad [M]: each collaborator call is logged
    in the trace together with its reply, so that the order of the calls the
    code makes can be stated.  A [while (true)] loop runs on fuel; running out
    of fuel is the outcome [Stuck] (the loop has not exited yet).

    The collaborators whose code is not in the repository excerpt are given
    a concrete model from the spec further down ([World], [wenv]). *)

From Stdlib Require Import String Bool Arith ZArith Lia List Permutation Sorted.
From stdpp Require Import base gmap sets list strings pretty.
Import ListNotations.

Open Scope string_scope.
Open Scope list_scope.

(** ** Data model *)

(** A thrown value: an [Error] object with its message, or anything else. *)
Inductive exn :=
| ErrorObj (message : string)
| NonErrorThrown.

(** [error instanceof Error ? error.message : "Unknown error"] *)
Definition errorMessage (e : exn) : string :=
  match e with
  | ErrorObj m => m
  | NonErrorThrown => "Unknown error"
  end.

(** JavaScript truthiness of an optional string ([undefined], [null] and
    [""] are falsy). *)
Definition truthy (o : option string) : option string :=
  match o with
  | Some s => if String.eqb s "" then None else Some s
  | None => None
  end.

Inductive QueuedMessageStatus := QPending | QProcessing | QFailed.

Record QueuedMessage := mkQueuedMessage {
  qm_id : nat;
  qm_conversationId : string;
  qm_text : string;
  qm_status : QueuedMessageStatus;
  qm_addedToHistory : bool;
  qm_errorMessage : option string
}.

Inductive SessionStatus := SActive | SSnoozed | SStopped | SCompleted | SErrored.

Definition SessionStatus_eqb (a b : SessionStatus) : bool :=
  match a, b with
  | SActive, SActive | SSnoozed, SSnoozed | SStopped, SStopped
  | SCompleted, SCompleted | SErrored, SErrored => true
  | _, _ => false
  end.

Record AgentSession := mkAgentSession {
  as_id : string;
  as_conversationId : option string;
  as_title : string;
  as_status : SessionStatus
}.

Record Config := mkConfig {
  mcpRequireApprovalBeforeToolCall : bool;
  mcpMaxIterations : option nat;
  mcpMessageQueueEnabled : option bool
}.

(** [config.mcpMaxIterations ?? 10] *)
Definition maxIterationsOf (config : Config) : nat :=
  match mcpMaxIterations config with Some n => n | None => 10 end.

Record ToolCall := mkToolCall { tc_name : string; tc_arguments : string }.

Record ToolContent := mkToolContent { tcont_type : string; tcont_text : string }.

Record MCPToolResult := mkToolResult {
  tr_content : list ToolContent;
  tr_isError : bool
}.

Record ProgressStep := mkStep {
  step_type : string;
  step_title : string;
  step_description : string;
  step_status : string
}.

Record AgentProgressUpdate := mkProgress {
  pu_sessionId : string;
  pu_conversationId : option string;
  pu_currentIteration : nat;
  pu_maxIterations : nat;
  pu_steps : list ProgressStep;
  pu_isComplete : bool;
  pu_pendingToolApproval : option (nat * string);
  pu_finalContent : option string
}.

(** Result of [createMcpTextInput]: [{ conversationId }] or
    [{ conversationId, queued: true, queuedMessageId }]. *)
Record TextInputResult := mkTextInputResult {
  ti_conversationId : string;
  ti_queuedMessageId : option nat
}.

(** ** Collaborator calls and their replies (the trace alphabet) *)

Inductive call :=
| CGetConfig
| CTryAcquireProcessingLock (conversationId : string)
| CReleaseProcessingLock (conversationId : string)
| CIsQueuePaused (conversationId : string)
| CPeek (conversationId : string)
| CMarkProcessing (conversationId : string) (id : nat)
| CMarkAddedToHistory (conversationId : string) (id : nat)
| CMarkProcessed (conversationId : string) (id : nat)
| CMarkFailed (conversationId : string) (id : nat) (err : string)
| CEnqueue (conversationId text : string)
| CGetQueue (conversationId : string)
| CUpdateMessageText (conversationId : string) (id : nat) (text : string)
| CResetToPending (conversationId : string) (id : nat)
| CRemoveFromQueue (conversationId : string) (id : nat)
| CReorderQueue (conversationId : string) (messageIds : list nat)
| CClearQueue (conversationId : string)
| CPauseQueue (conversationId : string)
| CResumeQueue (conversationId : string)
| CCreateConversation (text : string)
(** the last argument is the id of the queued message being recorded, a
    ghost argument of the trace ([None] outside the drain loop) *)
| CAddMessageToConversation (conversationId text : string) (queued : option nat)
| CLoadConversation (conversationId : string)
| CPanelVisible
| CFindSessionByConversationId (conversationId : string)
| CGetSession (sessionId : string)
| CReviveSession (sessionId : string) (snoozed : bool)
| CStartSession (conversationId : option string) (title : string) (snoozed : bool)
| CCompleteSession (sessionId summary : string)
| CErrorSession (sessionId message : string)
| CTrackerStopSession (sessionId : string)
| CStateStopSession (sessionId : string)
| CShouldStopSession (sessionId : string)
| CRequestApproval (sessionId toolName args : string)
| CAwaitApproval (approvalId : nat)
| CCancelSessionApprovals (sessionId : string)
| CEmitAgentProgress (update : AgentProgressUpdate)
| CMcpInitialize
| CRegisterExistingProcesses
| CGetAvailableTools
| CExecuteTool (toolCall : ToolCall)
| CAgentLoop (text : string) (conversationId : option string) (sessionId : string) (maxIterations : nat)
| CSpawnAgentRun (text conversationId : string) (existingSessionId : option string) (startSnoozed : bool)
| CSpawnQueueProcessing (conversationId : string).

Inductive reply :=
| RUnit
| RBool (b : bool)
| RNat (n : nat)
| RString (s : string)
| ROptString (o : option string)
| ROptBool (o : option bool)
| RMsg (o : option QueuedMessage)
| RQueuedMessage (m : QueuedMessage)
| RQueue (q : list QueuedMessage)
| RSession (o : option AgentSession)
| RConfig (c : Config)
| RToolResult (r : MCPToolResult)
| RExn (e : exn).

Definition event := (call * reply)%type.

(** ** The state / trace / exception monad *)

Inductive outcome (A : Type) :=
| Ret (a : A)
| Raise (e : exn)
| Stuck.
Arguments Ret {A} a.
Arguments Raise {A} e.
Arguments Stuck {A}.

Definition M (S A : Type) := S -> list event * S * outcome A.

(** A collaborator answer: the new state, and a thrown value or a result. *)
Definition answer (S A : Type) := (S * (exn + A))%type.

Section Monad.
Context {S : Type}.

Definition ret {A} (a : A) : M S A := fun s => ([], s, Ret a).

Definition raise {A} (e : exn) : M S A := fun s => ([], s, Raise e).

Definition stuck {A} : M S A := fun s => ([], s, Stuck).

Definition bind {A B} (m : M S A) (k : A -> M S B) : M S B := fun s =>
  match m s with
  | (t1, s1, Ret a) => let '(t2, s2, r) := k a s1 in (t1 ++ t2, s2, r)
  | (t1, s1, Raise e) => (t1, s1, Raise e)
  | (t1, s1, Stuck) => (t1, s1, Stuck)
  end.

(** [try { m } catch (e) { h e }] *)
Definition try_catch {A} (m : M S A) (h : exn -> M S A) : M S A := fun s =>
  match m s with
  | (t1, s1, Raise e) => let '(t2, s2, r) := h e s1 in (t1 ++ t2, s2, r)
  | res => res
  end.

(** [try { m } finally { fin }]: [fin] runs on every exit of [m]; a throw
    in [fin] replaces the outcome of [m]. *)
Definition try_finally {A} (m : M S A) (fin : M S unit) : M S A := fun s =>
  match m s with
  | (t1, s1, Stuck) => (t1, s1, Stuck)
  | (t1, s1, r) =>
      match fin s1 with
      | (t2, s2, Ret _) => (t1 ++ t2, s2, r)
      | (t2, s2, Raise e) => (t1 ++ t2, s2, Raise e)
      | (t2, s2, Stuck) => (t1 ++ t2, s2, Stuck)
      end
  end.

(** One collaborator call, logged with its reply. *)
Definition prim {A} (c : call) (inj : A -> reply) (f : S -> answer S A) : M S A :=
  fun s =>
    let '(s', r) := f s in
    match r with
    | inl e => ([(c, RExn e)], s', Raise e)
    | inr a => ([(c, inj a)], s', Ret a)
    end.

End Monad.

Notation "'let*' x := m 'in' k" := (bind m (fun x => k))
  (at level 200, x name, m at level 100, k at level 200).

(** Control of one turn of a [while (true)] body: leave the loop
    ([return] / [break]) or go round again. *)
Inductive loopctl := LStop | LContinue.

Fixpoint while_true {S} (fuel : nat) (body : M S loopctl) : M S unit :=
  match fuel with
  | O => stuck
  | Datatypes.S n =>
      let* c := body in
      match c with
      | LStop => ret tt
      | LContinue => while_true n body
      end
  end.

(** ** Collaborators *)

(** One field per collaborator method the code calls.  [op_agentLoop] is
    [processTranscriptWithAgentMode] (the model / tool loop), [op_awaitApproval]
    the wait on the promise returned by [toolApprovalManager.requestApproval],
    [op_spawnAgentRun] and [op_spawnQueueProcessing] the fire-and-forget
    launches [processWithAgentMode(..).finally(processQueuedMessages)] and
    [processQueuedMessages(..).catch(..)], which are not awaited. *)
Record Env (S : Type) := mkEnv {
  op_getConfig : S -> answer S Config;
  op_tryAcquireProcessingLock : string -> S -> answer S bool;
  op_releaseProcessingLock : string -> S -> answer S unit;
  op_isQueuePaused : string -> S -> answer S bool;
  op_peek : string -> S -> answer S (option QueuedMessage);
  op_markProcessing : string -> nat -> S -> answer S bool;
  op_markAddedToHistory : string -> nat -> S -> answer S unit;
  op_markProcessed : string -> nat -> S -> answer S unit;
  op_markFailed : string -> nat -> string -> S -> answer S unit;
  op_enqueue : string -> string -> S -> answer S QueuedMessage;
  op_getQueue : string -> S -> answer S (list QueuedMessage);
  op_updateMessageText : string -> nat -> string -> S -> answer S bool;
  op_resetToPending : string -> nat -> S -> answer S bool;
  op_removeFromQueue : string -> nat -> S -> answer S bool;
  op_reorderQueue : string -> list nat -> S -> answer S bool;
  op_clearQueue : string -> S -> answer S bool;
  op_pauseQueue : string -> S -> answer S unit;
  op_resumeQueue : string -> S -> answer S unit;
  op_createConversation : string -> S -> answer S string;
  op_addMessageToConversation : string -> string -> option nat -> S -> answer S bool;
  op_loadConversation : string -> S -> answer S unit;
  op_panelVisible : S -> answer S (option bool);
  op_findSessionByConversationId : string -> S -> answer S (option string);
  op_getSession : string -> S -> answer S (option AgentSession);
  op_reviveSession : string -> bool -> S -> answer S bool;
  op_startSession : option string -> string -> bool -> S -> answer S string;
  op_completeSession : string -> string -> S -> answer S unit;
  op_errorSession : string -> string -> S -> answer S unit;
  op_trackerStopSession : string -> S -> answer S unit;
  op_stateStopSession : string -> S -> answer S unit;
  op_shouldStopSession : string -> S -> answer S bool;
  op_requestApproval : string -> string -> string -> S -> answer S nat;
  op_awaitApproval : nat -> S -> answer S bool;
  op_cancelSessionApprovals : string -> S -> answer S unit;
  op_emitAgentProgress : AgentProgressUpdate -> S -> answer S unit;
  op_mcpInitialize : S -> answer S unit;
  op_registerExistingProcesses : S -> answer S unit;
  op_getAvailableTools : S -> answer S nat;
  op_executeTool : ToolCall -> S -> answer S MCPToolResult;
  op_agentLoop : string -> option string -> string -> nat -> S -> answer S string;
  op_spawnAgentRun : string -> string -> option string -> bool -> S -> answer S unit;
  op_spawnQueueProcessing : string -> S -> answer S unit
}.
Arguments mkEnv {S}.

Section Orchestration.
Context {S : Type} (env : Env S).

(** *** Logged collaborator calls *)

Definition getConfig : M S Config := prim CGetConfig RConfig (op_getConfig S env).
Definition tryAcquireProcessingLock c : M S bool :=
  prim (CTryAcquireProcessingLock c) RBool (op_tryAcquireProcessingLock S env c).
Definition releaseProcessingLock c : M S unit :=
  prim (CReleaseProcessingLock c) (fun _ => RUnit) (op_releaseProcessingLock S env c).
Definition isQueuePaused c : M S bool :=
  prim (CIsQueuePaused c) RBool (op_isQueuePaused S env c).
Definition peek c : M S (option QueuedMessage) :=
  prim (CPeek c) RMsg (op_peek S env c).
Definition markProcessing c id : M S bool :=
  prim (CMarkProcessing c id) RBool (op_markProcessing S env c id).
Definition markAddedToHistory c id : M S unit :=
  prim (CMarkAddedToHistory c id) (fun _ => RUnit) (op_markAddedToHistory S env c id).
Definition markProcessed c id : M S unit :=
  prim (CMarkProcessed c id) (fun _ => RUnit) (op_markProcessed S env c id).
Definition markFailed c id err : M S unit :=
  prim (CMarkFailed c id err) (fun _ => RUnit) (op_markFailed S env c id err).
Definition enqueue c text : M S QueuedMessage :=
  prim (CEnqueue c text) RQueuedMessage (op_enqueue S env c text).
Definition getQueue c : M S (list QueuedMessage) :=
  prim (CGetQueue c) RQueue (op_getQueue S env c).
Definition updateMessageText c id text : M S bool :=
  prim (CUpdateMessageText c id text) RBool (op_updateMessageText S env c id text).
Definition resetToPending c id : M S bool :=
  prim (CResetToPending c id) RBool (op_resetToPending S env c id).
Definition removeFromQueue c id : M S bool :=
  prim (CRemoveFromQueue c id) RBool (op_removeFromQueue S env c id).
Definition reorderQueue c ids : M S bool :=
  prim (CReorderQueue c ids) RBool (op_reorderQueue S env c ids).
Definition clearQueue c : M S bool :=
  prim (CClearQueue c) RBool (op_clearQueue S env c).
Definition pauseQueue c : M S unit :=
  prim (CPauseQueue c) (fun _ => RUnit) (op_pauseQueue S env c).
Definition resumeQueue c : M S unit :=
  prim (CResumeQueue c) (fun _ => RUnit) (op_resumeQueue S env c).
Definition createConversation text : M S string :=
  prim (CCreateConversation text) RString (op_createConversation S env text).
Definition addMessageToConversation c text q : M S bool :=
  prim (CAddMessageToConversation c text q) RBool (op_addMessageToConversation S env c text q).
Definition loadConversation c : M S unit :=
  prim (CLoadConversation c) (fun _ => RUnit) (op_loadConversation S env c).
Definition panelVisible : M S (option bool) :=
  prim CPanelVisible ROptBool (op_panelVisible S env).
Definition findSessionByConversationId c : M S (option string) :=
  prim (CFindSessionByConversationId c) ROptString (op_findSessionByConversationId S env c).
Definition getSession sid : M S (option AgentSession) :=
  prim (CGetSession sid) RSession (op_getSession S env sid).
Definition reviveSession sid snoozed : M S bool :=
  prim (CReviveSession sid snoozed) RBool (op_reviveSession S env sid snoozed).
Definition startSession conv title snoozed : M S string :=
  prim (CStartSession conv title snoozed) RString (op_startSession S env conv title snoozed).
Definition completeSession sid summary : M S unit :=
  prim (CCompleteSession sid summary) (fun _ => RUnit) (op_completeSession S env sid summary).
Definition errorSession sid msg : M S unit :=
  prim (CErrorSession sid msg) (fun _ => RUnit) (op_errorSession S env sid msg).
Definition trackerStopSession sid : M S unit :=
  prim (CTrackerStopSession sid) (fun _ => RUnit) (op_trackerStopSession S env sid).
Definition stateStopSession sid : M S unit :=
  prim (CStateStopSession sid) (fun _ => RUnit) (op_stateStopSession S env sid).
Definition shouldStopSession sid : M S bool :=
  prim (CShouldStopSession sid) RBool (op_shouldStopSession S env sid).
Definition requestApproval sid name args : M S nat :=
  prim (CRequestApproval sid name args) RNat (op_requestApproval S env sid name args).
Definition awaitApproval aid : M S bool :=
  prim (CAwaitApproval aid) RBool (op_awaitApproval S env aid).
Definition cancelSessionApprovals sid : M S unit :=
  prim (CCancelSessionApprovals sid) (fun _ => RUnit) (op_cancelSessionApprovals S env sid).
Definition emitAgentProgress u : M S unit :=
  prim (CEmitAgentProgress u) (fun _ => RUnit) (op_emitAgentProgress S env u).
Definition mcpInitialize : M S unit :=
  prim CMcpInitialize (fun _ => RUnit) (op_mcpInitialize S env).
Definition registerExistingProcesses : M S unit :=
  prim CRegisterExistingProcesses (fun _ => RUnit) (op_registerExistingProcesses S env).
Definition getAvailableTools : M S nat :=
  prim CGetAvailableTools RNat (op_getAvailableTools S env).
Definition executeTool tc : M S MCPToolResult :=
  prim (CExecuteTool tc) RToolResult (op_executeTool S env tc).
Definition agentLoop text conv sid maxIter : M S string :=
  prim (CAgentLoop text conv sid maxIter) RString (op_agentLoop S env text conv sid maxIter).
Definition spawnAgentRun text conv existing snoozed : M S unit :=
  prim (CSpawnAgentRun text conv existing snoozed) (fun _ => RUnit)
    (op_spawnAgentRun S env text conv existing snoozed).
Definition spawnQueueProcessing c : M S unit :=
  prim (CSpawnQueueProcessing c) (fun _ => RUnit) (op_spawnQueueProcessing S env c).

(** *** [initializeMcpWithProgress] (the 500 ms [setInterval] refresh, which
    re-emits the same incomplete "Initializing MCP tools" step while the
    servers start, is timer driven and left out) *)
Definition initializeMcpWithProgress (config : Config) (sessionId : string) : M S unit :=
  let* stop := shouldStopSession sessionId in
  if stop then ret tt else
  let* _ := emitAgentProgress (mkProgress sessionId None 0 (maxIterationsOf config)
              [mkStep "thinking" "Initializing MCP tools" "Initializing MCP servers" "in_progress"]
              false None None) in
  let* _ := mcpInitialize in
  let* stop' := shouldStopSession sessionId in
  if stop' then ret tt else
  emitAgentProgress (mkProgress sessionId None 0 (maxIterationsOf config)
    [mkStep "thinking" "MCP tools initialized" "Successfully initialized tools" "completed"]
    false None None).

(** *** The [executeToolCall] closure of [processWithAgentMode] *)
Definition deniedResult (toolName : string) : MCPToolResult :=
  mkToolResult [mkToolContent "text" (String.append "Tool call denied by user: " toolName)] true.

Definition executeToolCall (config : Config) (sessionId : string) (toolCall : ToolCall)
  : M S MCPToolResult :=
  if mcpRequireApprovalBeforeToolCall config then
    let* approvalId := requestApproval sessionId (tc_name toolCall) (tc_arguments toolCall) in
    let* _ := emitAgentProgress (mkProgress sessionId None 0 (maxIterationsOf config) [] false
                (Some (approvalId, tc_name toolCall)) None) in
    let* approved := awaitApproval approvalId in
    let* _ := emitAgentProgress (mkProgress sessionId None 0 (maxIterationsOf config) [] false
                None None) in
    if negb approved then ret (deniedResult (tc_name toolCall))
    else executeTool toolCall
  else executeTool toolCall.

(** *** [processWithAgentMode] *)

(** [text.length > 50 ? text.substring(0, 50) + "..." : text] *)
Definition conversationTitleOf (text : string) : string :=
  if (50 <? String.length text)%nat then String.append (substring 0 50 text) "..." else text.

Definition errorProgress (sessionId : string) (conversationId : option string)
  (config : Config) (msg : string) : AgentProgressUpdate :=
  mkProgress sessionId (Some (match truthy conversationId with Some c => c | None => "" end))
    1 (maxIterationsOf config) [mkStep "thinking" "Error" msg "error"] true None
    (Some (String.append "Error: " msg)).

Definition processWithAgentMode (text : string) (conversationId : option string)
  (existingSessionId : option string) (startSnoozed : bool) : M S string :=
  let* config := getConfig in
  let conversationTitle := conversationTitleOf text in
  let* sessionId :=
    match truthy existingSessionId with
    | Some sid => ret sid
    | None => startSession conversationId conversationTitle startSnoozed
    end in
  try_catch
    (let* _ := initializeMcpWithProgress config sessionId in
     let* _ := registerExistingProcesses in
     let* _ := getAvailableTools in
     let* _ := match truthy conversationId with
               | Some c => loadConversation c
               | None => ret tt
               end in
     (* focusAgentSession.send is wrapped in its own try/catch that only logs *)
     let* content := agentLoop text conversationId sessionId (maxIterationsOf config) in
     let* _ := completeSession sessionId "Agent completed successfully" in
     ret content)
    (fun error =>
       let msg := errorMessage error in
       let* _ := errorSession sessionId msg in
       let* _ := emitAgentProgress (errorProgress sessionId conversationId config msg) in
       raise error).

(** *** [processQueuedMessages] *)

(** The [try] block of one turn of the drain loop, from the history insertion
    to [markProcessed]. *)
Definition processQueuedMessage (conversationId : string) (queuedMessage : QueuedMessage)
  : M S unit :=
  let* _ :=
    if negb (qm_addedToHistory queuedMessage) then
      let* addResult := addMessageToConversation conversationId (qm_text queuedMessage)
                          (Some (qm_id queuedMessage)) in
      if negb addResult
      then raise (ErrorObj "Failed to add message to conversation history")
      else markAddedToHistory conversationId (qm_id queuedMessage)
    else ret tt in
  (* WINDOWS.get("panel")?.isVisible() ?? false *)
  let* panel := panelVisible in
  let isPanelVisible := match panel with Some b => b | None => false end in
  let shouldStartSnoozed := negb isPanelVisible in
  let* foundSessionId := findSessionByConversationId conversationId in
  let* existingSessionId :=
    match truthy foundSessionId with
    | Some sid =>
        let* revived := reviveSession sid shouldStartSnoozed in
        ret (if revived then Some sid else None)
    | None => ret None
    end in
  let* _ := processWithAgentMode (qm_text queuedMessage) (Some conversationId)
              existingSessionId shouldStartSnoozed in
  markProcessed conversationId (qm_id queuedMessage).

(** One turn of the [while (true)] loop. *)
Definition drainStep (conversationId : string) : M S loopctl :=
  let* paused := isQueuePaused conversationId in
  if paused then ret LStop else
  let* next := peek conversationId in
  match next with
  | None => ret LStop
  | Some queuedMessage =>
      let* markingSucceeded := markProcessing conversationId (qm_id queuedMessage) in
      if negb markingSucceeded then ret LContinue else
      try_catch
        (let* _ := processQueuedMessage conversationId queuedMessage in ret LContinue)
        (fun error =>
           let* _ := markFailed conversationId (qm_id queuedMessage) (errorMessage error) in
           ret LStop)
  end.

Definition processQueuedMessages (fuel : nat) (conversationId : string) : M S unit :=
  let* acquired := tryAcquireProcessingLock conversationId in
  if negb acquired then ret tt else
  try_finally (while_true fuel (drainStep conversationId))
    (releaseProcessingLock conversationId).

(** *** Router procedures *)

(** The "if the conversation is idle, process its queue" tail shared by
    [retryQueuedMessage], [updateQueuedMessageText] and [resumeMessageQueue]:
    nothing when the conversation's session is active, else a
    fire-and-forget [processQueuedMessages]. *)
Definition processQueueIfIdle (conversationId : string) : M S unit :=
  let* activeSessionId := findSessionByConversationId conversationId in
  let* active :=
    match truthy activeSessionId with
    | Some sid =>
        let* session := getSession sid in
        ret (match session with
             | Some se => SessionStatus_eqb (as_status se) SActive
             | None => false
             end)
    | None => ret false
    end in
  if active then ret tt else spawnQueueProcessing conversationId.

Definition createMcpTextInput (text : string) (inputConversationId : option string)
  (fromTile : option bool) : M S TextInputResult :=
  let* config := getConfig in
  let startRun (conversationId : string) : M S TextInputResult :=
    let fromTile' := match fromTile with Some b => b | None => false end in
    let* existingSessionId :=
      match truthy inputConversationId with
      | Some ic =>
          let* foundSessionId := findSessionByConversationId ic in
          match truthy foundSessionId with
          | Some sid =>
              let* revived := reviveSession sid fromTile' in
              ret (if revived then Some sid else None)
          | None => ret None
          end
      | None => ret None
      end in
    let* _ := spawnAgentRun text conversationId existingSessionId fromTile' in
    ret (mkTextInputResult conversationId None) in
  let addAndStart (conversationId : string) : M S TextInputResult :=
    let* _ := addMessageToConversation conversationId text None in
    startRun conversationId in
  match truthy inputConversationId with
  | None =>
      let* conversationId := createConversation text in
      startRun conversationId
  | Some conversationId =>
      if negb (match mcpMessageQueueEnabled config with Some false => true | _ => false end) then
        let* activeSessionId := findSessionByConversationId conversationId in
        match truthy activeSessionId with
        | Some sid =>
            let* session := getSession sid in
            match session with
            | Some se =>
                if SessionStatus_eqb (as_status se) SActive then
                  let* queuedMessage := enqueue conversationId text in
                  ret (mkTextInputResult conversationId (Some (qm_id queuedMessage)))
                else addAndStart conversationId
            | None => addAndStart conversationId
            end
        | None => addAndStart conversationId
        end
      else addAndStart conversationId
  end.

Definition stopProgress (sessionId : string) : AgentProgressUpdate :=
  mkProgress sessionId None 0 0
    [mkStep "completion" "Agent stopped"
       "Agent mode was stopped by emergency kill switch. Queue paused." "error"]
    true None (Some "(Agent mode was stopped by emergency kill switch)").

Definition stopAgentSession (sessionId : string) : M S bool :=
  let* _ := stateStopSession sessionId in
  let* _ := cancelSessionApprovals sessionId in
  let* session := getSession sessionId in
  let* _ := match session with
            | Some se =>
                match truthy (as_conversationId se) with
                | Some c => pauseQueue c
                | None => ret tt
                end
            | None => ret tt
            end in
  let* _ := emitAgentProgress (stopProgress sessionId) in
  let* _ := trackerStopSession sessionId in
  ret true.

Definition retryQueuedMessage (conversationId : string) (messageId : nat) : M S bool :=
  let* success := resetToPending conversationId messageId in
  if negb success then ret false else
  let* _ := processQueueIfIdle conversationId in
  ret true.

Definition updateQueuedMessageText (conversationId : string) (messageId : nat)
  (text : string) : M S bool :=
  let* queue := getQueue conversationId in
  let wasFailed :=
    match List.find (fun m => Nat.eqb (qm_id m) messageId) queue with
    | Some m => match qm_status m with QFailed => true | _ => false end
    | None => false
    end in
  let* success := updateMessageText conversationId messageId text in
  if negb success then ret false else
  let* _ := if wasFailed then processQueueIfIdle conversationId else ret tt in
  ret true.

Definition resumeMessageQueue (conversationId : string) : M S bool :=
  let* _ := resumeQueue conversationId in
  let* _ := processQueueIfIdle conversationId in
  ret true.

Definition removeFromMessageQueue (conversationId : string) (messageId : nat) : M S bool :=
  removeFromQueue conversationId messageId.

Definition clearMessageQueue (conversationId : string) : M S bool :=
  clearQueue conversationId.

Definition reorderMessageQueue (conversationId : string) (messageIds : list nat) : M S bool :=
  reorderQueue conversationId messageIds.

End Orchestration.

(** ** The collaborators outside the repository excerpt

    Modelled from the spec: [messageQueueService] (§4.2 Message Queue),
    [agentSessionTracker] (§4.1 Session Registry) and [toolApprovalManager]
    (§4.3 Tool Approval Broker), whose sources are not in the excerpt; the
    conversation store, progress sink, MCP backends and the model loop are
    external collaborators (§6), given here by the simplest behaviour the
    spec allows, the model loop by a list of outcomes. *)

(** Modelled from the spec: the message queue ("per-conversation FIFO list
    plus a boolean processing token", pause flags, fresh message ids). *)
Record QueueService := mkQueueService {
  mq_queues : gmap string (list QueuedMessage);
  mq_locks : gset string;
  mq_paused : gset string;
  mq_nextId : nat
}.

(** Modelled from the spec: the session registry (sessions in creation
    order, stop requests of [agentSessionStateManager]). *)
Record SessionTracker := mkSessionTracker {
  st_sessions : list AgentSession;
  st_nextId : nat;
  st_stopRequested : gset string
}.

(** Modelled from the spec: an approval request and its resolution
    ([None] while outstanding, [Some approved] once resolved). *)
Record ApprovalRequest := mkApprovalRequest {
  ap_id : nat;
  ap_sessionId : string;
  ap_toolName : string;
  ap_resolution : option bool
}.

Record ApprovalManager := mkApprovalManager {
  am_approvals : list ApprovalRequest;
  am_nextId : nat;
  (** the user's answers, in the order the approvals are awaited *)
  am_answers : list bool
}.

Record World := mkWorld {
  w_mq : QueueService;
  w_st : SessionTracker;
  w_am : ApprovalManager;
  (** conversation histories by conversation id: each user text, tagged
      with the id of the queued message it was inserted for (a ghost tag,
      [None] for a direct insertion; the store itself keeps the text) *)
  w_conversations : gmap string (list (string * option nat));
  w_nextConversationId : nat;
  w_progress : list AgentProgressUpdate;
  w_config : Config;
  w_panelVisible : option bool;
  (** outcomes of the successive model loops: a thrown value or the final content *)
  w_agentOutcomes : list (exn + string)
}.

Definition set_mq (w : World) (mq : QueueService) : World :=
  mkWorld mq (w_st w) (w_am w) (w_conversations w) (w_nextConversationId w)
    (w_progress w) (w_config w) (w_panelVisible w) (w_agentOutcomes w).
Definition set_st (w : World) (st : SessionTracker) : World :=
  mkWorld (w_mq w) st (w_am w) (w_conversations w) (w_nextConversationId w)
    (w_progress w) (w_config w) (w_panelVisible w) (w_agentOutcomes w).
Definition set_am (w : World) (am : ApprovalManager) : World :=
  mkWorld (w_mq w) (w_st w) am (w_conversations w) (w_nextConversationId w)
    (w_progress w) (w_config w) (w_panelVisible w) (w_agentOutcomes w).
Definition set_conversations (w : World) (cs : gmap string (list (string * option nat)))
  (next : nat) : World :=
  mkWorld (w_mq w) (w_st w) (w_am w) cs next
    (w_progress w) (w_config w) (w_panelVisible w) (w_agentOutcomes w).
Definition set_progress (w : World) (p : list AgentProgressUpdate) : World :=
  mkWorld (w_mq w) (w_st w) (w_am w) (w_conversations w) (w_nextConversationId w)
    p (w_config w) (w_panelVisible w) (w_agentOutcomes w).
Definition set_agentOutcomes (w : World) (o : list (exn + string)) : World :=
  mkWorld (w_mq w) (w_st w) (w_am w) (w_conversations w) (w_nextConversationId w)
    (w_progress w) (w_config w) (w_panelVisible w) o.

(** *** Message queue (modelled from the spec) *)

Definition queueOf (mq : QueueService) (c : string) : list QueuedMessage :=
  match mq_queues mq !! c with Some q => q | None => [] end.

Definition set_queue (mq : QueueService) (c : string) (q : list QueuedMessage) : QueueService :=
  mkQueueService (<[c := q]> (mq_queues mq)) (mq_locks mq) (mq_paused mq) (mq_nextId mq).

Definition with_status (st : QueuedMessageStatus) (err : option string) (m : QueuedMessage)
  : QueuedMessage :=
  mkQueuedMessage (qm_id m) (qm_conversationId m) (qm_text m) st (qm_addedToHistory m) err.

Definition with_text (text : string) (m : QueuedMessage) : QueuedMessage :=
  mkQueuedMessage (qm_id m) (qm_conversationId m) text (qm_status m) (qm_addedToHistory m)
    (qm_errorMessage m).

Definition with_addedToHistory (m : QueuedMessage) : QueuedMessage :=
  mkQueuedMessage (qm_id m) (qm_conversationId m) (qm_text m) (qm_status m) true
    (qm_errorMessage m).

(** apply [f] to the messages of queue [c] with id [id] *)
Definition update_msg (mq : QueueService) (c : string) (id : nat)
  (f : QueuedMessage -> QueuedMessage) : QueueService :=
  set_queue mq c (map (fun m => if Nat.eqb (qm_id m) id then f m else m) (queueOf mq c)).

Definition find_msg (mq : QueueService) (c : string) (id : nat) : option QueuedMessage :=
  List.find (fun m => Nat.eqb (qm_id m) id) (queueOf mq c).

Definition is_pending (m : QueuedMessage) : bool :=
  match qm_status m with QPending => true | _ => false end.
Definition is_failed (m : QueuedMessage) : bool :=
  match qm_status m with QFailed => true | _ => false end.

Definition mq_tryAcquire (c : string) (mq : QueueService) : QueueService * bool :=
  if decide (c ∈ mq_locks mq) then (mq, false)
  else (mkQueueService (mq_queues mq) ({[c]} ∪ mq_locks mq) (mq_paused mq) (mq_nextId mq), true).

Definition mq_release (c : string) (mq : QueueService) : QueueService :=
  mkQueueService (mq_queues mq) (mq_locks mq ∖ {[c]}) (mq_paused mq) (mq_nextId mq).

Definition mq_isPaused (c : string) (mq : QueueService) : bool :=
  bool_decide (c ∈ mq_paused mq).

(** "peek next pending message": the head of the FIFO list when it is
    pending; a failed or in-flight head holds the queue ("queue-drain
    failures halt only that conversation's further automatic draining until
    a human retries or removes the offending message"). *)
Definition mq_peek (c : string) (mq : QueueService) : option QueuedMessage :=
  match queueOf mq c with
  | m :: _ => if is_pending m then Some m else None
  | [] => None
  end.

(** pending -> processing, false when the message vanished or is no
    longer pending *)
Definition mq_markProcessing (c : string) (id : nat) (mq : QueueService) : QueueService * bool :=
  match find_msg mq c id with
  | Some m => if is_pending m then (update_msg mq c id (with_status QProcessing None), true)
              else (mq, false)
  | None => (mq, false)
  end.

Definition mq_markAddedToHistory (c : string) (id : nat) (mq : QueueService) : QueueService :=
  update_msg mq c id with_addedToHistory.

(** processing -> processed removes the message *)
Definition mq_markProcessed (c : string) (id : nat) (mq : QueueService) : QueueService :=
  set_queue mq c (filter (fun m => negb (Nat.eqb (qm_id m) id)) (queueOf mq c)).

Definition mq_markFailed (c : string) (id : nat) (err : string) (mq : QueueService) : QueueService :=
  update_msg mq c id (with_status QFailed (Some err)).

Definition mq_enqueue (c text : string) (mq : QueueService) : QueueService * QueuedMessage :=
  let m := mkQueuedMessage (mq_nextId mq) c text QPending false None in
  (mkQueueService (<[c := queueOf mq c ++ [m]]> (mq_queues mq)) (mq_locks mq) (mq_paused mq)
     (S (mq_nextId mq)), m).

(** [updateText(id, text)]; a failed message becomes pending again (the
    router's [updateQueuedMessageText] relies on this: "If this was a failed
    message that's now reset to pending ..."), and the text of a message
    already in the history is not changed (the router's [retryQueuedMessage]:
    "This works even for addedToHistory messages since we're not changing
    the text"). *)
Definition mq_updateText (c : string) (id : nat) (text : string) (mq : QueueService)
  : QueueService * bool :=
  match find_msg mq c id with
  | Some m0 =>
      if qm_addedToHistory m0 then (mq, false) else
      (update_msg mq c id (fun m =>
         if is_failed m then with_status QPending None (with_text text m) else with_text text m),
       true)
  | None => (mq, false)
  end.

(** [resetToPending(id)] "clears failed status without touching text" *)
Definition mq_resetToPending (c : string) (id : nat) (mq : QueueService) : QueueService * bool :=
  match find_msg mq c id with
  | Some m => if is_failed m then (update_msg mq c id (with_status QPending None), true)
              else (mq, false)
  | None => (mq, false)
  end.

Definition mq_remove (c : string) (id : nat) (mq : QueueService) : QueueService * bool :=
  match find_msg mq c id with
  | Some _ => (mq_markProcessed c id mq, true)
  | None => (mq, false)
  end.

Definition mq_clear (c : string) (mq : QueueService) : QueueService :=
  set_queue mq c [].

(** the messages of [q] named in [ids], in the order of [ids], then the
    others in their order in [q] *)
Fixpoint reorder_by (ids : list nat) (q : list QueuedMessage) : list QueuedMessage :=
  match ids with
  | [] => q
  | id :: ids' =>
      match List.find (fun m => Nat.eqb (qm_id m) id) q with
      | Some m => m :: reorder_by ids' (filter (fun m' => negb (Nat.eqb (qm_id m') id)) q)
      | None => reorder_by ids' q
      end
  end.

(** [reorder(ids)]: the queue of [c] is put in the order of [ids], the
    messages it does not name keeping their order after them; false when
    [c] has no queue *)
Definition mq_reorder (c : string) (ids : list nat) (mq : QueueService) : QueueService * bool :=
  match mq_queues mq !! c with
  | Some q => (set_queue mq c (reorder_by ids q), true)
  | None => (mq, false)
  end.

Definition mq_pause (c : string) (mq : QueueService) : QueueService :=
  mkQueueService (mq_queues mq) (mq_locks mq) ({[c]} ∪ mq_paused mq) (mq_nextId mq).

Definition mq_resume (c : string) (mq : QueueService) : QueueService :=
  mkQueueService (mq_queues mq) (mq_locks mq) (mq_paused mq ∖ {[c]}) (mq_nextId mq).


(** *** Session registry (modelled from the spec) *)

Definition id_string (prefix : string) (n : nat) : string :=
  String.append prefix (pretty (N.of_nat n)).

Definition st_find (st : SessionTracker) (sid : string) : option AgentSession :=
  List.find (fun se => String.eqb (as_id se) sid) (st_sessions st).

Definition st_update (st : SessionTracker) (sid : string) (f : AgentSession -> AgentSession)
  : SessionTracker :=
  mkSessionTracker (map (fun se => if String.eqb (as_id se) sid then f se else se) (st_sessions st))
    (st_nextId st) (st_stopRequested st).

Definition with_session_status (status : SessionStatus) (se : AgentSession) : AgentSession :=
  mkAgentSession (as_id se) (as_conversationId se) (as_title se) status.

(** [findByConversationId(conversationId) → id|null]: the most recent session
    bound to the conversation (sessions are kept newest first). *)
Definition st_findByConversationId (st : SessionTracker) (c : string) : option string :=
  match List.find (fun se => match as_conversationId se with
                             | Some c' => String.eqb c' c
                             | None => false
                             end) (st_sessions st) with
  | Some se => Some (as_id se)
  | None => None
  end.

(** [revive(id, snoozed) → bool] (false if id unknown); the revived session
    gets a fresh active (or snoozed) status and keeps its id. *)
Definition st_revive (st : SessionTracker) (sid : string) (snoozed : bool) : SessionTracker * bool :=
  match st_find st sid with
  | Some _ => (st_update st sid (with_session_status (if snoozed then SSnoozed else SActive)), true)
  | None => (st, false)
  end.

Definition st_start (st : SessionTracker) (conv : option string) (title : string) (snoozed : bool)
  : SessionTracker * string :=
  let sid := id_string "session_" (st_nextId st) in
  (mkSessionTracker
     (mkAgentSession sid conv title (if snoozed then SSnoozed else SActive) :: st_sessions st)
     (S (st_nextId st)) (st_stopRequested st), sid).

Definition st_requestStop (st : SessionTracker) (sid : string) : SessionTracker :=
  mkSessionTracker (st_sessions st) (st_nextId st) ({[sid]} ∪ st_stopRequested st).

(** *** Tool approval broker (modelled from the spec) *)

Definition am_find (am : ApprovalManager) (aid : nat) : option ApprovalRequest :=
  List.find (fun a => Nat.eqb (ap_id a) aid) (am_approvals am).

Definition resolve_if_pending (b : bool) (a : ApprovalRequest) : ApprovalRequest :=
  match ap_resolution a with
  | Some _ => a
  | None => mkApprovalRequest (ap_id a) (ap_sessionId a) (ap_toolName a) (Some b)
  end.

Definition am_request (am : ApprovalManager) (sid name : string) : ApprovalManager * nat :=
  (mkApprovalManager (am_approvals am ++ [mkApprovalRequest (am_nextId am) sid name None])
     (S (am_nextId am)) (am_answers am), am_nextId am).

(** awaiting an approval: its resolution, or the user's next answer when it
    is still outstanding (no answer left: the request is denied) *)
Definition am_await (am : ApprovalManager) (aid : nat) : ApprovalManager * bool :=
  match am_find am aid with
  | Some a =>
      match ap_resolution a with
      | Some b => (am, b)
      | None =>
          let '(b, rest) := match am_answers am with
                            | b :: rest => (b, rest)
                            | [] => (false, [])
                            end in
          (mkApprovalManager
             (map (fun x => if Nat.eqb (ap_id x) aid then resolve_if_pending b x else x)
                (am_approvals am)) (am_nextId am) rest, b)
      end
  | None => (am, false)
  end.

(** [cancelSessionApprovals(sessionId)] "resolves every outstanding approval
    for that session as denied" *)
Definition am_cancelSession (am : ApprovalManager) (sid : string) : ApprovalManager :=
  mkApprovalManager
    (map (fun a => if String.eqb (ap_sessionId a) sid then resolve_if_pending false a else a)
       (am_approvals am))
    (am_nextId am) (am_answers am).

(** *** Conversation store *)

Definition cs_create (w : World) (text : string) : World * string :=
  let cid := id_string "conv_" (w_nextConversationId w) in
  (set_conversations w (<[cid := [(text, None)]]> (w_conversations w))
     (S (w_nextConversationId w)), cid).

(** resolves to the conversation, or [null] when it does not exist *)
Definition cs_add (w : World) (c text : string) (queued : option nat) : World * bool :=
  match w_conversations w !! c with
  | Some h => (set_conversations w (<[c := h ++ [(text, queued)]]> (w_conversations w))
                 (w_nextConversationId w), true)
  | None => (w, false)
  end.

(** *** The concrete environment *)

Definition ok {A} (w : World) (a : A) : answer World A := (w, inr a).

Definition with_mq {A} (w : World) (p : QueueService * A) : answer World A :=
  (set_mq w (fst p), inr (snd p)).
Definition with_st {A} (w : World) (p : SessionTracker * A) : answer World A :=
  (set_st w (fst p), inr (snd p)).
Definition with_am {A} (w : World) (p : ApprovalManager * A) : answer World A :=
  (set_am w (fst p), inr (snd p)).

Definition wenv : Env World := mkEnv
  (fun w => ok w (w_config w))
  (fun c w => with_mq w (mq_tryAcquire c (w_mq w)))
  (fun c w => ok (set_mq w (mq_release c (w_mq w))) tt)
  (fun c w => ok w (mq_isPaused c (w_mq w)))
  (fun c w => ok w (mq_peek c (w_mq w)))
  (fun c id w => with_mq w (mq_markProcessing c id (w_mq w)))
  (fun c id w => ok (set_mq w (mq_markAddedToHistory c id (w_mq w))) tt)
  (fun c id w => ok (set_mq w (mq_markProcessed c id (w_mq w))) tt)
  (fun c id err w => ok (set_mq w (mq_markFailed c id err (w_mq w))) tt)
  (fun c text w => with_mq w (mq_enqueue c text (w_mq w)))
  (fun c w => ok w (queueOf (w_mq w) c))
  (fun c id text w => with_mq w (mq_updateText c id text (w_mq w)))
  (fun c id w => with_mq w (mq_resetToPending c id (w_mq w)))
  (fun c id w => with_mq w (mq_remove c id (w_mq w)))
  (fun c ids w => with_mq w (mq_reorder c ids (w_mq w)))
  (fun c w => ok (set_mq w (mq_clear c (w_mq w))) true)
  (fun c w => ok (set_mq w (mq_pause c (w_mq w))) tt)
  (fun c w => ok (set_mq w (mq_resume c (w_mq w))) tt)
  (fun text w => let '(w', cid) := cs_create w text in ok w' cid)
  (fun c text q w => let '(w', b) := cs_add w c text q in ok w' b)
  (fun _ w => ok w tt)
  (fun w => ok w (w_panelVisible w))
  (fun c w => ok w (st_findByConversationId (w_st w) c))
  (fun sid w => ok w (st_find (w_st w) sid))
  (fun sid snoozed w => with_st w (st_revive (w_st w) sid snoozed))
  (fun conv title snoozed w => with_st w (st_start (w_st w) conv title snoozed))
  (fun sid _ w => ok (set_st w (st_update (w_st w) sid (with_session_status SCompleted))) tt)
  (fun sid _ w => ok (set_st w (st_update (w_st w) sid (with_session_status SErrored))) tt)
  (fun sid w => ok (set_st w (st_update (w_st w) sid (with_session_status SStopped))) tt)
  (fun sid w => ok (set_st w (st_requestStop (w_st w) sid)) tt)
  (fun sid w => ok w (bool_decide (sid ∈ st_stopRequested (w_st w))))
  (fun sid name _ w => with_am w (am_request (w_am w) sid name))
  (fun aid w => with_am w (am_await (w_am w) aid))
  (fun sid w => ok (set_am w (am_cancelSession (w_am w) sid)) tt)
  (fun u w => ok (set_progress w (w_progress w ++ [u])) tt)
  (fun w => ok w tt)
  (fun w => ok w tt)
  (fun w => ok w 0)
  (fun tc w => ok w (mkToolResult [mkToolContent "text" (String.append "ran " (tc_name tc))] false))
  (fun _ _ _ _ w => match w_agentOutcomes w with
                    | o :: rest => (set_agentOutcomes w rest, o)
                    | [] => (w, inr "")
                    end)
  (fun _ _ _ _ w => ok w tt)
  (fun _ w => ok w tt).

(** *** Sample worlds *)

Definition emptyQueues : QueueService := mkQueueService ∅ ∅ ∅ 0.

Definition defaultConfig : Config := mkConfig false None None.

Definition world0 : World :=
  mkWorld emptyQueues (mkSessionTracker [] 0 ∅) (mkApprovalManager [] 0 [])
    {[ "c1" := [] ]} 0 [] defaultConfig (Some false) [].


(** two queued messages on conversation "c1": the first run succeeds, the
    second one throws *)
Definition drainWorld : World :=
  set_agentOutcomes
    (set_mq world0 (fst (mq_enqueue "c1" "B" (fst (mq_enqueue "c1" "A" emptyQueues)))))
    [inr "done"; inl (ErrorObj "model call failed")].


(** one run whose model loop throws *)
Definition failWorld : World :=
  set_agentOutcomes world0 [inl (ErrorObj "model call failed")].

(** conversation "c1" with an active session "session_0" bound to it *)
Definition activeWorld : World :=
  mkWorld emptyQueues
    (mkSessionTracker [mkAgentSession "session_0" (Some "c1") "first" SActive] 1 ∅)
    (mkApprovalManager [] 0 []) {[ "c1" := [("first", None)] ]} 0 [] defaultConfig (Some true) [].

(** the same, with message queuing disabled in the config *)
Definition activeWorldQueueOff : World :=
  mkWorld emptyQueues
    (mkSessionTracker [mkAgentSession "session_0" (Some "c1") "first" SActive] 1 ∅)
    (mkApprovalManager [] 0 []) {[ "c1" := [("first", None)] ]} 0 []
    (mkConfig false None (Some false)) (Some true) [].

(** Modelled from the spec: one tool-call step of the orchestration loop
    ([processTranscriptWithAgentMode], whose source is not in the excerpt):
    "execute the tool ...; append the tool result (success or error) to the
    transcript; increment iterationCount". *)
Definition agentToolStep {S} (env : Env S) (config : Config) (sessionId : string)
  (transcript : list MCPToolResult) (iterationCount : nat) (toolCall : ToolCall)
  : M S (list MCPToolResult * nat) :=
  let* result := executeToolCall env config sessionId toolCall in
  ret (transcript ++ [result], Datatypes.S iterationCount).

Definition approvalConfig : Config := mkConfig true None None.

(** one approval request, which the user denies *)
Definition denyWorld : World :=
  mkWorld emptyQueues (mkSessionTracker [] 0 ∅) (mkApprovalManager [] 0 [false])
    ∅ 0 [] approvalConfig (Some true) [].

(** ** Runs of the router and of the spawned work over the concrete world *)

(** The state change of one collaborator call in [wenv]. *)
Definition world_step (cl : call) (w : World) : World :=
  match cl with
  | CGetConfig => fst (op_getConfig World wenv w)
  | CTryAcquireProcessingLock c => fst (op_tryAcquireProcessingLock World wenv c w)
  | CReleaseProcessingLock c => fst (op_releaseProcessingLock World wenv c w)
  | CIsQueuePaused c => fst (op_isQueuePaused World wenv c w)
  | CPeek c => fst (op_peek World wenv c w)
  | CMarkProcessing c id => fst (op_markProcessing World wenv c id w)
  | CMarkAddedToHistory c id => fst (op_markAddedToHistory World wenv c id w)
  | CMarkProcessed c id => fst (op_markProcessed World wenv c id w)
  | CMarkFailed c id err => fst (op_markFailed World wenv c id err w)
  | CEnqueue c text => fst (op_enqueue World wenv c text w)
  | CGetQueue c => fst (op_getQueue World wenv c w)
  | CUpdateMessageText c id text => fst (op_updateMessageText World wenv c id text w)
  | CResetToPending c id => fst (op_resetToPending World wenv c id w)
  | CRemoveFromQueue c id => fst (op_removeFromQueue World wenv c id w)
  | CReorderQueue c ids => fst (op_reorderQueue World wenv c ids w)
  | CClearQueue c => fst (op_clearQueue World wenv c w)
  | CPauseQueue c => fst (op_pauseQueue World wenv c w)
  | CResumeQueue c => fst (op_resumeQueue World wenv c w)
  | CCreateConversation text => fst (op_createConversation World wenv text w)
  | CAddMessageToConversation c text q => fst (op_addMessageToConversation World wenv c text q w)
  | CLoadConversation c => fst (op_loadConversation World wenv c w)
  | CPanelVisible => fst (op_panelVisible World wenv w)
  | CFindSessionByConversationId c => fst (op_findSessionByConversationId World wenv c w)
  | CGetSession sid => fst (op_getSession World wenv sid w)
  | CReviveSession sid snoozed => fst (op_reviveSession World wenv sid snoozed w)
  | CStartSession conv title snoozed => fst (op_startSession World wenv conv title snoozed w)
  | CCompleteSession sid summary => fst (op_completeSession World wenv sid summary w)
  | CErrorSession sid msg => fst (op_errorSession World wenv sid msg w)
  | CTrackerStopSession sid => fst (op_trackerStopSession World wenv sid w)
  | CStateStopSession sid => fst (op_stateStopSession World wenv sid w)
  | CShouldStopSession sid => fst (op_shouldStopSession World wenv sid w)
  | CRequestApproval sid name args => fst (op_requestApproval World wenv sid name args w)
  | CAwaitApproval aid => fst (op_awaitApproval World wenv aid w)
  | CCancelSessionApprovals sid => fst (op_cancelSessionApprovals World wenv sid w)
  | CEmitAgentProgress u => fst (op_emitAgentProgress World wenv u w)
  | CMcpInitialize => fst (op_mcpInitialize World wenv w)
  | CRegisterExistingProcesses => fst (op_registerExistingProcesses World wenv w)
  | CGetAvailableTools => fst (op_getAvailableTools World wenv w)
  | CExecuteTool tc => fst (op_executeTool World wenv tc w)
  | CAgentLoop text conv sid n => fst (op_agentLoop World wenv text conv sid n w)
  | CSpawnAgentRun text c ex snoozed => fst (op_spawnAgentRun World wenv text c ex snoozed w)
  | CSpawnQueueProcessing c => fst (op_spawnQueueProcessing World wenv c w)
  end.

(** the world after the calls of a trace *)
Definition replay (t : list event) (w : World) : World :=
  fold_left (fun w ev => world_step (fst ev) w) t w.

(** What can happen to the world from outside a run: a router procedure
    called by the user interface, a launched orchestration run
    ([processWithAgentMode], the first half of [spawnAgentRun]) or a queue
    drain ([processQueuedMessages], launched when a run ends or by
    [spawnQueueProcessing]).  Each one runs to its end before the next. *)
Inductive command :=
| CmdTextInput (text : string) (conversationId : option string) (fromTile : option bool)
| CmdStop (sessionId : string)
| CmdRetry (conversationId : string) (messageId : nat)
| CmdUpdateText (conversationId : string) (messageId : nat) (text : string)
| CmdResume (conversationId : string)
| CmdRemove (conversationId : string) (messageId : nat)
| CmdClear (conversationId : string)
| CmdReorder (conversationId : string) (messageIds : list nat)
| CmdAgentRun (text conversationId : string) (existingSessionId : option string)
    (startSnoozed : bool)
| CmdDrain (fuel : nat) (conversationId : string).

Definition run_command (cmd : command) : M World unit :=
  match cmd with
  | CmdTextInput text conv fromTile =>
      let* _ := createMcpTextInput wenv text conv fromTile in ret tt
  | CmdStop sid => let* _ := stopAgentSession wenv sid in ret tt
  | CmdRetry c id => let* _ := retryQueuedMessage wenv c id in ret tt
  | CmdUpdateText c id text => let* _ := updateQueuedMessageText wenv c id text in ret tt
  | CmdResume c => let* _ := resumeMessageQueue wenv c in ret tt
  | CmdRemove c id => let* _ := removeFromMessageQueue wenv c id in ret tt
  | CmdClear c => let* _ := clearMessageQueue wenv c in ret tt
  | CmdReorder c ids => let* _ := reorderMessageQueue wenv c ids in ret tt
  | CmdAgentRun text c existing snoozed =>
      let* _ := processWithAgentMode wenv text (Some c) existing snoozed in ret tt
  | CmdDrain fuel c => processQueuedMessages wenv fuel c
  end.

(** a sequence of commands; a command that throws (a failed run) leaves its
    state changes in place and the next one runs *)
Fixpoint run_commands (cmds : list command) (w : World) : list event * World :=
  match cmds with
  | [] => ([], w)
  | cmd :: rest =>
      let '(t1, w1, _) := run_command cmd w in
      let '(t2, w2) := run_commands rest w1 in
      (t1 ++ t2, w2)
  end.

(** ** Trace predicates *)

(** A collaborator that never throws. *)
Definition never_throws {S A} (f : S -> answer S A) : Prop :=
  forall s, exists s' a, f s = (s', inr a).

(** The calls of the queue-processing protocol itself (lock, pause check,
    peek and the status marks); every other call belongs to the unit of work. *)
Definition protocol_call (c : call) : bool :=
  match c with
  | CTryAcquireProcessingLock _ | CReleaseProcessingLock _ | CIsQueuePaused _
  | CPeek _ | CMarkProcessing _ _ | CMarkProcessed _ _ | CMarkFailed _ _ _ => true
  | _ => false
  end.

Definition work (w : list event) : Prop :=
  Forall (fun ev => protocol_call (fst ev) = false) w.

(** The processing protocol of the spec, one loop turn at a time:
    "loop { if paused, stop; peek; if none, stop; markProcessing (on failure,
    re-peek and continue); perform the unit of work; markProcessed on success
    or markFailed+break on error }". *)
Inductive drain_turn (c : string) : list event -> loopctl -> Prop :=
| turn_paused :
    drain_turn c [(CIsQueuePaused c, RBool true)] LStop
| turn_empty :
    drain_turn c [(CIsQueuePaused c, RBool false); (CPeek c, RMsg None)] LStop
| turn_skip m :
    drain_turn c [(CIsQueuePaused c, RBool false); (CPeek c, RMsg (Some m));
                  (CMarkProcessing c (qm_id m), RBool false)] LContinue
| turn_processed m w :
    work w ->
    drain_turn c ([(CIsQueuePaused c, RBool false); (CPeek c, RMsg (Some m));
                   (CMarkProcessing c (qm_id m), RBool true)]
                  ++ w ++ [(CMarkProcessed c (qm_id m), RUnit)]) LContinue
| turn_failed m w err :
    work w ->
    drain_turn c ([(CIsQueuePaused c, RBool false); (CPeek c, RMsg (Some m));
                   (CMarkProcessing c (qm_id m), RBool true)]
                  ++ w ++ [(CMarkFailed c (qm_id m) err, RUnit)]) LStop.

(** Turns repeated until one of them stops. *)
Inductive drain_turns (c : string) : list event -> Prop :=
| turns_last t : drain_turn c t LStop -> drain_turns c t
| turns_more t t' : drain_turn c t LContinue -> drain_turns c t' -> drain_turns c (t ++ t').

(** [m] only makes calls satisfying [P]. *)
Definition only_calls {S A} (P : call -> Prop) (m : M S A) : Prop :=
  forall s t s' r, m s = (t, s', r) -> Forall (fun ev => P (fst ev)) t.


Definition is_execute (c : call) : bool :=
  match c with CExecuteTool _ => true | _ => false end.

Definition outcome_of {A} (x : exn + A) : outcome A :=
  match x with inl e => Raise e | inr a => Ret a end.

(** A progress snapshot that closes the run, and the "session errored" call. *)
Definition is_complete_emit (c : call) : bool :=
  match c with CEmitAgentProgress u => pu_isComplete u | _ => false end.

Definition is_error_session (c : call) : bool :=
  match c with CErrorSession _ _ => true | _ => false end.

(** A call neither closing the run's progress nor marking a session errored. *)
Definition quiet_call (c : call) : Prop :=
  is_complete_emit c = false /\ is_error_session c = false.

(** Whenever [m] throws, its last call threw that very value. *)
Definition raise_logged {S A} (m : M S A) : Prop :=
  forall s t s' e, m s = (t, s', Raise e) -> exists t1 c, t = t1 ++ [(c, RExn e)].

(** Whenever [m] returns, its last call is [last]. *)
Definition returns_after (last : event) {S A} (m : M S A) : Prop :=
  forall s t s' a, m s = (t, s', Ret a) -> exists t1, t = t1 ++ [last].

(** The session of a [processWithAgentMode] run: the (truthy) existing one,
    or the one its [startSession] call returned. *)
Definition run_session (text : string) (conversationId existingSessionId : option string)
  (startSnoozed : bool) (t : list event) (sid : string) : Prop :=
  truthy existingSessionId = Some sid
  \/ (truthy existingSessionId = None
      /\ In (CStartSession conversationId (conversationTitleOf text) startSnoozed, RString sid) t).

(** [session && session.status === "active"] *)
Definition session_active (session : option AgentSession) : bool :=
  match session with
  | Some se => SessionStatus_eqb (as_status se) SActive
  | None => false
  end.

(** The calls [createMcpTextInput] makes to decide between queuing and
    starting, for a conversation [c] and the config read first, with the
    decision ([true]: queue): queuing disabled, no (truthy) session found,
    or the found session and whether it is active. *)
Inductive queue_gate (c : string) (config : Config) : list event -> bool -> Prop :=
| gate_disabled :
    mcpMessageQueueEnabled config = Some false ->
    queue_gate c config [] false
| gate_no_session found :
    mcpMessageQueueEnabled config <> Some false -> truthy found = None ->
    queue_gate c config [(CFindSessionByConversationId c, ROptString found)] false
| gate_session sid session :
    mcpMessageQueueEnabled config <> Some false -> truthy (Some sid) = Some sid ->
    queue_gate c config [(CFindSessionByConversationId c, ROptString (Some sid));
                         (CGetSession sid, RSession session)] (session_active session).

(** Session lookups and revivals (the [startRun] prelude). *)
Definition revive_call (c : call) : Prop :=
  match c with
  | CFindSessionByConversationId _ | CReviveSession _ _ => True
  | _ => False
  end.

(** The [snoozed] flag a call passes to the session registry, if any. *)
Definition snooze_flag (c : call) : option bool :=
  match c with
  | CReviveSession _ b => Some b
  | CStartSession _ _ b => Some b
  | _ => None
  end.

Definition is_panel (c : call) : bool :=
  match c with CPanelVisible => true | _ => false end.

(** A call that reads no panel state and, if it passes a [snoozed] flag,
    passes [snoozed]. *)
Definition snoozes_as (snoozed : bool) (c : call) : Prop :=
  is_panel c = false /\ (snooze_flag c = None \/ snooze_flag c = Some snoozed).

(** [m] ends, when it returns, with the call [last] made once after a unit
    of work; when it throws, all of its calls are work. *)
Definition ends_with {S} (last : event) {A} (m : M S A) : Prop :=
  forall s t s' r, m s = (t, s', r) ->
  match r with
  | Ret _ => exists w, t = w ++ [last] /\ work w
  | Raise _ => work t
  | Stuck => True
  end.

Definition is_release (c : call) : bool :=
  match c with CReleaseProcessingLock _ => true | _ => false end.

(** ** Properties of runs over the concrete world *)

(** [m] changes the world exactly as its trace says: replaying the calls
    of the trace, one [world_step] each, gives the final world. *)
Definition replays {A} (m : M World A) : Prop :=
  forall w t w' r, m w = (t, w', r) -> w' = replay t w.

(** [m] keeps the world property [I] on every run. *)
Definition preserves (I : World -> Prop) {A} (m : M World A) : Prop :=
  forall w t w' r, I w -> m w = (t, w', r) -> I w'.

(** The calls an orchestration run ([processWithAgentMode]) makes. *)
Definition agent_call (cl : call) : bool :=
  match cl with
  | CGetConfig | CStartSession _ _ _ | CRegisterExistingProcesses | CGetAvailableTools
  | CLoadConversation _ | CAgentLoop _ _ _ _ | CCompleteSession _ _ | CErrorSession _ _
  | CEmitAgentProgress _ | CShouldStopSession _ | CMcpInitialize => true
  | _ => false
  end.

(** *** Failed messages *)

(** the queue of [c] starts with the failed message [id] *)
Definition failed_head (mq : QueueService) (c : string) (id : nat) : Prop :=
  exists m rest, queueOf mq c = m :: rest /\ qm_id m = id /\ is_failed m = true.

(** the queue of [c] starts with message [id], failed with error [err] *)
Definition failed_with (mq : QueueService) (c : string) (id : nat) (err : string) : Prop :=
  exists m rest, queueOf mq c = m :: rest /\ qm_id m = id /\ qm_status m = QFailed
                 /\ qm_errorMessage m = Some err.

(** the queue of [c] starts with message [id] *)
Definition head_id (mq : QueueService) (c : string) (id : nat) : Prop :=
  exists m rest, queueOf mq c = m :: rest /\ qm_id m = id.

(** The queue-service calls that can take the failed message [id] of [c]
    out of that state or off the head of the queue: reset, text update,
    removal, clear, reorder. *)
Definition releases_failed (c : string) (id : nat) (cl : call) : bool :=
  match cl with
  | CResetToPending c' id' | CUpdateMessageText c' id' _ | CRemoveFromQueue c' id'
  | CMarkProcessed c' id' => String.eqb c' c && Nat.eqb id' id
  | CClearQueue c' | CReorderQueue c' _ => String.eqb c' c
  | _ => false
  end.

(** The router procedures that can release the failed message [id] of [c]:
    [retryQueuedMessage], [updateQueuedMessageText] and
    [removeFromMessageQueue] on that message, [clearMessageQueue] and
    [reorderMessageQueue] on [c]. *)
Definition command_releases (c : string) (id : nat) (cmd : command) : bool :=
  match cmd with
  | CmdRetry c' id' | CmdUpdateText c' id' _ | CmdRemove c' id' => String.eqb c' c && Nat.eqb id' id
  | CmdClear c' | CmdReorder c' _ => String.eqb c' c
  | _ => false
  end.

(** a call that starts the processing of a queued message *)
Definition starts_work (cl : call) : bool :=
  match cl with CMarkProcessing _ _ => true | _ => false end.

(** the calls that leave the head of the queue of [c] in place *)
Definition keeps_head (c : string) (cl : call) : bool :=
  match cl with
  | CRemoveFromQueue c' _ | CClearQueue c' | CReorderQueue c' _ | CMarkProcessed c' _ =>
      negb (String.eqb c' c)
  | _ => true
  end.

Definition is_markFailed (cl : call) : bool :=
  match cl with CMarkFailed _ _ _ => true | _ => false end.

(** *** Insertions into the conversation history *)

(** the history of conversation [c] (empty when it does not exist) *)
Definition history (w : World) (c : string) : list (string * option nat) :=
  match w_conversations w !! c with Some h => h | None => [] end.

(** the ids of the queued messages whose text a history holds, one per
    insertion *)
Fixpoint history_ids (h : list (string * option nat)) : list nat :=
  match h with
  | [] => []
  | (_, Some id) :: h' => id :: history_ids h'
  | (_, None) :: h' => history_ids h'
  end.

(** Every queued message is in the history of its conversation at most
    once; a message in a history was given its id by the queue, and every
    queued message with that id carries the [addedToHistory] flag; queued
    ids are below the next fresh id. *)
Definition history_once (w : World) : Prop :=
  (forall c, NoDup (history_ids (history w c)) /\
     forall id, In id (history_ids (history w c)) ->
       id < mq_nextId (w_mq w) /\
       forall m, In m (queueOf (w_mq w) c) -> qm_id m = id -> qm_addedToHistory m = true)
  /\ forall c m, In m (queueOf (w_mq w) c) -> qm_id m < mq_nextId (w_mq w).

(** the insertion of a queued message's text into its history *)
Definition tagged_add (cl : call) : bool :=
  match cl with CAddMessageToConversation _ _ (Some _) => true | _ => false end.

(** every message queued in [mq'] was queued in [mq] with the same id, and
    keeps its [addedToHistory] flag *)
Definition queue_sub (mq mq' : QueueService) : Prop :=
  forall c m, In m (queueOf mq' c) ->
  exists m0, In m0 (queueOf mq c) /\ qm_id m0 = qm_id m /\
             (qm_addedToHistory m0 = true -> qm_addedToHistory m = true).

(** *** More sample worlds *)

(** session "session_0" active on conversation "c1", with an outstanding
    approval and a queued message *)
Definition stopWorld : World :=
  mkWorld (fst (mq_enqueue "c1" "next" emptyQueues))
    (mkSessionTracker [mkAgentSession "session_0" (Some "c1") "first" SActive] 1 ∅)
    (mkApprovalManager [mkApprovalRequest 0 "session_0" "write_file" None] 1 [])
    {[ "c1" := [("first", None)] ]} 0 [] defaultConfig (Some true) [].

(** two messages queued for a conversation "c2" that the store does not
    have: the insertion into its history fails *)
Definition queueFailWorld : World :=
  set_mq world0 (fst (mq_enqueue "c2" "later" (fst (mq_enqueue "c2" "hello" emptyQueues)))).

(** one message queued on "c1": its first run throws, the second succeeds *)
Definition retryWorld : World :=
  set_agentOutcomes (set_mq world0 (fst (mq_enqueue "c1" "A" emptyQueues)))
    [inl (ErrorObj "model call failed"); inr "done"].

(** drain, retry the failed message, drain again *)
Definition retryCommands : list command :=
  [CmdDrain 3 "c1"; CmdRetry "c1" 0; CmdDrain 3 "c1"].

(** ** Further procedures of the router *)

Definition session_of_call (c : call) : option string :=
  match c with
  | CShouldStopSession x | CCompleteSession x _ | CErrorSession x _
  | CReviveSession x _ | CGetSession x | CTrackerStopSession x | CStateStopSession x
  | CRequestApproval x _ _ | CCancelSessionApprovals x => Some x
  | CAgentLoop _ _ x _ => Some x
  | CEmitAgentProgress u => Some (pu_sessionId u)
  | _ => None
  end.

Definition is_start_session (c : call) : bool :=
  match c with CStartSession _ _ _ => true | _ => false end.

Definition scoped_to (sid : string) (c : call) : Prop :=
  is_start_session c = false /\ forall x, session_of_call c = Some x -> x = sid.

Definition targets (sid : string) (ev : event) : Prop :=
  forall x, session_of_call (fst ev) = Some x -> x = sid.

Definition starts (t : list event) : nat :=
  length (List.filter (fun ev => is_start_session (fst ev)) t).

Definition modify {S} (f : S -> S) : M S unit := fun s => ([], f s, Ret tt).

Definition gets {S A} (f : S -> A) : M S A := fun s => ([], s, Ret (f s)).

(** *** Panel size ([getPanelSize], [updatePanelSize], [savePanelCustomSize],
    [savePanelModeSize], [initializePanelSize]) *)

Inductive PanelMode := PMNormal | PMAgent | PMTextInput.

Inductive windowCall :=
| WSetMinimumSize (width height : Z)
| WSetMaximumSize (width height : Z)
| WMarkManualResize
| WSetSize (width height : Z) (animate : bool).

(** [WINDOWS.get("panel")] with the size [getSize] reports, the
    [panelCustomSize] setting of the config store (the rest of the config is
    carried along unchanged by the spreads), and the window calls made. *)
Record PanelWorld := mkPanelWorld {
  pw_panel : option (Z * Z);
  pw_panelCustomSize : option (Z * Z);
  pw_calls : list windowCall
}.

Definition panelCall (c : windowCall) : M PanelWorld unit :=
  modify (fun w => mkPanelWorld (pw_panel w) (pw_panelCustomSize w) (pw_calls w ++ [c])).

Definition panelNotFound : exn := ErrorObj "Panel window not found".

Definition getPanelWindow : M PanelWorld (Z * Z) :=
  let* win := gets pw_panel in
  match win with Some size => ret size | None => raise panelNotFound end.

Definition getPanelSize : M PanelWorld (Z * Z) := getPanelWindow.

Definition updatePanelSize (width height : Z) : M PanelWorld (Z * Z) :=
  let* _ := getPanelWindow in
  let minWidth := 200%Z in
  let minHeight := 100%Z in
  let finalWidth := Z.max minWidth width in
  let finalHeight := Z.max minHeight height in
  let* _ := panelCall (WSetMinimumSize minWidth minHeight) in
  let* _ := panelCall (WSetMaximumSize (finalWidth + 1000) (finalHeight + 1000)) in
  let* _ := panelCall WMarkManualResize in
  let* _ := panelCall (WSetSize finalWidth finalHeight true) in
  ret (finalWidth, finalHeight).

(** [configStore.save({ ...config, panelCustomSize: { width, height } })] *)
Definition savePanelSizeSetting (width height : Z) : M PanelWorld unit :=
  modify (fun w => mkPanelWorld (pw_panel w) (Some (width, height)) (pw_calls w)).

Definition savePanelCustomSize (width height : Z) : M PanelWorld (Z * Z) :=
  let* _ := savePanelSizeSetting width height in
  ret (width, height).

Definition savePanelModeSize (mode : PanelMode) (width height : Z)
  : M PanelWorld (PanelMode * (Z * Z)) :=
  let* _ := savePanelSizeSetting width height in
  ret (mode, (width, height)).

Definition initializePanelSize : M PanelWorld (Z * Z) :=
  let* size := getPanelWindow in
  let* custom := gets pw_panelCustomSize in
  match custom with
  | Some (width, height) =>
      let finalWidth := Z.max 200 width in
      let finalHeight := Z.max 100 height in
      let* _ := panelCall (WSetMinimumSize 200 100) in
      let* _ := panelCall (WSetSize finalWidth finalHeight false) in
      ret (finalWidth, finalHeight)
  | None => ret size
  end.

(** *** Settings ([saveConfig], [setCurrentProfile]) *)

(** A JavaScript value, as the settings hold them: numbers are integers here,
    and an object is only told apart from the primitives. *)
Inductive jsval :=
| JUndefined
| JNull
| JBool (b : bool)
| JNumber (n : Z)
| JString (s : string)
| JObject.

(** A plain JavaScript object, such as the config. *)
Abbreviation JsObject := (gmap string jsval).

Definition js_truthy (v : jsval) : bool :=
  match v with
  | JUndefined | JNull => false
  | JBool b => b
  | JNumber n => negb (Z.eqb n 0)
  | JString s => negb (String.eqb s "")
  | JObject => true
  end.

(** [a || b] *)
Definition js_or (a b : jsval) : jsval := if js_truthy a then a else b.

(** [o?.k] *)
Definition prop (o : JsObject) (k : string) : jsval :=
  match o !! k with Some v => v | None => JUndefined end.

(** [{ ...a, ...b }] *)
Definition spread (a b : JsObject) : JsObject := b ∪ a.

(** [a !== b] on primitives. *)
Definition js_strict_eq (a b : jsval) : bool :=
  match a, b with
  | JUndefined, JUndefined | JNull, JNull => true
  | JBool x, JBool y => Bool.eqb x y
  | JNumber x, JNumber y => Z.eqb x y
  | JString x, JString y => String.eqb x y
  | _, _ => false
  end.

(** [prev.k !== merged.k] for [merged = { ...prev, ...next }]: a key [next]
    does not hold keeps the very same value; a key it holds has the value
    received over IPC, which as an object is a fresh copy. *)
Definition changed (prev next : JsObject) (k : string) : bool :=
  match next !! k with
  | None => false
  | Some v => negb (js_strict_eq (prop prev k) v)
  end.

Inductive settingsCall :=
| ESaveConfig (config : JsObject)
| EClearModelsCache
| ESetLoginItemSettings (openAtLogin : bool)
| ESetActivationPolicy (policy : string)
| EDockHide
| EDockShow
| EStartRemoteServer
| EStopRemoteServer
| ERestartRemoteServer
| EApplyProfileMcpConfig (disabledServers disabledTools : list string)
    (allServersDisabledByDefault : bool) (enabledServers : list string).

Record SettingsWorld := mkSettingsWorld {
  sw_config : JsObject;
  sw_calls : list settingsCall
}.

(** The process the router runs in: [process.env.NODE_ENV === "production"],
    [process.env.ELECTRON_RENDERER_URL] set, [process.platform === "linux"],
    [process.env.IS_MAC]. *)
Record Host := mkHost {
  h_production : bool;
  h_rendererUrl : bool;
  h_linux : bool;
  h_isMac : bool
}.

Definition providerKeys : list string :=
  ["openaiBaseUrl"; "openaiApiKey"; "groqBaseUrl"; "groqApiKey"; "geminiBaseUrl";
   "geminiApiKey"].

Definition remoteServerKeys : list string :=
  ["remoteServerPort"; "remoteServerBindAddress"; "remoteServerApiKey";
   "remoteServerLogLevel"].

Definition is_remote_server_call (c : settingsCall) : bool :=
  match c with
  | EStartRemoteServer | EStopRemoteServer | ERestartRemoteServer => true
  | _ => false
  end.

Section Settings.
(** Which calls throw, and with what. *)
Variable fails : settingsCall -> option exn.

Definition settingsCallM (c : settingsCall) : M SettingsWorld unit := fun w =>
  match fails c with
  | Some e => ([], mkSettingsWorld (sw_config w) (sw_calls w ++ [c]), Raise e)
  | None =>
      let config := match c with ESaveConfig config => config | _ => sw_config w end in
      ([], mkSettingsWorld config (sw_calls w ++ [c]), Ret tt)
  end.

(** [try { .. } catch (_e) { }] *)
Definition best_effort (m : M SettingsWorld unit) : M SettingsWorld unit :=
  try_catch m (fun _ => ret tt).

Definition saveConfig (host : Host) (next : JsObject) : M SettingsWorld unit :=
  let* prev := gets sw_config in
  let merged := spread prev next in
  let* _ := settingsCallM (ESaveConfig merged) in
  let* _ := best_effort
    (let providerConfigChanged := existsb (changed prev next) providerKeys in
     if providerConfigChanged then settingsCallM EClearModelsCache else ret tt) in
  let* _ := best_effort
    (if (h_production host || negb (h_rendererUrl host)) && negb (h_linux host) then
       settingsCallM (ESetLoginItemSettings (js_truthy (prop merged "launchAtLogin")))
     else ret tt) in
  let* _ :=
    if h_isMac host then
      best_effort
        (let prevHideDock := js_truthy (prop prev "hideDockIcon") in
         let nextHideDock := js_truthy (prop merged "hideDockIcon") in
         if negb (Bool.eqb prevHideDock nextHideDock) then
           if nextHideDock then
             let* _ := settingsCallM (ESetActivationPolicy "accessory") in
             settingsCallM EDockHide
           else
             let* _ := settingsCallM EDockShow in
             settingsCallM (ESetActivationPolicy "regular")
         else ret tt)
    else ret tt in
  best_effort
    (let prevEnabled := js_truthy (prop prev "remoteServerEnabled") in
     let nextEnabled := js_truthy (prop merged "remoteServerEnabled") in
     if negb (Bool.eqb prevEnabled nextEnabled) then
       if nextEnabled then settingsCallM EStartRemoteServer
       else settingsCallM EStopRemoteServer
     else if nextEnabled then
       let changedRemote := existsb (changed prev next) remoteServerKeys in
       if changedRemote then settingsCallM ERestartRemoteServer else ret tt
     else ret tt).

Record ProfileMcpServerConfig := mkProfileMcpServerConfig {
  pm_disabledServers : option (list string);
  pm_disabledTools : option (list string);
  pm_allServersDisabledByDefault : option bool;
  pm_enabledServers : option (list string)
}.

Record Profile := mkProfile {
  pr_id : string;
  pr_guidelines : string;
  pr_systemPrompt : jsval;
  pr_modelConfig : option JsObject;
  pr_mcpServerConfig : option ProfileMcpServerConfig
}.

(** [profileService.setCurrentProfile(id)]: the profile, or a throw. *)
Variable profileServiceSetCurrent : string -> exn + Profile.

Definition profileModelKeys : list string :=
  ["mcpToolsProviderId"; "mcpToolsOpenaiModel"; "mcpToolsGroqModel"; "mcpToolsGeminiModel";
   "currentModelPresetId"; "sttProviderId"; "transcriptPostProcessingProviderId";
   "transcriptPostProcessingOpenaiModel"; "transcriptPostProcessingGroqModel";
   "transcriptPostProcessingGeminiModel"; "ttsProviderId"].

(** [...(profile.modelConfig?.k && { k: profile.modelConfig.k })] *)
Definition spreadModelSetting (modelConfig : option JsObject) (o : JsObject) (k : string)
  : JsObject :=
  match modelConfig with
  | Some mc => if js_truthy (prop mc k) then <[k := prop mc k]> o else o
  | None => o
  end.

Definition profileConfig (config : JsObject) (profile : Profile) : JsObject :=
  fold_left (spreadModelSetting (pr_modelConfig profile)) profileModelKeys
    (<["mcpCustomSystemPrompt" := js_or (pr_systemPrompt profile) (JString "")]>
      (<["mcpCurrentProfileId" := JString (pr_id profile)]>
        (<["mcpToolsSystemPrompt" := JString (pr_guidelines profile)]> config))).

Definition option_default {A} (d : A) (o : option A) : A :=
  match o with Some a => a | None => d end.

Definition setCurrentProfile (id : string) : M SettingsWorld Profile :=
  let* profile := match profileServiceSetCurrent id with
                  | inl e => raise e
                  | inr p => ret p
                  end in
  let* config := gets sw_config in
  let* _ := settingsCallM (ESaveConfig (profileConfig config profile)) in
  let mcp := pr_mcpServerConfig profile in
  let* _ := settingsCallM (EApplyProfileMcpConfig
              (option_default [] (mcp ≫= pm_disabledServers))
              (option_default [] (mcp ≫= pm_disabledTools))
              (option_default false (mcp ≫= pm_allServersDisabledByDefault))
              (option_default [] (mcp ≫= pm_enabledServers))) in
  ret profile.

End Settings.

(** Runs of a block of settings calls that leave the config alone: no
    event, no [Stuck], and the calls [P] admits appended to the log. *)
Definition quiet_run (m : M SettingsWorld unit) (P : list settingsCall -> Prop) : Prop :=
  forall w t w' r, m w = (t, w', r) ->
    t = [] /\ r <> Stuck /\ sw_config w' = sw_config w
    /\ exists cs, sw_calls w' = sw_calls w ++ cs /\ P cs.

(** The same, for a block that never throws either. *)
Definition safe_run (m : M SettingsWorld unit) (P : list settingsCall -> Prop) : Prop :=
  forall w t w' r, m w = (t, w', r) ->
    t = [] /\ r = Ret tt /\ sw_config w' = sw_config w
    /\ exists cs, sw_calls w' = sw_calls w ++ cs /\ P cs.

Definition seq_P (P1 P2 : list settingsCall -> Prop) (cs : list settingsCall) : Prop :=
  exists c1 c2, cs = c1 ++ c2 /\ P1 c1 /\ P2 c2.

Definition profileKeys : list string :=
  ["mcpToolsSystemPrompt"; "mcpCurrentProfileId"; "mcpCustomSystemPrompt"].

Record RecordingHistoryItem := mkRecordingHistoryItem {
  rh_id : string;
  rh_createdAt : Z;
  rh_duration : Z;
  rh_transcript : string
}.

(** The recordings folder: [history.json] (None when it is missing or does
    not parse as an array of items; [JSON.stringify] then [JSON.parse] gives
    back the items written), and the names of the other files in it. *)
Record RecordingsFolder := mkRecordingsFolder {
  rf_history : option (list RecordingHistoryItem);
  rf_files : list string
}.

Inductive uiEffect :=
| URefreshRecordingHistory
| UPanelHide
| UClipboardWriteText (text : string)
| UScheduleWriteText (text : string) (delay : jsval) (restoreFocus : bool).

(** [recordingsFolder] (None when it does not exist), the config store,
    [Date.now()] (the clock does not move during one procedure),
    [WINDOWS.get("main")], [WINDOWS.get("panel")],
    [state.focusedAppBeforeRecording], [isAccessibilityGranted()], and the UI
    effects caused, oldest first. *)
Record FsWorld := mkFsWorld {
  fs_folder : option RecordingsFolder;
  fs_config : JsObject;
  fs_now : Z;
  fs_main : bool;
  fs_panel : bool;
  fs_focusedApp : bool;
  fs_accessibility : bool;
  fs_effects : list uiEffect
}.

Definition set_folder (f : option RecordingsFolder) (w : FsWorld) : FsWorld :=
  mkFsWorld f (fs_config w) (fs_now w) (fs_main w) (fs_panel w) (fs_focusedApp w)
    (fs_accessibility w) (fs_effects w).

Definition uiEffectM (u : uiEffect) : M FsWorld unit :=
  modify (fun w => mkFsWorld (fs_folder w) (fs_config w) (fs_now w) (fs_main w) (fs_panel w)
                     (fs_focusedApp w) (fs_accessibility w) (fs_effects w ++ [u])).

Definition ENOENT : exn := ErrorObj "ENOENT: no such file or directory".

Definition historyParseError : exn := ErrorObj "history.json is not an array of items".

(** [JSON.parse(fs.readFileSync(path.join(recordingsFolder, "history.json"), "utf8"))] *)
Definition readHistoryJson : M FsWorld (list RecordingHistoryItem) := fun w =>
  match fs_folder w with
  | None => ([], w, Raise ENOENT)
  | Some f =>
      match rf_history f with
      | Some h => ([], w, Ret h)
      | None => ([], w, Raise historyParseError)
      end
  end.

(** [fs.writeFileSync(path.join(recordingsFolder, "history.json"), JSON.stringify(history))] *)
Definition saveRecordingsHitory (history : list RecordingHistoryItem) : M FsWorld unit := fun w =>
  match fs_folder w with
  | None => ([], w, Raise ENOENT)
  | Some f => ([], set_folder (Some (mkRecordingsFolder (Some history) (rf_files f))) w, Ret tt)
  end.

(** [fs.writeFileSync(path.join(recordingsFolder, name), ...)] for another file *)
Definition writeFile (name : string) : M FsWorld unit := fun w =>
  match fs_folder w with
  | None => ([], w, Raise ENOENT)
  | Some f =>
      let files := if existsb (String.eqb name) (rf_files f) then rf_files f
                   else rf_files f ++ [name] in
      ([], set_folder (Some (mkRecordingsFolder (rf_history f) files)) w, Ret tt)
  end.

(** [fs.unlinkSync(path.join(recordingsFolder, name))] *)
Definition unlinkFile (name : string) : M FsWorld unit := fun w =>
  match fs_folder w with
  | None => ([], w, Raise ENOENT)
  | Some f =>
      if existsb (String.eqb name) (rf_files f) then
        ([], set_folder (Some (mkRecordingsFolder (rf_history f)
                                 (List.filter (fun n => negb (String.eqb n name)) (rf_files f)))) w,
         Ret tt)
      else ([], w, Raise ENOENT)
  end.

(** [fs.mkdirSync(recordingsFolder, { recursive: true })] *)
Definition mkdirRecordings : M FsWorld unit := fun w =>
  match fs_folder w with
  | None => ([], set_folder (Some (mkRecordingsFolder None [])) w, Ret tt)
  | Some _ => ([], w, Ret tt)
  end.

(** [fs.rmSync(recordingsFolder, { force: true, recursive: true })] *)
Definition rmRecordings : M FsWorld unit := modify (set_folder None).

(** [history.sort((a, b) => b.createdAt - a.createdAt)]: the sort of the
    language is stable, so it is the stable sort by decreasing [createdAt],
    here by insertion. *)
Fixpoint insert_by_createdAt (x : RecordingHistoryItem) (l : list RecordingHistoryItem)
  : list RecordingHistoryItem :=
  match l with
  | [] => [x]
  | y :: l' => if (rh_createdAt y <? rh_createdAt x)%Z then x :: l
               else y :: insert_by_createdAt x l'
  end.

Definition sort_by_createdAt_desc (l : list RecordingHistoryItem) : list RecordingHistoryItem :=
  fold_left (fun acc x => insert_by_createdAt x acc) l [].

Definition getRecordingHistory : M FsWorld (list RecordingHistoryItem) :=
  try_catch
    (let* history := readHistoryJson in
     ret (sort_by_createdAt_desc history))
    (fun _ => ret []).

Definition deleteRecordingItem (id : string) : M FsWorld unit :=
  let* history := getRecordingHistory in
  let recordings := List.filter (fun item => negb (String.eqb (rh_id item) id)) history in
  let* _ := saveRecordingsHitory recordings in
  unlinkFile (id ++ ".webm").

Definition deleteRecordingHistory : M FsWorld unit := rmRecordings.

Definition lift {S A} (r : exn + A) : M S A :=
  match r with inl e => raise e | inr a => ret a end.

Section Recordings.
(** [postProcessTranscript(text)]: the processed text, or a throw. *)
Variable postProcessTranscript : string -> exn + string.

Definition createTextInput (text : string) : M FsWorld unit :=
  let* config := gets fs_config in
  let* processedText :=
    if js_truthy (prop config "transcriptPostProcessingEnabled") then
      try_catch (lift (postProcessTranscript text)) (fun _ => ret text)
    else ret text in
  let* history := getRecordingHistory in
  let* now := gets fs_now in
  let item := mkRecordingHistoryItem (pretty now) now 0 processedText in
  let* _ := saveRecordingsHitory (history ++ [item]) in
  let* main := gets fs_main in
  let* _ := if main then uiEffectM URefreshRecordingHistory else ret tt in
  let* panel := gets fs_panel in
  let* _ := if panel then uiEffectM UPanelHide else ret tt in
  let* focused := gets fs_focusedApp in
  if js_truthy (prop config "mcpAutoPasteEnabled") && focused then
    uiEffectM (UScheduleWriteText processedText
                 (js_or (prop config "mcpAutoPasteDelay") (JNumber 1000)) false)
  else ret tt.

(** The part of [createRecording] after the transcription request:
    [transcription] is what the request gave, [json.text] or the throw of a
    failed request. *)
Definition createRecording (transcription : exn + string) (duration : Z) : M FsWorld unit :=
  let* _ := mkdirRecordings in
  let* text := lift transcription in
  let* transcript := lift (postProcessTranscript text) in
  let* history := getRecordingHistory in
  let* now := gets fs_now in
  let item := mkRecordingHistoryItem (pretty now) now duration transcript in
  let* _ := saveRecordingsHitory (history ++ [item]) in
  let* _ := writeFile (rh_id item ++ ".webm") in
  let* main := gets fs_main in
  let* _ := if main then uiEffectM URefreshRecordingHistory else ret tt in
  let* panel := gets fs_panel in
  let* _ := if panel then uiEffectM UPanelHide else ret tt in
  let* _ := uiEffectM (UClipboardWriteText transcript) in
  let* granted := gets fs_accessibility in
  if granted then uiEffectM (UScheduleWriteText transcript (JNumber 500) true) else ret tt.

End Recordings.

(** Newest first. *)
Definition createdAt_desc (x y : RecordingHistoryItem) : Prop :=
  (rh_createdAt y <= rh_createdAt x)%Z.

Definition with_createdAt (c : Z) (l : list RecordingHistoryItem) : list RecordingHistoryItem :=
  List.filter (fun x => Z.eqb (rh_createdAt x) c) l.

(** What [getRecordingHistory] reads: the stored items, none when the file
    cannot be read. *)
Definition stored_history (w : FsWorld) : list RecordingHistoryItem :=
  match fs_folder w with
  | Some f => match rf_history f with Some h => h | None => [] end
  | None => []
  end.

(** A menu item, with what its [click] does. *)
Inductive menuItem :=
| MCopy (text : string)                 (* clipboard.writeText(input.selectedText || "") *)
| MCopyMessage (content : string)       (* clipboard.writeText(content) *)
| MSeparator
| MInspectElement (x y : Z)             (* context.sender.inspectElement(x, y) *)
| MClose.                               (* panelWindow?.hide() *)

Record MessageContext := mkMessageContext {
  mc_content : string;
  mc_role : string;
  mc_messageId : string
}.

Record ContextMenuInput := mkContextMenuInput {
  cmi_x : Z;
  cmi_y : Z;
  cmi_selectedText : option string;
  cmi_messageContext : option MessageContext
}.

(** [import.meta.env.DEV], the [webContents.id] of the panel window if there
    is one, and the id of the sender. *)
Definition contextMenuItems (dev : bool) (panelId : option Z) (senderId : Z)
  (input : ContextMenuInput) : list menuItem :=
  let items : list menuItem := [] in
  let items :=
    match truthy (cmi_selectedText input) with
    | Some s => items ++ [MCopy s]
    | None => items
    end in
  let items :=
    match cmi_messageContext input with
    | Some mc =>
        let items := items ++ [MCopyMessage (mc_content mc)] in
        if Nat.ltb 0 (length items) then items ++ [MSeparator] else items
    | None => items
    end in
  let items := if dev then items ++ [MInspectElement (cmi_x input) (cmi_y input)] else items in
  let isPanelWindow := match panelId with Some i => Z.eqb i senderId | None => false end in
  if isPanelWindow then items ++ [MClose] else items.

(** [Menu.buildFromTemplate(items).popup({ x, y })] *)
Definition showContextMenu (dev : bool) (panelId : option Z) (senderId : Z)
  (input : ContextMenuInput) : list menuItem * (Z * Z) :=
  (contextMenuItems dev panelId senderId input, (cmi_x input, cmi_y input)).

(** *** Text to speech ([generateSpeech], [generateOpenAITTS],
    [generateGroqTTS], [generateGeminiTTS]) *)

Record SpeechInput := mkSpeechInput {
  si_text : string;
  si_providerId : option string;
  si_voice : option string;
  si_model : option string;
  si_speed : option Z
}.

Definition opt_js (o : option string) : jsval :=
  match o with Some s => JString s | None => JUndefined end.

(** [String(v)], as a template literal prints a value. *)
Definition js_to_string (v : jsval) : string :=
  match v with
  | JUndefined => "undefined"
  | JNull => "null"
  | JBool b => if b then "true" else "false"
  | JNumber n => pretty n
  | JString s => s
  | JObject => "[object Object]"
  end.

(** The request sent by [fetch]: the url, the [Authorization] header, and
    the fields of the JSON body that carry the request (the nesting of the
    Gemini body is left out). *)
Inductive ttsCall :=
| TPreprocessWithLLM (text : string) (providerId : jsval)
| TFetch (url : string) (authorization : option string) (body : list (string * jsval))
| TLogError (e : exn).

(** What [fetch] answers: [ok], [statusText], the body as text when the
    status is not ok, and the audio ([arrayBuffer()], or for Gemini
    [candidates[0].content.parts[0].inlineData.data], None when missing or
    empty). *)
Record SpeechResponse := mkSpeechResponse {
  rs_ok : bool;
  rs_statusText : string;
  rs_text : string;
  rs_audio : option string
}.

Record TtsWorld := mkTtsWorld {
  tts_config : JsObject;
  tts_calls : list ttsCall
}.

Record SpeechResult := mkSpeechResult {
  sr_audio : string;
  sr_processedText : string;
  sr_provider : jsval
}.

(** [errorText.includes(p)] *)
Definition includes (s p : string) : bool :=
  match String.index 0 p s with Some _ => true | None => false end.

Section Speech.
(** [fetch(url, ...)]: the response, or a throw. *)
Variable fetchSpeech : string -> option string -> list (string * jsval) -> exn + SpeechResponse.
(** [preprocessTextForTTSWithLLM(text, providerId)] *)
Variable preprocessTextForTTSWithLLM : string -> jsval -> exn + string.
(** [preprocessTextForTTS(text, { removeCodeBlocks, removeUrls, convertMarkdown })] *)
Variable preprocessTextForTTS : string -> jsval -> jsval -> jsval -> string.
(** [validateTTSText(text)]: [isValid] and [issues]. *)
Variable validateTTSText : string -> bool * list string.
(** [atob(data)], which throws on data that is not base64. *)
Variable atob : string -> exn + string.

Definition ttsCallM (c : ttsCall) : M TtsWorld unit :=
  modify (fun w => mkTtsWorld (tts_config w) (tts_calls w ++ [c])).

Definition fetchM (url : string) (auth : option string) (body : list (string * jsval))
  : M TtsWorld SpeechResponse :=
  let* _ := ttsCallM (TFetch url auth body) in
  lift (fetchSpeech url auth body).

(** [a ?? b] *)
Definition js_nullish_or (a b : jsval) : jsval :=
  match a with JUndefined | JNull => b | _ => a end.

Definition generateOpenAITTS (text : string) (input : SpeechInput) (config : JsObject)
  : M TtsWorld string :=
  let model := js_or (js_or (opt_js (si_model input)) (prop config "openaiTtsModel")) (JString "tts-1") in
  let voice := js_or (js_or (opt_js (si_voice input)) (prop config "openaiTtsVoice")) (JString "alloy") in
  let speed := js_or (js_or (match si_speed input with Some n => JNumber n | None => JUndefined end)
                           (prop config "openaiTtsSpeed")) (JNumber 1) in
  let responseFormat := js_or (prop config "openaiTtsResponseFormat") (JString "mp3") in
  let baseUrl := js_or (prop config "openaiBaseUrl") (JString "https://api.openai.com/v1") in
  let apiKey := prop config "openaiApiKey" in
  if negb (js_truthy apiKey) then raise (ErrorObj "OpenAI API key is required for TTS") else
  let* response := fetchM (js_to_string baseUrl +:+ "/audio/speech")
                     (Some ("Bearer " +:+ js_to_string apiKey))
                     [("model", model); ("input", JString text); ("voice", voice);
                      ("speed", speed); ("response_format", responseFormat)] in
  if negb (rs_ok response) then
    raise (ErrorObj ("OpenAI TTS API error: " +:+ rs_statusText response +:+ " - " +:+ rs_text response))
  else
  match rs_audio response with Some a => ret a | None => ret "" end.

Definition generateGroqTTS (text : string) (input : SpeechInput) (config : JsObject)
  : M TtsWorld string :=
  let model := js_or (js_or (opt_js (si_model input)) (prop config "groqTtsModel")) (JString "playai-tts") in
  let voice := js_or (js_or (opt_js (si_voice input)) (prop config "groqTtsVoice")) (JString "Fritz-PlayAI") in
  let baseUrl := js_or (prop config "groqBaseUrl") (JString "https://api.groq.com/openai/v1") in
  let apiKey := prop config "groqApiKey" in
  if negb (js_truthy apiKey) then raise (ErrorObj "Groq API key is required for TTS") else
  let* response := fetchM (js_to_string baseUrl +:+ "/audio/speech")
                     (Some ("Bearer " +:+ js_to_string apiKey))
                     [("model", model); ("input", JString text); ("voice", voice);
                      ("response_format", JString "wav")] in
  if negb (rs_ok response) then
    let errorText := rs_text response in
    if includes errorText "requires terms acceptance" then
      raise (ErrorObj "Groq TTS model requires terms acceptance. Please visit https://console.groq.com/playground?model=playai-tts to accept the terms for the PlayAI TTS model.")
    else raise (ErrorObj ("Groq TTS API error: " +:+ rs_statusText response +:+ " - " +:+ errorText))
  else
  match rs_audio response with Some a => ret a | None => ret "" end.

Definition generateGeminiTTS (text : string) (input : SpeechInput) (config : JsObject)
  : M TtsWorld string :=
  let model := js_or (js_or (opt_js (si_model input)) (prop config "geminiTtsModel"))
                 (JString "gemini-2.5-flash-preview-tts") in
  let voice := js_or (js_or (opt_js (si_voice input)) (prop config "geminiTtsVoice")) (JString "Kore") in
  let baseUrl := js_or (prop config "geminiBaseUrl") (JString "https://generativelanguage.googleapis.com") in
  let apiKey := prop config "geminiApiKey" in
  if negb (js_truthy apiKey) then raise (ErrorObj "Gemini API key is required for TTS") else
  let url := js_to_string baseUrl +:+ "/v1beta/models/" +:+ js_to_string model
             +:+ ":generateContent?key=" +:+ js_to_string apiKey in
  let* response := fetchM url None [("text", JString text); ("voiceName", voice)] in
  if negb (rs_ok response) then
    raise (ErrorObj ("Gemini TTS API error: " +:+ rs_statusText response +:+ " - " +:+ rs_text response))
  else
  match truthy (rs_audio response) with
  | None => raise (ErrorObj "No audio data received from Gemini TTS API")
  | Some audioData => lift (atob audioData)
  end.

Definition generateSpeech (input : SpeechInput) : M TtsWorld SpeechResult :=
  let* config := gets tts_config in
  if negb (js_truthy (prop config "ttsEnabled")) then
    raise (ErrorObj "Text-to-Speech is not enabled")
  else
  let providerId := js_or (js_or (opt_js (si_providerId input)) (prop config "ttsProviderId"))
                      (JString "openai") in
  let* processedText :=
    if negb (js_strict_eq (prop config "ttsPreprocessingEnabled") (JBool false)) then
      if js_truthy (prop config "ttsUseLLMPreprocessing") then
        let* _ := ttsCallM (TPreprocessWithLLM (si_text input)
                              (prop config "ttsLLMPreprocessingProviderId")) in
        lift (preprocessTextForTTSWithLLM (si_text input)
                (prop config "ttsLLMPreprocessingProviderId"))
      else
        ret (preprocessTextForTTS (si_text input)
               (js_nullish_or (prop config "ttsRemoveCodeBlocks") (JBool true))
               (js_nullish_or (prop config "ttsRemoveUrls") (JBool true))
               (js_nullish_or (prop config "ttsConvertMarkdown") (JBool true)))
    else ret (si_text input) in
  let validation := validateTTSText processedText in
  if negb (fst validation) then
    raise (ErrorObj ("TTS validation failed: " +:+ String.concat ", " (snd validation)))
  else
  try_catch
    (let* audioBuffer :=
       if js_strict_eq providerId (JString "openai") then generateOpenAITTS processedText input config
       else if js_strict_eq providerId (JString "groq") then generateGroqTTS processedText input config
       else if js_strict_eq providerId (JString "gemini") then generateGeminiTTS processedText input config
       else raise (ErrorObj ("Unsupported TTS provider: " +:+ js_to_string providerId)) in
     ret (mkSpeechResult audioBuffer processedText providerId))
    (fun error =>
       let* _ := ttsCallM (TLogError error) in
       raise error).

End Speech.

(** [input.providerId || config.ttsProviderId || "openai"] *)
Definition speechProviderId (input : SpeechInput) (config : JsObject) : jsval :=
  js_or (js_or (opt_js (si_providerId input)) (prop config "ttsProviderId")) (JString "openai").

Definition is_fetch (c : ttsCall) : bool :=
  match c with TFetch _ _ _ => true | _ => false end.

(** The key each provider's generator requires, and its message. *)
Definition ttsProviderKey (p : string) : option (string * string) :=
  if String.eqb p "openai" then Some ("openaiApiKey", "OpenAI API key is required for TTS")
  else if String.eqb p "groq" then Some ("groqApiKey", "Groq API key is required for TTS")
  else if String.eqb p "gemini" then Some ("geminiApiKey", "Gemini API key is required for TTS")
  else None.

Definition gen_spec (key msg : string)
  (g : string -> SpeechInput -> JsObject -> M TtsWorld string) : Prop :=
  forall text input config w t w' r, g text input config w = (t, w', r) ->
  t = [] /\ tts_config w' = tts_config w /\ r <> Stuck /\
  exists new, tts_calls w' = tts_calls w ++ new /\
  ((js_truthy (prop config key) = false /\ new = [] /\ r = Raise (ErrorObj msg)) \/
   (js_truthy (prop config key) = true /\
    exists u a b, new = [TFetch u a b] /\ exists k, In (k, JString text) b)).

Definition dispatch_spec (pid : jsval) (text : string) (config : JsObject)
  (new : list ttsCall) (r : outcome string) : Prop :=
  r <> Stuck /\
  match pid with
  | JString p =>
      match ttsProviderKey p with
      | Some (key, msg) =>
          (js_truthy (prop config key) = false /\ new = [] /\ r = Raise (ErrorObj msg)) \/
          (js_truthy (prop config key) = true /\
           exists u a b, new = [TFetch u a b] /\ exists k, In (k, JString text) b)
      | None => new = [] /\ r = Raise (ErrorObj ("Unsupported TTS provider: " +:+ p))
      end
  | _ => new = [] /\ r = Raise (ErrorObj ("Unsupported TTS provider: " +:+ js_to_string pid))
  end.

Definition is_known_provider (v : jsval) : bool :=
  match v with JString p => match ttsProviderKey p with Some _ => true | None => false end | _ => false end.

Definition failedWorld : World :=
  set_mq world0 (mq_markFailed "c1" 0 "boom" (fst (mq_enqueue "c1" "A" emptyQueues))).

Definition panelWorld0 : PanelWorld := mkPanelWorld (Some (300, 200)%Z) None [].

Definition settingsWorld0 : SettingsWorld := mkSettingsWorld ∅ [].

Definition host0 : Host := mkHost true false false true.

Definition nextSettings0 : JsObject := {[ "remoteServerEnabled" := JBool true ]}.

Definition profile0 : Profile :=
  mkProfile "p1" "be brief" (JString "sys") (Some {[ "ttsProviderId" := JString "groq" ]}) None.

Definition recItemA : RecordingHistoryItem := mkRecordingHistoryItem "a" 5 10 "hello".

Definition recItemB : RecordingHistoryItem := mkRecordingHistoryItem "b" 6 20 "world".

Definition recFolder0 : RecordingsFolder :=
  mkRecordingsFolder (Some [recItemA; recItemB]) ["a.webm"; "b.webm"].

Definition fsWorld0 : FsWorld := mkFsWorld (Some recFolder0) ∅ 7 true true true true [].

Definition speechInput0 : SpeechInput := mkSpeechInput "Hello there" None None None None.

Definition okFetch (url : string) (auth : option string) (body : list (string * jsval))
  : exn + SpeechResponse := inr (mkSpeechResponse true "OK" "" (Some "audio-bytes")).

Definition noLLM (text : string) (p : jsval) : exn + string := inr text.

Definition keepText (text : string) (a b c : jsval) : string := text.

Definition acceptText (text : string) : bool * list string := (true, []).

Definition decode64 (s : string) : exn + string := inr s.

Definition ttsWorldWith (entries : list (string * jsval)) : TtsWorld :=
  mkTtsWorld (list_to_map entries) [].

Definition openaiWorld : TtsWorld :=
  ttsWorldWith [("ttsEnabled", JBool true); ("openaiApiKey", JString "sk-test")].

Definition azureWorld : TtsWorld :=
  ttsWorldWith [("ttsEnabled", JBool true); ("ttsProviderId", JString "azure")].

Definition groqNoKeyWorld : TtsWorld :=
  ttsWorldWith [("ttsEnabled", JBool true); ("ttsProviderId", JString "groq")].

(** * Proofs *)

Section MonadFacts.
Context {S : Type}.

Lemma bind_inv {A B} (m : M S A) (k : A -> M S B) s t s' r :
  bind m k s = (t, s', r) ->
  (exists t1 s1 a t2, m s = (t1, s1, Ret a) /\ k a s1 = (t2, s', r) /\ t = t1 ++ t2)
  \/ (exists e, m s = (t, s', Raise e) /\ r = Raise e)
  \/ (m s = (t, s', Stuck) /\ r = Stuck).
Proof.
  unfold bind. destruct (m s) as [[t1 s1] [a|e|]].
  - destruct (k a s1) as [[t2 s2] r2] eqn:Ek. intros H; inversion H; subst.
    left. exists t1, s1, a, t2. auto.
  - intros H; inversion H; subst. right; left. eauto.
  - intros H; inversion H; subst. right; right. auto.
Qed.

Lemma try_catch_inv {A} (m : M S A) (h : exn -> M S A) s t s' r :
  try_catch m h s = (t, s', r) ->
  (exists t1 s1 e t2, m s = (t1, s1, Raise e) /\ h e s1 = (t2, s', r) /\ t = t1 ++ t2)
  \/ (m s = (t, s', r) /\ forall e, r <> Raise e).
Proof.
  unfold try_catch. destruct (m s) as [[t1 s1] [a|e|]].
  - intros H; inversion H; subst. right. split; [reflexivity|discriminate].
  - destruct (h e s1) as [[t2 s2] r2] eqn:Eh. intros H; inversion H; subst.
    left. exists t1, s1, e, t2. auto.
  - intros H; inversion H; subst. right. split; [reflexivity|discriminate].
Qed.

Lemma prim_inv {A} c (inj : A -> reply) (f : S -> answer S A) s t s' r :
  prim c inj f s = (t, s', r) ->
  (exists a, f s = (s', inr a) /\ t = [(c, inj a)] /\ r = Ret a)
  \/ (exists e, f s = (s', inl e) /\ t = [(c, RExn e)] /\ r = Raise e).
Proof.
  unfold prim. destruct (f s) as [s1 [e|a]]; intros H; inversion H; subst; eauto.
Qed.

Lemma prim_ok {A} c (inj : A -> reply) (f : S -> answer S A) s s' a :
  f s = (s', inr a) -> prim c inj f s = ([(c, inj a)], s', Ret a).
Proof. unfold prim. intros ->. reflexivity. Qed.

Lemma only_calls_ret {A} P (a : A) : only_calls (S := S) P (ret a).
Proof. intros s t s' r H. inversion H; subst. constructor. Qed.

Lemma only_calls_raise {A} P e : only_calls (S := S) (A := A) P (raise e).
Proof. intros s t s' r H. inversion H; subst. constructor. Qed.

Lemma only_calls_stuck {A} P : only_calls (S := S) (A := A) P stuck.
Proof. intros s t s' r H. inversion H; subst. constructor. Qed.

Lemma only_calls_prim {A} (P : call -> Prop) c (inj : A -> reply) (f : S -> answer S A) :
  P c -> only_calls (S := S) P (prim c inj f).
Proof.
  intros Hc s t s' r H. apply prim_inv in H as [(a & _ & -> & _)|(e & _ & -> & _)];
    repeat constructor; exact Hc.
Qed.

Lemma only_calls_bind {A B} P (m : M S A) (k : A -> M S B) :
  only_calls P m -> (forall a, only_calls P (k a)) -> only_calls P (bind m k).
Proof.
  intros Hm Hk s t s' r H.
  apply bind_inv in H as [(t1 & s1 & a & t2 & E1 & E2 & ->)|[(e & E & _)|(E & _)]].
  - apply Forall_app. split; [eapply Hm; eauto | eapply Hk; eauto].
  - eapply Hm; eauto.
  - eapply Hm; eauto.
Qed.

Lemma only_calls_try_catch {A} P (m : M S A) h :
  only_calls P m -> (forall e, only_calls P (h e)) -> only_calls P (try_catch m h).
Proof.
  intros Hm Hh s t s' r H.
  apply try_catch_inv in H as [(t1 & s1 & e & t2 & E1 & E2 & ->)|(E & _)].
  - apply Forall_app. split; [eapply Hm; eauto | eapply Hh; eauto].
  - eapply Hm; eauto.
Qed.

Lemma only_calls_try_finally {A} P (m : M S A) fin :
  only_calls P m -> only_calls P fin -> only_calls P (try_finally m fin).
Proof.
  intros Hm Hf s t s' r. unfold try_finally.
  destruct (m s) as [[t1 s1] r1] eqn:Em.
  assert (F1 : Forall (fun ev => P (fst ev)) t1) by (eapply Hm; eauto).
  destruct r1 as [a|e|];
    [destruct (fin s1) as [[t2 s2] [u|e2|]] eqn:Ef
    |destruct (fin s1) as [[t2 s2] [u|e2|]] eqn:Ef|];
    intros H; inversion H; subst; try exact F1;
    apply Forall_app; split; auto; eapply Hf; eauto.
Qed.

Lemma only_calls_while_true P fuel (body : M S loopctl) :
  only_calls P body -> only_calls P (while_true fuel body).
Proof.
  intros Hb. induction fuel as [|n IH]; simpl.
  - apply only_calls_stuck.
  - apply only_calls_bind; [exact Hb|]. intros [|]; [apply only_calls_ret|exact IH].
Qed.

End MonadFacts.

Ltac only_calls_tac :=
  repeat match goal with
  | |- only_calls _ (bind _ _) => apply only_calls_bind; [|intro]
  | |- only_calls _ (try_catch _ _) => apply only_calls_try_catch; [|intro]
  | |- only_calls _ (try_finally _ _) => apply only_calls_try_finally
  | |- only_calls _ (prim _ _ _) => apply only_calls_prim; try reflexivity
  | |- only_calls _ (ret _) => apply only_calls_ret
  | |- only_calls _ (raise _) => apply only_calls_raise
  | |- only_calls _ (if ?b then _ else _) => destruct b
  | |- only_calls _ (match ?x with _ => _ end) => destruct x
  end.

Section MonadFacts2.
Context {S : Type}.

Lemma bind_prim_ok {A B} c (inj : A -> reply) (f : S -> answer S A) (k : A -> M S B) s s1 a :
  f s = (s1, inr a) ->
  bind (prim c inj f) k s = let '(t2, s2, r) := k a s1 in ((c, inj a) :: t2, s2, r).
Proof.
  intros E. unfold bind, prim. rewrite E. destruct (k a s1) as [[? ?] ?]; reflexivity.
Qed.

Lemma ends_with_bind last {A B} (m : M S A) (k : A -> M S B) :
  only_calls (fun c => protocol_call c = false) m ->
  (forall a, ends_with last (k a)) -> ends_with last (bind m k).
Proof.
  intros Hm Hk s t s' r H.
  apply bind_inv in H as [(t1 & s1 & a & t2 & E1 & E2 & ->)|[(e & E & ->)|(E & ->)]].
  - pose proof (Hm _ _ _ _ E1) as W1. specialize (Hk a _ _ _ _ E2).
    destruct r as [b|e|]; auto.
    + destruct Hk as (w & -> & Ww). exists (t1 ++ w). rewrite app_assoc.
      split; [reflexivity|]. apply Forall_app; auto.
    + apply Forall_app; auto.
  - eapply Hm; eauto.
  - exact I.
Qed.

Lemma ends_with_prim_unit c (f : S -> answer S unit) :
  never_throws f -> ends_with (c, RUnit) (prim c (fun _ => RUnit) f).
Proof.
  intros Hf s t s' r H. destruct (Hf s) as (s1 & u & E).
  rewrite (prim_ok _ _ _ _ _ _ E) in H. inversion H; subst.
  exists []. split; [reflexivity|constructor].
Qed.

End MonadFacts2.

(** Unfold a run down to the collaborator answers and split on them. *)
Ltac run_cases H :=
  repeat (cbn in H;
    match type of H with
    | context [match ?x with (_, _) => _ end] =>
        lazymatch x with
        | context [match _ with _ => _ end] => fail
        | _ => destruct x as [? [?|?]] eqn:?
        end
    | context [if ?b then _ else _] =>
        lazymatch b with
        | context [match _ with _ => _ end] => fail
        | _ => destruct b eqn:?
        end
    end).

(** The same, splitting on every innermost [match] of the run. *)
Ltac run_all H :=
  repeat (cbn in H;
    match type of H with
    | context [match ?x with _ => _ end] =>
        lazymatch x with
        | context [match _ with _ => _ end] => fail
        | _ => destruct x eqn:?
        end
    end).

Lemma truthy_some o x : truthy o = Some x -> o = Some x.
Proof.
  destruct o as [s|]; simpl; [|discriminate].
  destruct (String.eqb s "") eqn:E; [discriminate|]. congruence.
Qed.

Ltac truthy_subst :=
  repeat match goal with
  | E : truthy ?o = Some ?x |- _ =>
      is_var o; let E' := fresh in pose proof (truthy_some _ _ E) as E'; subst o
  end.

(** Discard a branch where a collaborator assumed not to throw has thrown. *)
Ltac no_throw :=
  match goal with
  | E : ?f ?s0 = (_, inl _) |- _ =>
      let X := fresh "X" in
      assert (X : never_throws f) by eauto;
      destruct (X s0) as (? & ? & ?); congruence
  end.

Section DrainProofs.
Context {S : Type} (env : Env S).

Lemma initializeMcpWithProgress_calls P config sid :
  (forall c, protocol_call c = false -> P c) ->
  only_calls P (initializeMcpWithProgress env config sid).
Proof.
  intros HP. unfold initializeMcpWithProgress, shouldStopSession, emitAgentProgress,
    mcpInitialize. only_calls_tac; apply HP; reflexivity.
Qed.

Lemma processWithAgentMode_calls P text conv existing snoozed :
  (forall c, protocol_call c = false -> P c) ->
  only_calls P (processWithAgentMode env text conv existing snoozed).
Proof.
  intros HP. unfold processWithAgentMode, getConfig, startSession, registerExistingProcesses,
    getAvailableTools, loadConversation, agentLoop, completeSession, errorSession,
    emitAgentProgress. cbv zeta.
  only_calls_tac; try (apply HP; reflexivity);
    apply initializeMcpWithProgress_calls; exact HP.
Qed.

Lemma processWithAgentMode_work text conv existing snoozed :
  only_calls (fun c => protocol_call c = false)
    (processWithAgentMode env text conv existing snoozed).
Proof. apply processWithAgentMode_calls. auto. Qed.

Lemma drainStep_no_release c :
  only_calls (fun x => is_release x = false) (drainStep env c).
Proof.
  unfold drainStep, processQueuedMessage, isQueuePaused, peek, markProcessing,
    markProcessed, markFailed, addMessageToConversation, markAddedToHistory,
    panelVisible, findSessionByConversationId, reviveSession. cbv zeta.
  only_calls_tac;
    try (apply processWithAgentMode_calls; intros [] H; try discriminate; reflexivity).
Qed.

Hypothesis markProcessed_total : forall c id, never_throws (op_markProcessed S env c id).

Lemma processQueuedMessage_ends c m :
  ends_with (CMarkProcessed c (qm_id m), RUnit) (processQueuedMessage env c m).
Proof.
  unfold processQueuedMessage. cbv zeta.
  apply ends_with_bind.
  { unfold addMessageToConversation, markAddedToHistory. only_calls_tac. }
  intros _. apply ends_with_bind.
  { unfold panelVisible. only_calls_tac. }
  intros panel. apply ends_with_bind.
  { unfold findSessionByConversationId. only_calls_tac. }
  intros found. apply ends_with_bind.
  { unfold reviveSession. only_calls_tac. }
  intros existing. apply ends_with_bind.
  { apply processWithAgentMode_work. }
  intros _. apply ends_with_prim_unit. apply markProcessed_total.
Qed.

Hypothesis isQueuePaused_total : forall c, never_throws (op_isQueuePaused S env c).
Hypothesis peek_total : forall c, never_throws (op_peek S env c).
Hypothesis markProcessing_total : forall c id, never_throws (op_markProcessing S env c id).
Hypothesis markFailed_total : forall c id e, never_throws (op_markFailed S env c id e).

Lemma drainStep_turn c s t s' r :
  drainStep env c s = (t, s', r) ->
  match r with
  | Ret ctl => drain_turn c t ctl
  | Raise _ => False
  | Stuck => True
  end.
Proof.
  unfold drainStep, isQueuePaused, peek, markProcessing, markFailed.
  destruct (isQueuePaused_total c s) as (s1 & paused & E1).
  rewrite (bind_prim_ok _ _ _ _ _ _ _ E1).
  destruct paused.
  { intros H. inversion H; subst. constructor. }
  destruct (peek_total c s1) as (s2 & next & E2).
  rewrite (bind_prim_ok _ _ _ _ _ _ _ E2).
  destruct next as [m|].
  2: { intros H. inversion H; subst. constructor. }
  destruct (markProcessing_total c (qm_id m) s2) as (s3 & marked & E3).
  rewrite (bind_prim_ok _ _ _ _ _ _ _ E3).
  destruct marked; simpl.
  2: { intros H. inversion H; subst. constructor. }
  unfold try_catch, bind at 1.
  destruct (processQueuedMessage env c m s3) as [[t4 s4] r4] eqn:E4.
  pose proof (processQueuedMessage_ends c m _ _ _ _ E4) as Hend.
  destruct r4 as [u|e|].
  - intros H. inversion H; subst. destruct Hend as (w & -> & Ww).
    rewrite app_nil_r.
    change (drain_turn c ([(CIsQueuePaused c, RBool false); (CPeek c, RMsg (Some m));
      (CMarkProcessing c (qm_id m), RBool true)] ++ w ++ [(CMarkProcessed c (qm_id m), RUnit)])
      LContinue).
    constructor; exact Ww.
  - destruct (markFailed_total c (qm_id m) (errorMessage e) s4) as (s5 & u & E5).
    rewrite (bind_prim_ok _ _ _ _ _ _ _ E5). simpl.
    intros H. inversion H; subst.
    change (drain_turn c ([(CIsQueuePaused c, RBool false); (CPeek c, RMsg (Some m));
      (CMarkProcessing c (qm_id m), RBool true)] ++ t4
      ++ [(CMarkFailed c (qm_id m) (errorMessage e), RUnit)]) LStop).
    constructor; exact Hend.
  - intros H. inversion H; subst. exact I.
Qed.

Lemma while_drain_turns c fuel s t s' r :
  while_true fuel (drainStep env c) s = (t, s', r) -> r <> Stuck ->
  drain_turns c t /\ r = Ret tt.
Proof.
  revert s t s' r. induction fuel as [|n IH]; intros s t s' r H Hr; simpl in H.
  - inversion H; subst. congruence.
  - apply bind_inv in H as [(t1 & s1 & ctl & t2 & E1 & E2 & ->)|[(e & E & _)|(E & ->)]].
    + pose proof (drainStep_turn _ _ _ _ _ E1) as Ht.
      destruct ctl.
      * inversion E2; subst. rewrite app_nil_r. split; [constructor; exact Ht|reflexivity].
      * destruct (IH _ _ _ _ E2 Hr) as [Hts ->]. split; [apply turns_more; assumption|reflexivity].
    + apply drainStep_turn in E. contradiction.
    + congruence.
Qed.

End DrainProofs.

Section RunShapes.
Context {S : Type}.

Lemma raise_logged_prim {A} c (inj : A -> reply) (f : S -> answer S A) :
  raise_logged (prim c inj f).
Proof.
  intros s t s' e H. apply prim_inv in H as [(a & _ & _ & Hr)|(e' & _ & -> & Hr)].
  - discriminate.
  - inversion Hr; subst. exists [], c. reflexivity.
Qed.

Lemma raise_logged_ret {A} (a : A) : raise_logged (S := S) (ret a).
Proof. intros s t s' e H. inversion H. Qed.

Lemma raise_logged_bind {A B} (m : M S A) (k : A -> M S B) :
  raise_logged m -> (forall a, raise_logged (k a)) -> raise_logged (bind m k).
Proof.
  intros Hm Hk s t s' e H.
  apply bind_inv in H as [(t1 & s1 & a & t2 & E1 & E2 & ->)|[(e' & E & He)|(E & He)]].
  - destruct (Hk a _ _ _ _ E2) as (t3 & c & ->). exists (t1 ++ t3), c.
    rewrite app_assoc. reflexivity.
  - inversion He; subst. eapply Hm; eauto.
  - discriminate.
Qed.

Lemma returns_after_bind last {A B} (m : M S A) (k : A -> M S B) :
  (forall a, returns_after last (k a)) -> returns_after last (bind m k).
Proof.
  intros Hk s t s' b H.
  apply bind_inv in H as [(t1 & s1 & a & t2 & E1 & E2 & ->)|[(e & E & He)|(E & He)]];
    try discriminate.
  destruct (Hk a _ _ _ _ E2) as (t3 & ->). exists (t1 ++ t3). rewrite app_assoc. reflexivity.
Qed.

Lemma returns_after_prim_unit {A} c (f : S -> answer S unit) (x : A) :
  returns_after (c, RUnit) (bind (prim c (fun _ => RUnit) f) (fun _ => ret x)).
Proof.
  intros s t s' a. unfold bind, prim. destruct (f s) as [s1 [e|u]]; intros H;
    inversion H; subst. exists []. reflexivity.
Qed.

End RunShapes.

(** The concrete collaborators never throw (the model loop apart). *)
Section WenvTotal.

Ltac wenv_total := intros w; cbn; repeat (match goal with |- context [let '(_, _) := ?x in _] => destruct x end); eauto.

Lemma wenv_getConfig_total : never_throws (op_getConfig World wenv).
Proof. wenv_total. Qed.
Lemma wenv_isQueuePaused_total c : never_throws (op_isQueuePaused World wenv c).
Proof. wenv_total. Qed.
Lemma wenv_peek_total c : never_throws (op_peek World wenv c).
Proof. wenv_total. Qed.
Lemma wenv_markProcessing_total c id : never_throws (op_markProcessing World wenv c id).
Proof. wenv_total. Qed.
Lemma wenv_markProcessed_total c id : never_throws (op_markProcessed World wenv c id).
Proof. wenv_total. Qed.
Lemma wenv_markFailed_total c id e : never_throws (op_markFailed World wenv c id e).
Proof. wenv_total. Qed.
Lemma wenv_enqueue_total c text : never_throws (op_enqueue World wenv c text).
Proof. wenv_total. Qed.
Lemma wenv_createConversation_total text : never_throws (op_createConversation World wenv text).
Proof. wenv_total. Qed.
Lemma wenv_addMessage_total c text q :
  never_throws (op_addMessageToConversation World wenv c text q).
Proof. wenv_total. Qed.
Lemma wenv_findSession_total c : never_throws (op_findSessionByConversationId World wenv c).
Proof. wenv_total. Qed.
Lemma wenv_getSession_total sid : never_throws (op_getSession World wenv sid).
Proof. wenv_total. Qed.
Lemma wenv_reviveSession_total sid snoozed : never_throws (op_reviveSession World wenv sid snoozed).
Proof. wenv_total. Qed.
Lemma wenv_startSession_total conv title snoozed :
  never_throws (op_startSession World wenv conv title snoozed).
Proof. wenv_total. Qed.
Lemma wenv_errorSession_total sid msg : never_throws (op_errorSession World wenv sid msg).
Proof. wenv_total. Qed.
Lemma wenv_emit_total u : never_throws (op_emitAgentProgress World wenv u).
Proof. wenv_total. Qed.
Lemma wenv_spawnAgentRun_total text c ex snoozed :
  never_throws (op_spawnAgentRun World wenv text c ex snoozed).
Proof. wenv_total. Qed.

End WenvTotal.

Ltac raise_logged_tac :=
  repeat match goal with
  | |- raise_logged (bind _ _) => apply raise_logged_bind; [|intro]
  | |- raise_logged (prim _ _ _) => apply raise_logged_prim
  | |- raise_logged (ret _) => apply raise_logged_ret
  | |- raise_logged (if ?b then _ else _) => destruct b
  | |- raise_logged (match ?x with _ => _ end) => destruct x
  end.

Ltac returns_after_tac :=
  repeat match goal with
  | |- returns_after _ (bind (prim _ _ _) (fun _ => ret _)) => apply returns_after_prim_unit
  | |- returns_after _ (bind _ _) => apply returns_after_bind; intro
  end.

(** ** C1: the drain loop follows the processing protocol *)

(** Claim C1.  Whenever [processQueuedMessages] acquires the conversation's
    processing lock and its loop exits, its calls between acquiring and
    releasing the lock are loop turns in the order of the protocol: stop if
    the queue is paused; peek, stop if there is no message; [markProcessing]
    on the peeked message, and on [false] go to the next turn without
    processing it; otherwise the unit of work, then [markProcessed] and the
    next turn, or, when the work throws, [markFailed] and stop.  (The queue
    service's own methods are assumed not to throw.) *)
Theorem processQueuedMessages_follows_protocol {S} (env : Env S)
  (Hpaused : forall c, never_throws (op_isQueuePaused S env c))
  (Hpeek : forall c, never_throws (op_peek S env c))
  (Hmarking : forall c id, never_throws (op_markProcessing S env c id))
  (Hprocessed : forall c id, never_throws (op_markProcessed S env c id))
  (Hfailed : forall c id e, never_throws (op_markFailed S env c id e))
  fuel c s t s' r t0 :
  processQueuedMessages env fuel c s = (t, s', r) -> r <> Stuck ->
  t = (CTryAcquireProcessingLock c, RBool true) :: t0 ->
  exists t' rr, t0 = t' ++ [(CReleaseProcessingLock c, rr)] /\ drain_turns c t'.
Proof.
  unfold processQueuedMessages, tryAcquireProcessingLock. intros H Hr Ht.
  apply bind_inv in H as [(t1 & s1 & a & t2 & E1 & E2 & ->)|[(e & E & ->)|(E & ->)]].
  - apply prim_inv in E1 as [(a' & _ & -> & Ea)|(e & _ & -> & Ee)]; [|discriminate].
    inversion Ea; subst a'. simpl in Ht. inversion Ht; subst a t2. simpl in E2.
    unfold try_finally in E2.
    destruct (while_true fuel (drainStep env c) s1) as [[tw sw] rw] eqn:Ew.
    assert (Hw : rw <> Stuck -> drain_turns c tw /\ rw = Ret tt)
      by (intros; eapply while_drain_turns; eauto).
    unfold releaseProcessingLock, prim in E2.
    destruct rw as [u|e|]; [|destruct (Hw ltac:(discriminate)) as [_ Hx]; discriminate|].
    + destruct (Hw ltac:(discriminate)) as [Hts _].
      destruct (op_releaseProcessingLock S env c sw) as [s2 [e2|u2]];
        inversion E2; subst; eexists _, _; split; [reflexivity|exact Hts|reflexivity|exact Hts].
    + inversion E2; subst. congruence.
  - apply prim_inv in E as [(a' & _ & _ & Ea)|(e' & _ & -> & _)]; [discriminate|].
    discriminate Ht.
  - apply prim_inv in E as [(a' & _ & _ & Ea)|(e' & _ & _ & Ea)]; discriminate.
Qed.

Lemma processQueuedMessages_follows_protocol_witness :
  let '(t, s', r) := processQueuedMessages wenv 5 "c1" drainWorld in
  r = Ret tt /\
  match t with
  | _ :: t0 => exists t' rr, t0 = t' ++ [(CReleaseProcessingLock "c1", rr)] /\ drain_turns "c1" t'
  | [] => False
  end.
Proof.
  destruct (processQueuedMessages wenv 5 "c1" drainWorld) as [[t s'] r] eqn:E.
  pose proof E as E'. vm_compute in E'. inversion E'; subst t s' r. split; [reflexivity|].
  refine (processQueuedMessages_follows_protocol wenv _ _ _ _ _ 5 "c1" drainWorld _ _ _ _ E _ eq_refl);
    [intros ? ?; do 2 eexists; reflexivity ..|discriminate].
Defined.

(** ** C4: lock contention and lock release *)

(** Claim C4.  For any collaborators (any of which may throw): when the
    processing lock is not acquired, [processQueuedMessages] returns at once,
    having made no call but [tryAcquireProcessingLock] (so the queue is
    neither read nor modified); when it is acquired and the function exits
    (normally or by a thrown exception), its last call is the release of the
    lock, made exactly once. *)
Theorem processQueuedMessages_releases_lock {S} (env : Env S) fuel c s :
  (forall s1, op_tryAcquireProcessingLock S env c s = (s1, inr false) ->
     processQueuedMessages env fuel c s =
       ([(CTryAcquireProcessingLock c, RBool false)], s1, Ret tt))
  /\
  (forall t s' r t0,
     processQueuedMessages env fuel c s = (t, s', r) -> r <> Stuck ->
     t = (CTryAcquireProcessingLock c, RBool true) :: t0 ->
     exists t' rr, t0 = t' ++ [(CReleaseProcessingLock c, rr)] /\
                   Forall (fun ev => is_release (fst ev) = false) t').
Proof.
  split.
  - intros s1 E. unfold processQueuedMessages, tryAcquireProcessingLock.
    rewrite (bind_prim_ok _ _ _ _ _ _ _ E). reflexivity.
  - intros t s' r t0. unfold processQueuedMessages, tryAcquireProcessingLock. intros H Hr Ht.
    apply bind_inv in H as [(t1 & s1 & a & t2 & E1 & E2 & ->)|[(e & E & ->)|(E & ->)]].
    + apply prim_inv in E1 as [(a' & _ & -> & Ea)|(e & _ & -> & Ee)]; [|discriminate].
      inversion Ea; subst a'. simpl in Ht. inversion Ht; subst a t2. simpl in E2.
      unfold try_finally in E2.
      destruct (while_true fuel (drainStep env c) s1) as [[tw sw] rw] eqn:Ew.
      assert (Hw : Forall (fun ev => is_release (fst ev) = false) tw)
        by (eapply (only_calls_while_true _ fuel _ (drainStep_no_release env c)); eauto).
      unfold releaseProcessingLock, prim in E2.
      destruct rw as [u|e|].
      * destruct (op_releaseProcessingLock S env c sw) as [s2 [e2|u2]];
          inversion E2; subst; eexists _, _; split; [reflexivity|exact Hw| reflexivity|exact Hw].
      * destruct (op_releaseProcessingLock S env c sw) as [s2 [e2|u2]];
          inversion E2; subst; eexists _, _; split; [reflexivity|exact Hw| reflexivity|exact Hw].
      * inversion E2; subst. congruence.
    + apply prim_inv in E as [(a' & _ & _ & Ea)|(e' & _ & -> & _)]; [discriminate|].
      discriminate Ht.
    + apply prim_inv in E as [(a' & _ & _ & Ea)|(e' & _ & _ & Ea)]; discriminate.
Qed.

(** a second drain of "c1" while the first one holds the lock *)
Lemma processQueuedMessages_releases_lock_witness :
  processQueuedMessages wenv 5 "c1" (set_mq drainWorld (fst (mq_tryAcquire "c1" (w_mq drainWorld))))
  = ([(CTryAcquireProcessingLock "c1", RBool false)],
     set_mq drainWorld (fst (mq_tryAcquire "c1" (w_mq drainWorld))), Ret tt)
  /\
  let '(t, s', r) := processQueuedMessages wenv 5 "c1" drainWorld in
  match t with
  | _ :: t0 => exists t' rr, t0 = t' ++ [(CReleaseProcessingLock "c1", rr)] /\
                             Forall (fun ev => is_release (fst ev) = false) t'
  | [] => False
  end.
Proof.
  split.
  - apply (proj1 (processQueuedMessages_releases_lock wenv 5 "c1" _)). vm_compute. reflexivity.
  - destruct (processQueuedMessages wenv 5 "c1" drainWorld) as [[t s'] r] eqn:E.
    pose proof E as E'. vm_compute in E'. inversion E'; subst t s' r.
    exact (proj2 (processQueuedMessages_releases_lock wenv 5 "c1" drainWorld) _ _ _ _ E
             ltac:(discriminate) eq_refl).
Defined.

(** ** C3: a denied approval is an error-tagged tool result *)

(** Claim C3.  In [executeToolCall], when approval is required and the
    user's answer to the approval is "denied", the call returns normally
    (no exception) the tool result with [isError = true] and the text
    "Tool call denied by user: <toolName>", and the tool executor is not
    called; when approval is not required, or is granted, the last call is
    the tool executor, and its result (or its exception) is the outcome.
    (The progress sink is assumed not to throw.) *)
Theorem executeToolCall_denied_is_error_result {S} (env : Env S)
  (Hemit : forall u, never_throws (op_emitAgentProgress S env u)) config sid tc s t s' r :
  executeToolCall env config sid tc s = (t, s', r) ->
  ((exists aid, In (CAwaitApproval aid, RBool false) t) ->
     r = Ret (mkToolResult
                [mkToolContent "text" (String.append "Tool call denied by user: " (tc_name tc))]
                true)
     /\ Forall (fun ev => is_execute (fst ev) = false) t)
  /\
  ((mcpRequireApprovalBeforeToolCall config = false
    \/ exists aid, In (CAwaitApproval aid, RBool true) t) ->
     exists t' s1 x, t = t' ++ [(CExecuteTool tc, match x with
                                                  | inl e => RExn e
                                                  | inr v => RToolResult v
                                                  end)]
                     /\ op_executeTool S env tc s1 = (s', x) /\ r = outcome_of x)
  /\
  ((exists aid, In (CAwaitApproval aid, RBool false) t) ->
     forall transcript n, exists result,
       agentToolStep env config sid transcript n tc s = (t, s', Ret (transcript ++ [result], Datatypes.S n))
       /\ tr_isError result = true).
Proof.
  intros H. cut (((exists aid, In (CAwaitApproval aid, RBool false) t) ->
     r = Ret (mkToolResult
                [mkToolContent "text" (String.append "Tool call denied by user: " (tc_name tc))]
                true)
     /\ Forall (fun ev => is_execute (fst ev) = false) t)
  /\
  ((mcpRequireApprovalBeforeToolCall config = false
    \/ exists aid, In (CAwaitApproval aid, RBool true) t) ->
     exists t' s1 x, t = t' ++ [(CExecuteTool tc, match x with
                                                  | inl e => RExn e
                                                  | inr v => RToolResult v
                                                  end)]
                     /\ op_executeTool S env tc s1 = (s', x) /\ r = outcome_of x)).
  { intros [H1 H2]. split; [exact H1|split; [exact H2|]].
    intros Hd transcript n. destruct (H1 Hd) as [-> _].
    eexists. split.
    - unfold agentToolStep, bind. rewrite H. simpl. rewrite app_nil_r. reflexivity.
    - reflexivity. }
  revert H.
  unfold executeToolCall, requestApproval, emitAgentProgress, awaitApproval, executeTool,
    bind, prim, ret.
  intros H. destruct (mcpRequireApprovalBeforeToolCall config) eqn:Hreq.
  - run_cases H;
      try (match goal with
           | E : op_emitAgentProgress S env ?u ?s0 = (_, inl _) |- _ =>
               destruct (Hemit u s0) as (? & ? & Ec); rewrite Ec in E; discriminate
           end);
      inversion H; subst; clear H; simpl;
      split; intros Hx;
      repeat match type of Hx with
             | _ \/ _ => destruct Hx as [Hx|Hx]
             | exists _, _ => destruct Hx as [? Hx]
             end;
      repeat match type of Hx with
             | In _ (_ :: _) => destruct Hx as [Hx|Hx]
             | In _ [] => destruct Hx
             | False => destruct Hx
             | (_, _) = (_, _) => inversion Hx; subst
             end; try discriminate; try congruence;
      try (split; [reflexivity|repeat constructor]);
      try (eexists [_; _; _; _], _, _; split; [idtac|split; [eassumption|reflexivity]];
           reflexivity).
  - destruct (op_executeTool S env tc s) as [s1 x] eqn:Ex.
    destruct x as [e|v]; inversion H; subst; clear H; simpl;
      (split; intros Hx;
       [destruct Hx as [aid [Hx|Hx]]; [discriminate|destruct Hx]
       |eexists [], _, _; split; [idtac|split; [eassumption|reflexivity]]; reflexivity]).
Qed.

Lemma executeToolCall_denied_is_error_result_witness :
  let '(t, s', r) := executeToolCall wenv approvalConfig "session_0" (mkToolCall "shell" "ls") denyWorld in
  In (CAwaitApproval 0, RBool false) t /\
  r = Ret (mkToolResult [mkToolContent "text" "Tool call denied by user: shell"] true).
Proof.
  destruct (executeToolCall wenv approvalConfig "session_0" (mkToolCall "shell" "ls") denyWorld)
    as [[t s'] r] eqn:E.
  assert (Hin : In (CAwaitApproval 0, RBool false) t)
    by (pose proof E as E'; vm_compute in E'; inversion E'; subst; simpl; tauto).
  split; [exact Hin|].
  refine (proj1 (proj1 (executeToolCall_denied_is_error_result wenv _ approvalConfig "session_0"
            (mkToolCall "shell" "ls") denyWorld t s' r E) (ex_intro _ 0 Hin))).
  intros u w. do 2 eexists. reflexivity.
Defined.

(** ** C7: a failed run is marked errored, reported once and re-thrown *)

(** Claim C7.  When [processWithAgentMode] throws, its last calls are: the
    call that threw that very value, then [errorSession] of the run's
    session with the error's message, then one progress snapshot
    ([errorProgress]: [isComplete = true], an "Error" step whose description
    is the error's message); no other call of the run closes its progress or
    marks a session errored, and the value thrown is the one caught.  When
    the run returns, its last call is [completeSession] of the run's
    session and no call marks a session errored.  The config store, session
    start, [errorSession] and the progress sink are assumed not to throw; the
    snapshots emitted inside the model loop ([processTranscriptWithAgentMode],
    one collaborator call here) are not part of this trace. *)
Theorem processWithAgentMode_error_path {S} (env : Env S)
  (Hconfig : never_throws (op_getConfig S env))
  (Hstart : forall conv title snoozed, never_throws (op_startSession S env conv title snoozed))
  (Herror : forall sid msg, never_throws (op_errorSession S env sid msg))
  (Hemit : forall u, never_throws (op_emitAgentProgress S env u))
  text conv existing snoozed s t s' r :
  processWithAgentMode env text conv existing snoozed s = (t, s', r) ->
  (forall e, r = Raise e ->
     exists t1 c sid config,
       t = t1 ++ [(c, RExn e); (CErrorSession sid (errorMessage e), RUnit);
                  (CEmitAgentProgress (errorProgress sid conv config (errorMessage e)), RUnit)]
       /\ Forall (fun ev => quiet_call (fst ev)) (t1 ++ [(c, RExn e)])
       /\ run_session text conv existing snoozed t1 sid
       /\ pu_isComplete (errorProgress sid conv config (errorMessage e)) = true
       /\ pu_steps (errorProgress sid conv config (errorMessage e))
          = [mkStep "thinking" "Error" (errorMessage e) "error"])
  /\
  (forall a, r = Ret a ->
     exists t1 sid,
       t = t1 ++ [(CCompleteSession sid "Agent completed successfully", RUnit)]
       /\ Forall (fun ev => quiet_call (fst ev)) t1
       /\ run_session text conv existing snoozed t1 sid).
Proof.
  unfold processWithAgentMode, getConfig. cbv zeta. intros H.
  destruct (Hconfig s) as (s1 & config & E1).
  rewrite (bind_prim_ok _ _ _ _ _ _ _ E1) in H.
  destruct (bind _ _ s1) as [[t2 s2] r2] eqn:E2. inversion H; subst; clear H.
  apply bind_inv in E2 as [(t3 & s3 & sid & t4 & E3 & E4 & ->)|[(e & E & ->)|(E & ->)]].
  2: { exfalso. destruct (truthy existing).
       - inversion E.
       - unfold startSession in E.
         destruct (Hstart conv (conversationTitleOf text) snoozed s1) as (? & ? & Es).
         rewrite (prim_ok _ _ _ _ _ _ Es) in E. discriminate. }
  2: { split; intros; discriminate. }
  assert (Hsess : run_session text conv existing snoozed t3 sid
                  /\ Forall (fun ev => quiet_call (fst ev)) t3).
  { unfold run_session. destruct (truthy existing) eqn:Ex.
    - inversion E3; subst. split; [left; reflexivity|constructor].
    - unfold startSession in E3.
      destruct (Hstart conv (conversationTitleOf text) snoozed s1) as (? & ? & Es).
      rewrite (prim_ok _ _ _ _ _ _ Es) in E3. inversion E3; subst.
      split; [right; split; [reflexivity|left; reflexivity]|].
      repeat constructor. }
  destruct Hsess as [Hrun Hq3].
  cbv beta in E4.
  match type of E4 with
  | try_catch ?B _ _ = _ =>
      assert (HB1 : raise_logged B)
        by (unfold initializeMcpWithProgress, shouldStopSession, emitAgentProgress,
              mcpInitialize, registerExistingProcesses, getAvailableTools, loadConversation,
              agentLoop, completeSession; raise_logged_tac);
      assert (HB2 : returns_after (CCompleteSession sid "Agent completed successfully", RUnit) B)
        by (unfold completeSession; returns_after_tac);
      assert (HB3 : only_calls quiet_call B)
        by (unfold initializeMcpWithProgress, shouldStopSession, emitAgentProgress,
              mcpInitialize, registerExistingProcesses, getAvailableTools, loadConversation,
              agentLoop, completeSession; only_calls_tac; split; reflexivity)
  end.
  apply try_catch_inv in E4 as [(t5 & s5 & e & t6 & E5 & E6 & ->)|(E5 & Hnr)].
  - unfold errorSession, emitAgentProgress in E6.
    destruct (Herror sid (errorMessage e) s5) as (s6 & u6 & Ee).
    rewrite (bind_prim_ok _ _ _ _ _ _ _ Ee) in E6.
    destruct (Hemit (errorProgress sid conv config (errorMessage e)) s6) as (s7 & u7 & Em).
    rewrite (bind_prim_ok _ _ _ _ _ _ _ Em) in E6.
    cbn in E6. inversion E6; subst; clear E6.
    pose proof (HB3 _ _ _ _ E5) as Hq5.
    destruct (HB1 _ _ _ _ E5) as (t7 & c & ->).
    split; [|intros; discriminate].
    intros e' He'. inversion He'; subst.
    exists ((CGetConfig, RConfig config) :: t3 ++ t7), c, sid, config.
    split; [simpl; rewrite <- !app_assoc; reflexivity|].
    split; [|split; [|split; reflexivity]].
    + simpl. constructor; [split; reflexivity|].
      rewrite <- app_assoc. apply Forall_app. split; assumption.
    + destruct Hrun as [Hrun|[Hrun Hin]]; [left; exact Hrun|right; split; [exact Hrun|]].
      right. apply in_or_app. left. exact Hin.
  - split; [intros e He; subst; exfalso; eapply Hnr; reflexivity|].
    intros a ->. pose proof (HB3 _ _ _ _ E5) as Hq5.
    destruct (HB2 _ _ _ _ E5) as (t7 & ->).
    exists ((CGetConfig, RConfig config) :: t3 ++ t7), sid.
    split; [simpl; rewrite <- !app_assoc; reflexivity|].
    split.
    + constructor; [split; reflexivity|].
      apply Forall_app in Hq5 as [Hq7 _]. apply Forall_app. split; assumption.
    + destruct Hrun as [Hrun|[Hrun Hin]]; [left; exact Hrun|right; split; [exact Hrun|]].
      right. apply in_or_app. left. exact Hin.
Qed.

Lemma processWithAgentMode_error_path_witness :
  let '(t, s', r) := processWithAgentMode wenv "hi" (Some "c1") None false failWorld in
  r = Raise (ErrorObj "model call failed") /\
  exists t1 c sid config,
    t = t1 ++ [(c, RExn (ErrorObj "model call failed"));
               (CErrorSession sid "model call failed", RUnit);
               (CEmitAgentProgress (errorProgress sid (Some "c1") config "model call failed"), RUnit)].
Proof.
  destruct (processWithAgentMode wenv "hi" (Some "c1") None false failWorld)
    as [[t s'] r] eqn:E.
  assert (Hr : r = Raise (ErrorObj "model call failed"))
    by (pose proof E as E'; vm_compute in E'; inversion E'; reflexivity).
  split; [exact Hr|].
  destruct (proj1 (processWithAgentMode_error_path wenv
                     (fun w => ex_intro _ w (ex_intro _ (w_config w) eq_refl))
                     (fun conv title sn w => ex_intro _ _ (ex_intro _ _ eq_refl))
                     (fun sid msg w => ex_intro _ _ (ex_intro _ tt eq_refl))
                     (fun u w => ex_intro _ _ (ex_intro _ tt eq_refl))
                     _ _ _ _ _ _ _ _ E) _ Hr) as (t1 & c & sid & config & Ht & _).
  exists t1, c, sid, config. exact Ht.
Defined.

Ltac started_rest :=
  eexists; split; [reflexivity|split; [repeat constructor|reflexivity]].

Ltac gate_rest :=
  eexists _, _; split; [reflexivity|];
  split; [econstructor; first [assumption | intro; congruence] |];
  split; intros Hq;
  first
    [ cbn in Hq; congruence
    | eexists; split; reflexivity
    | eexists; first [ exists []; started_rest
                     | eexists [_]; started_rest
                     | eexists [_; _]; started_rest ] ].

(** ** C9: the queue-or-start gate of [createMcpTextInput] *)

(** Claim C9.  For a message sent to an existing (non-empty) conversation
    id [c], [createMcpTextInput] reads the config, then makes the calls of
    [queue_gate]: none when queuing is disabled ([mcpMessageQueueEnabled =
    false]); else the session lookup for [c], and, when it finds a session,
    its record.  The message is queued (its only further call is [enqueue],
    and the result carries the queued id) exactly when the gate is open:
    queuing not disabled and the found session's status is "active".  In
    every other case the text is added to the conversation, then (after
    looking up and reviving the conversation's session) a new run is
    launched and the result carries no queued id.  The collaborators are
    assumed not to throw. *)
Theorem createMcpTextInput_queue_gate {S} (env : Env S)
  (Hconfig : never_throws (op_getConfig S env))
  (Hfind : forall c, never_throws (op_findSessionByConversationId S env c))
  (Hsession : forall sid, never_throws (op_getSession S env sid))
  (Henqueue : forall c text, never_throws (op_enqueue S env c text))
  (Hadd : forall c text q, never_throws (op_addMessageToConversation S env c text q))
  (Hrevive : forall sid snoozed, never_throws (op_reviveSession S env sid snoozed))
  (Hspawn : forall text c ex snoozed, never_throws (op_spawnAgentRun S env text c ex snoozed))
  text c fromTile s t s' r :
  truthy (Some c) = Some c ->
  createMcpTextInput env text (Some c) fromTile s = (t, s', r) ->
  exists config g queued t',
    t = (CGetConfig, RConfig config) :: g ++ t'
    /\ queue_gate c config g queued
    /\ (queued = true ->
        exists qm, t' = [(CEnqueue c text, RQueuedMessage qm)]
                   /\ r = Ret (mkTextInputResult c (Some (qm_id qm))))
    /\ (queued = false ->
        exists added h existing,
          t' = [(CAddMessageToConversation c text None, RBool added)] ++ h
               ++ [(CSpawnAgentRun text c existing
                      (match fromTile with Some b => b | None => false end), RUnit)]
          /\ Forall (fun ev => revive_call (fst ev)) h
          /\ r = Ret (mkTextInputResult c None)).
Proof.
  intros Hc H.
  unfold createMcpTextInput, getConfig, findSessionByConversationId, getSession, enqueue,
    addMessageToConversation, reviveSession, spawnAgentRun, bind, prim, ret in H.
  rewrite !Hc in H.
  run_all H; try no_throw.
  all: inversion H; subst; clear H; truthy_subst.
  all: eexists; first
         [ exists []; gate_rest
         | eexists [_]; gate_rest
         | eexists [_; _]; gate_rest ].
Qed.

Lemma createMcpTextInput_queue_gate_witness :
  let '(t, s', r) := createMcpTextInput wenv "hello" (Some "c1") None activeWorld in
  exists config g queued t',
    t = (CGetConfig, RConfig config) :: g ++ t' /\ queue_gate "c1" config g queued.
Proof.
  destruct (createMcpTextInput wenv "hello" (Some "c1") None activeWorld) as [[t s'] r] eqn:E.
  destruct (createMcpTextInput_queue_gate wenv wenv_getConfig_total wenv_findSession_total
              wenv_getSession_total wenv_enqueue_total wenv_addMessage_total
              wenv_reviveSession_total wenv_spawnAgentRun_total "hello" "c1" None _ _ _ _
              eq_refl E) as (config & g & queued & t' & Ht & Hg & _).
  exists config, g, queued, t'. split; assumption.
Defined.

(** ** C8: a message for a conversation with an active session *)

(** Claim C8 (counterexample).  With message queuing disabled in the
    config, a message sent to conversation "c1", whose session "session_0"
    is active, is not queued: the result carries no queued id, the queue of
    "c1" stays empty, and a second run is launched for "c1". *)
Lemma createMcpTextInput_active_not_queued :
  let '(t, s', r) := createMcpTextInput wenv "hello" (Some "c1") None activeWorldQueueOff in
  st_findByConversationId (w_st activeWorldQueueOff) "c1" = Some "session_0"
  /\ option_map as_status (st_find (w_st activeWorldQueueOff) "session_0") = Some SActive
  /\ r = Ret (mkTextInputResult "c1" None)
  /\ queueOf (w_mq s') "c1" = []
  /\ In (CSpawnAgentRun "hello" "c1" (Some "session_0") false, RUnit) t.
Proof.
  destruct (createMcpTextInput wenv "hello" (Some "c1") None activeWorldQueueOff)
    as [[t s'] r] eqn:E.
  vm_compute in E. inversion E; subst; clear E.
  split; [reflexivity|]. split; [reflexivity|]. split; [reflexivity|].
  split; [reflexivity|]. simpl. tauto.
Qed.

Ltac same_answer :=
  repeat match goal with
  | E1 : ?f ?x = (_, _), E2 : ?f ?x = (_, _) |- _ =>
      rewrite E1 in E2; injection E2; clear E2; intros; subst
  end.

(** Claim C8 (as the code has it).  When queuing is not disabled in the
    config ([mcpMessageQueueEnabled <> Some false]) and the session found for
    the (non-empty) conversation id [c] has status "active", a new message
    for [c] is only enqueued: the calls are reading the config, the lookup,
    the session record and [enqueue], no run is launched and the result
    carries the queued message's id. *)
Theorem createMcpTextInput_active_enqueues {S} (env : Env S) text c fromTile sid se qm
  config s s1 s2 s3 s4 :
  truthy (Some c) = Some c ->
  op_getConfig S env s = (s1, inr config) ->
  mcpMessageQueueEnabled config <> Some false ->
  op_findSessionByConversationId S env c s1 = (s2, inr (Some sid)) ->
  truthy (Some sid) = Some sid ->
  op_getSession S env sid s2 = (s3, inr (Some se)) ->
  as_status se = SActive ->
  op_enqueue S env c text s3 = (s4, inr qm) ->
  createMcpTextInput env text (Some c) fromTile s =
    ([(CGetConfig, RConfig config); (CFindSessionByConversationId c, ROptString (Some sid));
      (CGetSession sid, RSession (Some se)); (CEnqueue c text, RQueuedMessage qm)],
     s4, Ret (mkTextInputResult c (Some (qm_id qm)))).
Proof.
  intros Hc Hcfg Hen Hfind Hsid Hsess Hact Henq.
  assert (Hact' : SessionStatus_eqb (as_status se) SActive = true) by (rewrite Hact; reflexivity).
  destruct (createMcpTextInput env text (Some c) fromTile s) as [[t s'] r] eqn:E.
  unfold createMcpTextInput, getConfig, findSessionByConversationId, getSession, enqueue,
    addMessageToConversation, reviveSession, spawnAgentRun, bind, prim, ret in E.
  rewrite !Hc in E.
  revert Hcfg Hfind Hsess Henq. run_all E. all: intros Hcfg Hfind Hsess Henq.
  all: try congruence.
  all: repeat match goal with
         | Hp : (_, _) = (_, _) |- _ => injection Hp; clear Hp; intros; subst
         | E1 : ?f ?x = (_, _), E2 : ?f ?x = (_, _) |- _ => rewrite E1 in E2
         | E1 : truthy ?o = Some _, E2 : truthy ?o = Some _ |- _ => rewrite E1 in E2
         | Hp : Some _ = Some _ |- _ => injection Hp; clear Hp; intros; subst
         end.
  all: truthy_subst; try congruence.
  all: reflexivity.
Qed.

Lemma createMcpTextInput_active_enqueues_witness :
  let '(t, s', r) := createMcpTextInput wenv "hello" (Some "c1") None activeWorld in
  r = Ret (mkTextInputResult "c1" (Some 0)).
Proof.
  rewrite (createMcpTextInput_active_enqueues wenv "hello" "c1" None "session_0"
             (mkAgentSession "session_0" (Some "c1") "first" SActive)
             (snd (mq_enqueue "c1" "hello" (w_mq activeWorld))) defaultConfig
             activeWorld activeWorld activeWorld activeWorld
             (set_mq activeWorld (fst (mq_enqueue "c1" "hello" (w_mq activeWorld))))
             eq_refl eq_refl ltac:(cbv; discriminate) eq_refl eq_refl eq_refl eq_refl eq_refl).
  reflexivity.
Defined.

Section SnoozeProofs.
Context {S : Type} (env : Env S).

Lemma processWithAgentMode_snoozes text conv existing snoozed :
  only_calls (snoozes_as snoozed) (processWithAgentMode env text conv existing snoozed).
Proof.
  unfold processWithAgentMode, initializeMcpWithProgress, getConfig, startSession,
    registerExistingProcesses, getAvailableTools, loadConversation, agentLoop,
    completeSession, errorSession, emitAgentProgress, shouldStopSession, mcpInitialize.
  cbv zeta. only_calls_tac; split; try reflexivity; auto.
Qed.

End SnoozeProofs.

(** ** C10: a drained message's session is snoozed iff the panel is hidden *)

(** Claim C10.  In the processing of one queued message by the drain loop
    ([processQueuedMessage], the [try] block of a loop turn), the panel's
    visibility is read once, before any session is revived or started; every
    revival of the conversation's session and every session start of the run
    passes [snoozed = !(panel visible)] (an absent panel counting as not
    visible), from that one reading.  If the reading is never made (the
    history insertion failed, or the read threw), no session is revived or
    started. *)
Theorem processQueuedMessage_snoozed_iff_panel_hidden {S} (env : Env S) c m s t s' r :
  processQueuedMessage env c m s = (t, s', r) ->
  Forall (fun ev => snooze_flag (fst ev) = None) t
  \/ exists t1 visible t2,
       t = t1 ++ (CPanelVisible, ROptBool visible) :: t2
       /\ Forall (fun ev => snooze_flag (fst ev) = None /\ is_panel (fst ev) = false) t1
       /\ Forall (fun ev => snoozes_as
                             (negb (match visible with Some b => b | None => false end))
                             (fst ev)) t2.
Proof.
  unfold processQueuedMessage. cbv zeta. intros H.
  match type of H with
  | bind ?h _ _ = _ =>
      assert (Hh : only_calls (fun x => snooze_flag x = None /\ is_panel x = false) h)
        by (unfold addMessageToConversation, markAddedToHistory; only_calls_tac;
            split; reflexivity)
  end.
  apply bind_inv in H as [(t1 & s1 & u & t2 & E1 & E2 & ->)|[(e & E & _)|(E & _)]].
  2, 3: left; eapply Forall_impl; [eapply Hh; eassumption|]; intros ev [? _]; assumption.
  pose proof (Hh _ _ _ _ E1) as Hq1.
  cbv beta in E2. unfold panelVisible in E2.
  apply bind_inv in E2 as [(t3 & s3 & v & t4 & E3 & E4 & ->)|[(e & E & _)|(E & _)]].
  - apply prim_inv in E3 as [(v' & _ & -> & Hv)|(e & _ & _ & Hv)]; [|discriminate].
    inversion Hv; subst v'. right.
    exists t1, v, t4. split; [reflexivity|]. split; [exact Hq1|].
    cbv beta in E4.
    match type of E4 with
    | ?k s3 = _ =>
        assert (Hk : only_calls (snoozes_as (negb (match v with Some b => b | None => false end))) k)
          by (unfold findSessionByConversationId, reviveSession, markProcessed; only_calls_tac;
              first [ apply processWithAgentMode_snoozes
                    | split; [reflexivity|]; first [left; reflexivity | right; reflexivity] ])
    end.
    eapply Hk; eassumption.
  - apply prim_inv in E as [(v' & _ & -> & Hv)|(e' & _ & -> & Hv)]; [discriminate|].
    left. apply Forall_app.
    split; [eapply Forall_impl; [exact Hq1|]; intros ev [? _]; assumption|].
    repeat constructor.
  - apply prim_inv in E as [(v' & _ & -> & Hv)|(e' & _ & -> & Hv)]; discriminate.
Qed.

Lemma processQueuedMessage_snoozed_iff_panel_hidden_witness :
  let '(t, s', r) := processQueuedMessage wenv "c1" (mkQueuedMessage 0 "c1" "A" QPending false None)
                       drainWorld in
  r = Ret tt /\
  (Forall (fun ev => snooze_flag (fst ev) = None) t
   \/ exists t1 visible t2,
        t = t1 ++ (CPanelVisible, ROptBool visible) :: t2
        /\ Forall (fun ev => snooze_flag (fst ev) = None /\ is_panel (fst ev) = false) t1
        /\ Forall (fun ev => snoozes_as
                              (negb (match visible with Some b => b | None => false end))
                              (fst ev)) t2).
Proof.
  destruct (processQueuedMessage wenv "c1" (mkQueuedMessage 0 "c1" "A" QPending false None)
              drainWorld) as [[t s'] r] eqn:E.
  split; [pose proof E as E'; vm_compute in E'; inversion E'; reflexivity|].
  exact (processQueuedMessage_snoozed_iff_panel_hidden wenv _ _ _ _ _ _ E).
Defined.

(** ** Runs of the router over the concrete world *)

Section ReplayFacts.

Lemma replay_app t1 t2 w : replay (t1 ++ t2) w = replay t2 (replay t1 w).
Proof. unfold replay. apply fold_left_app. Qed.

Lemma replays_ret {A} (a : A) : replays (ret a).
Proof. intros w t w' r H. inversion H; subst. reflexivity. Qed.

Lemma replays_raise {A} e : replays (A := A) (raise e).
Proof. intros w t w' r H. inversion H; subst. reflexivity. Qed.

Lemma replays_stuck {A} : replays (A := A) stuck.
Proof. intros w t w' r H. inversion H; subst. reflexivity. Qed.

Lemma replays_prim {A} c (inj : A -> reply) (f : World -> answer World A) :
  (forall w, fst (f w) = world_step c w) -> replays (prim c inj f).
Proof.
  intros Hf w t w' r H. pose proof (Hf w) as E. unfold prim in H.
  destruct (f w) as [w1 [e|a]]; inversion H; subst; exact E.
Qed.

Lemma replays_bind {A B} (m : M World A) (k : A -> M World B) :
  replays m -> (forall a, replays (k a)) -> replays (bind m k).
Proof.
  intros Hm Hk w t w' r H.
  apply bind_inv in H as [(t1 & w1 & a & t2 & E1 & E2 & ->)|[(e & E & _)|(E & _)]].
  - rewrite replay_app, <- (Hm _ _ _ _ E1). eapply Hk; eauto.
  - eapply Hm; eauto.
  - eapply Hm; eauto.
Qed.

Lemma replays_try_catch {A} (m : M World A) h :
  replays m -> (forall e, replays (h e)) -> replays (try_catch m h).
Proof.
  intros Hm Hh w t w' r H.
  apply try_catch_inv in H as [(t1 & w1 & e & t2 & E1 & E2 & ->)|(E & _)].
  - rewrite replay_app, <- (Hm _ _ _ _ E1). eapply Hh; eauto.
  - eapply Hm; eauto.
Qed.

Lemma replays_try_finally {A} (m : M World A) fin :
  replays m -> replays fin -> replays (try_finally m fin).
Proof.
  intros Hm Hf w t w' r. unfold try_finally.
  destruct (m w) as [[t1 w1] r1] eqn:Em.
  pose proof (Hm _ _ _ _ Em) as F1.
  destruct r1 as [a|e|];
    [destruct (fin w1) as [[t2 w2] [u|e2|]] eqn:Ef
    |destruct (fin w1) as [[t2 w2] [u|e2|]] eqn:Ef|];
    intros H; inversion H; subst; try reflexivity;
    rewrite replay_app; eapply Hf; eauto.
Qed.

Lemma replays_while_true fuel (body : M World loopctl) :
  replays body -> replays (while_true fuel body).
Proof.
  intros Hb. induction fuel as [|n IH]; simpl.
  - apply replays_stuck.
  - apply replays_bind; [exact Hb|]. intros [|]; [apply replays_ret|exact IH].
Qed.

End ReplayFacts.

Ltac replays_tac :=
  repeat match goal with
  | |- replays (bind _ _) => apply replays_bind; [|intro]
  | |- replays (try_catch _ _) => apply replays_try_catch; [|intro]
  | |- replays (try_finally _ _) => apply replays_try_finally
  | |- replays (while_true _ _) => apply replays_while_true
  | |- replays (prim _ _ _) => apply replays_prim; intro; reflexivity
  | |- replays (ret _) => apply replays_ret
  | |- replays (raise _) => apply replays_raise
  | |- replays (if ?b then _ else _) => destruct b
  | |- replays (match ?x with _ => _ end) => destruct x
  end.

Ltac unfold_calls :=
  unfold getConfig, tryAcquireProcessingLock, releaseProcessingLock, isQueuePaused, peek,
    markProcessing, markAddedToHistory, markProcessed, markFailed, enqueue, getQueue,
    updateMessageText, resetToPending, removeFromQueue, reorderQueue, clearQueue, pauseQueue,
    resumeQueue, createConversation, addMessageToConversation, loadConversation, panelVisible,
    findSessionByConversationId, getSession, reviveSession, startSession, completeSession,
    errorSession, trackerStopSession, stateStopSession, shouldStopSession, requestApproval,
    awaitApproval, cancelSessionApprovals, emitAgentProgress, mcpInitialize,
    registerExistingProcesses, getAvailableTools, executeTool, agentLoop, spawnAgentRun,
    spawnQueueProcessing.

Lemma processWithAgentMode_replays text conv existing snoozed :
  replays (processWithAgentMode wenv text conv existing snoozed).
Proof.
  unfold processWithAgentMode, initializeMcpWithProgress. unfold_calls. cbv zeta. replays_tac.
Qed.

Lemma processQueuedMessages_replays fuel c : replays (processQueuedMessages wenv fuel c).
Proof.
  unfold processQueuedMessages, drainStep, processQueuedMessage. unfold_calls. cbv zeta.
  replays_tac; apply processWithAgentMode_replays.
Qed.

Lemma processQueueIfIdle_replays c : replays (processQueueIfIdle wenv c).
Proof. unfold processQueueIfIdle. unfold_calls. replays_tac. Qed.

Lemma run_command_replays cmd : replays (run_command cmd).
Proof.
  destruct cmd; unfold run_command.
  - unfold createMcpTextInput. unfold_calls. cbv zeta. replays_tac.
  - unfold stopAgentSession. unfold_calls. replays_tac.
  - unfold retryQueuedMessage. unfold_calls. replays_tac; apply processQueueIfIdle_replays.
  - unfold updateQueuedMessageText. unfold_calls. replays_tac; apply processQueueIfIdle_replays.
  - unfold resumeMessageQueue. unfold_calls. replays_tac; apply processQueueIfIdle_replays.
  - unfold removeFromMessageQueue. unfold_calls. replays_tac.
  - unfold clearMessageQueue. unfold_calls. replays_tac.
  - unfold reorderMessageQueue. unfold_calls. replays_tac.
  - apply replays_bind; [apply processWithAgentMode_replays|intro; apply replays_ret].
  - apply processQueuedMessages_replays.
Qed.

Lemma only_calls_impl {S A} (P Q : call -> Prop) (m : M S A) :
  (forall c, P c -> Q c) -> only_calls P m -> only_calls Q m.
Proof.
  intros HPQ Hm s t s' r H. eapply Forall_impl; [eapply Hm; eauto|]. intros ev; apply HPQ.
Qed.

Lemma processWithAgentMode_agent_calls {S} (env : Env S) text conv existing snoozed :
  only_calls (fun cl => agent_call cl = true) (processWithAgentMode env text conv existing snoozed).
Proof.
  unfold processWithAgentMode, initializeMcpWithProgress. unfold_calls. cbv zeta.
  only_calls_tac.
Qed.

Lemma replay_preserves (I : World -> Prop) (P : call -> Prop) :
  (forall cl w, P cl -> I w -> I (world_step cl w)) ->
  forall t w, Forall (fun ev => P (fst ev)) t -> I w -> I (replay t w).
Proof.
  intros Hstep t. induction t as [|ev t IH]; intros w Ht Hw; [exact Hw|].
  inversion Ht; subst. cbn. apply IH; [assumption|]. apply Hstep; assumption.
Qed.

Lemma run_preserves (I : World -> Prop) (P : call -> Prop) {A} (m : M World A) :
  (forall cl w, P cl -> I w -> I (world_step cl w)) -> replays m -> only_calls P m ->
  forall w t w' r, I w -> m w = (t, w', r) -> I w'.
Proof.
  intros Hstep Hrep Hcalls w t w' r Hw E.
  rewrite (Hrep _ _ _ _ E). eapply replay_preserves; eauto.
Qed.

Lemma run_commands_preserves (I : World -> Prop) cmds :
  Forall (fun cmd => forall w t w' r, I w -> run_command cmd w = (t, w', r) -> I w') cmds ->
  forall w, I w -> I (snd (run_commands cmds w)).
Proof.
  induction cmds as [|cmd rest IH]; intros Hall w Hw; [exact Hw|].
  inversion Hall; subst. cbn.
  destruct (run_command cmd w) as [[t1 w1] r1] eqn:E1.
  destruct (run_commands rest w1) as [t2 w2] eqn:E2. cbn.
  change w2 with (snd (t2, w2)). rewrite <- E2. apply IH; [assumption|]. eauto.
Qed.

Ltac world_step_cases :=
  intros [] w; cbn; unfold mq_tryAcquire, mq_updateText, mq_resetToPending, mq_remove, mq_reorder,
    mq_markProcessing, st_revive, am_await, cs_add; repeat case_match; cbn.

Lemma world_step_keeps_paused c :
  forall cl w, cl <> CResumeQueue c -> c ∈ mq_paused (w_mq w) ->
  c ∈ mq_paused (w_mq (world_step cl w)).
Proof. world_step_cases; intros; try set_solver. Qed.

Ltac agent_calls_tac :=
  match goal with
  | |- only_calls _ (processWithAgentMode _ _ _ _ _) =>
      eapply only_calls_impl; [|apply processWithAgentMode_agent_calls];
      intros [] Hagent; cbn in Hagent; try discriminate
  end.

Ltac calls_tac :=
  repeat progress (only_calls_tac; try apply only_calls_while_true).

Lemma processQueueIfIdle_calls (P : call -> Prop) c :
  (forall sid, P (CGetSession sid)) -> P (CFindSessionByConversationId c) ->
  P (CSpawnQueueProcessing c) -> only_calls P (processQueueIfIdle wenv c).
Proof. intros. unfold processQueueIfIdle. unfold_calls. only_calls_tac; auto. Qed.

Lemma run_command_not_resume c cmd :
  cmd <> CmdResume c -> only_calls (fun cl => cl <> CResumeQueue c) (run_command cmd).
Proof.
  intros Hcmd. destruct cmd; unfold run_command; unfold_calls.
  all: unfold createMcpTextInput, stopAgentSession, retryQueuedMessage, updateQueuedMessageText,
    resumeMessageQueue, removeFromMessageQueue, clearMessageQueue, reorderMessageQueue, processQueuedMessages,
    drainStep, processQueuedMessage; unfold_calls; cbv zeta.
  all: calls_tac; try discriminate; try agent_calls_tac;
    try (apply processQueueIfIdle_calls; discriminate).
  congruence.
Qed.

Lemma processQueuedMessages_paused fuel c w t w' r :
  c ∈ mq_paused (w_mq w) -> processQueuedMessages wenv (Datatypes.S fuel) c w = (t, w', r) ->
  (t = [(CTryAcquireProcessingLock c, RBool false)] \/
   t = [(CTryAcquireProcessingLock c, RBool true); (CIsQueuePaused c, RBool true);
        (CReleaseProcessingLock c, RUnit)])
  /\ queueOf (w_mq w') c = queueOf (w_mq w) c /\ r = Ret tt.
Proof.
  intros Hp. unfold processQueuedMessages, drainStep. unfold_calls. intros H.
  cbn in H. unfold mq_tryAcquire in H. destruct (decide (c ∈ mq_locks (w_mq w))).
  - cbn in H. inversion H; subst. auto.
  - cbv [try_finally while_true bind prim ret ok mq_isPaused] in H. cbn in H.
    rewrite (bool_decide_eq_true_2 _ Hp) in H. cbn in H.
    inversion H; subst. auto.
Qed.

Lemma stopAgentSession_effect sid w t w' r :
  stopAgentSession wenv sid w = (t, w', r) ->
  r = Ret true /\ w_am w' = am_cancelSession (w_am w) sid /\
  (forall se c, st_find (w_st w) sid = Some se -> truthy (as_conversationId se) = Some c ->
     c ∈ mq_paused (w_mq w')).
Proof.
  unfold stopAgentSession. unfold_calls. cbn.
  change (find (fun se => as_id se =? sid) (st_sessions (w_st w))) with (st_find (w_st w) sid).
  destruct (st_find (w_st w) sid) as [se0|] eqn:Ef.
  - destruct (truthy (as_conversationId se0)) as [c0|] eqn:Ec;
      cbv [bind prim ret ok]; cbn; intros H; inversion H; subst;
      (split; [reflexivity|split; [reflexivity|]]);
      intros se c Hse Hc; inversion Hse; subst; rewrite Hc in Ec; inversion Ec; subst;
      cbn; set_solver.
  - cbv [bind prim ret ok]; cbn; intros H; inversion H; subst.
    split; [reflexivity|split; [reflexivity|]]. intros se c Hse. discriminate.
Qed.

Lemma am_cancelSession_resolved am sid a :
  In a (am_approvals (am_cancelSession am sid)) -> ap_sessionId a = sid -> ap_resolution a <> None.
Proof.
  cbn. intros Hin Hs. apply in_map_iff in Hin as (x & <- & Hx).
  destruct (String.eqb (ap_sessionId x) sid) eqn:E.
  - unfold resolve_if_pending. intros Hn. destruct (ap_resolution x) eqn:R; cbn in Hn; congruence.
  - rewrite Hs, String.eqb_refl in E. discriminate.
Qed.

Lemma am_cancelSession_denies am sid a :
  In a (am_approvals am) -> ap_sessionId a = sid -> ap_resolution a = None ->
  In (mkApprovalRequest (ap_id a) sid (ap_toolName a) (Some false))
    (am_approvals (am_cancelSession am sid)).
Proof.
  intros Hin Hs Hr. cbn. apply in_map_iff. exists a. split; [|exact Hin].
  rewrite Hs, String.eqb_refl. unfold resolve_if_pending. rewrite Hr, Hs. reflexivity.
Qed.

Lemma run_commands_keep_paused c cmds w :
  Forall (fun cmd => cmd <> CmdResume c) cmds -> c ∈ mq_paused (w_mq w) ->
  c ∈ mq_paused (w_mq (snd (run_commands cmds w))).
Proof.
  intros Hcmds. revert w. apply (run_commands_preserves (fun w => c ∈ mq_paused (w_mq w))).
  eapply Forall_impl; [exact Hcmds|]. intros cmd Hcmd.
  apply (run_preserves _ (fun cl => cl <> CResumeQueue c));
    [exact (world_step_keeps_paused c)|apply run_command_replays
    |apply run_command_not_resume; exact Hcmd].
Qed.

(** Claim C2: [stopAgentSession] resolves every outstanding approval of the
    session as denied (and leaves none of them outstanding); when the
    session is bound to a conversation, that conversation's queue is paused
    and stays paused through any later router calls, runs and drains other
    than [resumeMessageQueue] on it, and every drain of it then stops
    without processing a queued message and leaves the queue unchanged. *)
Theorem stopAgentSession_denies_and_pauses sid w t w' r :
  stopAgentSession wenv sid w = (t, w', r) ->
  r = Ret true /\
  (forall a, In a (am_approvals (w_am w')) -> ap_sessionId a = sid -> ap_resolution a <> None) /\
  (forall a, In a (am_approvals (w_am w)) -> ap_sessionId a = sid -> ap_resolution a = None ->
     In (mkApprovalRequest (ap_id a) sid (ap_toolName a) (Some false)) (am_approvals (w_am w'))) /\
  (forall se c, st_find (w_st w) sid = Some se -> truthy (as_conversationId se) = Some c ->
   forall cmds, Forall (fun cmd => cmd <> CmdResume c) cmds ->
   let w2 := snd (run_commands cmds w') in
   c ∈ mq_paused (w_mq w2) /\
   forall fuel t3 w3 r3, processQueuedMessages wenv (Datatypes.S fuel) c w2 = (t3, w3, r3) ->
     (t3 = [(CTryAcquireProcessingLock c, RBool false)] \/
      t3 = [(CTryAcquireProcessingLock c, RBool true); (CIsQueuePaused c, RBool true);
            (CReleaseProcessingLock c, RUnit)])
     /\ queueOf (w_mq w3) c = queueOf (w_mq w2) c /\ r3 = Ret tt).
Proof.
  intros H. destruct (stopAgentSession_effect _ _ _ _ _ H) as (Hr & Ham & Hp).
  split; [exact Hr|]. rewrite Ham. split; [|split].
  - apply am_cancelSession_resolved.
  - apply am_cancelSession_denies.
  - intros se c Hse Hc cmds Hcmds w2.
    assert (Hp2 : c ∈ mq_paused (w_mq w2))
      by (apply run_commands_keep_paused; [exact Hcmds|exact (Hp _ _ Hse Hc)]).
    split; [exact Hp2|]. intros fuel t3 w3 r3 E. exact (processQueuedMessages_paused _ _ _ _ _ _ Hp2 E).
Qed.

Lemma queueOf_insert qs locks paused next c c' q :
  queueOf (mkQueueService (<[c' := q]> qs) locks paused next) c
  = if String.eqb c' c then q else queueOf (mkQueueService qs locks paused next) c.
Proof.
  unfold queueOf. cbn. destruct (String.eqb_spec c' c) as [->|Hne].
  - by rewrite lookup_insert_eq.
  - by rewrite lookup_insert_ne.
Qed.

Lemma queueOf_set_queue mq c c' q :
  queueOf (set_queue mq c' q) c = if String.eqb c' c then q else queueOf mq c.
Proof. apply queueOf_insert. Qed.

Lemma failed_head_update mq c c' id id' f :
  failed_head mq c id ->
  (c' = c -> id' = id -> forall m, qm_id m = id -> is_failed m = true ->
     qm_id (f m) = id /\ is_failed (f m) = true) ->
  failed_head (update_msg mq c' id' f) c id.
Proof.
  intros (m & rest & Hq & Hid & Hf) Hkeep. unfold failed_head, update_msg.
  rewrite queueOf_set_queue. destruct (String.eqb_spec c' c) as [->|Hne].
  - rewrite Hq. cbn. destruct (Nat.eqb_spec (qm_id m) id') as [E|E].
    + destruct (Hkeep eq_refl (eq_trans (eq_sym E) Hid) m Hid Hf) as [H1 H2].
      eexists _, _. split; [reflexivity|]. auto.
    + eexists _, _. split; [reflexivity|]. auto.
  - exists m, rest. auto.
Qed.

Lemma failed_head_filter mq c c' id id' :
  failed_head mq c id -> (c' = c -> id' = id -> False) ->
  failed_head (mq_markProcessed c' id' mq) c id.
Proof.
  intros (m & rest & Hq & Hid & Hf) Hne. unfold failed_head, mq_markProcessed.
  rewrite queueOf_set_queue. destruct (String.eqb_spec c' c) as [->|Hc].
  - rewrite Hq. cbn. destruct (Nat.eqb_spec (qm_id m) id') as [E|E].
    + exfalso. apply Hne; congruence.
    + cbn. eexists _, _. split; [reflexivity|]. auto.
  - exists m, rest. auto.
Qed.

Lemma find_msg_head mq c id m rest :
  queueOf mq c = m :: rest -> qm_id m = id -> find_msg mq c id = Some m.
Proof. intros Hq Hid. unfold find_msg. rewrite Hq. cbn. rewrite Hid, Nat.eqb_refl. reflexivity. Qed.

Lemma releases_false c c' id id' :
  String.eqb c' c && Nat.eqb id' id = false -> c' = c -> id' = id -> False.
Proof. intros H -> ->. rewrite String.eqb_refl, Nat.eqb_refl in H. discriminate. Qed.

Lemma cs_add_mq w c text q : w_mq (fst (cs_add w c text q)) = w_mq w.
Proof. unfold cs_add. destruct (w_conversations w !! c); reflexivity. Qed.

Lemma world_step_keeps_failed_head c id :
  forall cl w, releases_failed c id cl = false -> failed_head (w_mq w) c id ->
  failed_head (w_mq (world_step cl w)) c id.
Proof.
  intros [] w Hrel Hfh; cbn in Hrel |- *; try exact Hfh.
  - unfold mq_tryAcquire. destruct decide; exact Hfh.
  - unfold mq_markProcessing. destruct (find_msg (w_mq w) conversationId id0) as [m0|] eqn:Ef;
      [|exact Hfh].
    destruct (is_pending m0) eqn:Ep; [|exact Hfh]. cbn.
    apply failed_head_update; [exact Hfh|]. intros -> -> m Hm Hfm.
    destruct Hfh as (h & rest & Hq & Hid & Hf).
    rewrite (find_msg_head _ _ _ _ _ Hq Hid) in Ef. inversion Ef; subst.
    unfold is_pending, is_failed in *. destruct (qm_status m0); discriminate.
  - apply failed_head_update; [exact Hfh|]. intros _ _ m Hm Hfm. split; assumption.
  - apply failed_head_filter; [exact Hfh|]. apply releases_false; exact Hrel.
  - apply failed_head_update; [exact Hfh|]. intros _ _ m Hm Hfm. split; [exact Hm|reflexivity].
  - destruct Hfh as (m & rest & Hq & Hid & Hf). unfold failed_head. rewrite queueOf_insert.
    destruct (String.eqb_spec conversationId c) as [->|Hne].
    + fold (queueOf (w_mq w) c). rewrite Hq. eexists _, _. split; [reflexivity|]. auto.
    + exists m, rest. auto.
  - unfold mq_updateText. destruct (find_msg (w_mq w) conversationId id0) as [m0|];
      [|exact Hfh].
    destruct (qm_addedToHistory m0); [exact Hfh|]. cbn.
    apply failed_head_update; [exact Hfh|]. intros E1 E2. exfalso.
    exact (releases_false _ _ _ _ Hrel E1 E2).
  - unfold mq_resetToPending. destruct (find_msg (w_mq w) conversationId id0) as [m0|];
      [|exact Hfh].
    destruct (is_failed m0); [|exact Hfh]. cbn.
    apply failed_head_update; [exact Hfh|]. intros E1 E2. exfalso.
    exact (releases_false _ _ _ _ Hrel E1 E2).
  - unfold mq_remove. destruct (find_msg (w_mq w) conversationId id0) as [m0|]; [|exact Hfh].
    cbn. apply failed_head_filter; [exact Hfh|]. apply releases_false; exact Hrel.
  - unfold mq_reorder. destruct (mq_queues (w_mq w) !! conversationId); [|exact Hfh].
    unfold failed_head. cbn. rewrite queueOf_set_queue, Hrel. exact Hfh.
  - unfold failed_head, mq_clear. rewrite queueOf_set_queue, Hrel. exact Hfh.
  - destruct (cs_add w conversationId text queued) as [w' b] eqn:E. cbn.
    pose proof (cs_add_mq w conversationId text queued) as Hmq. rewrite E in Hmq.
    cbn in Hmq. rewrite Hmq. exact Hfh.
  - destruct (w_agentOutcomes w); exact Hfh.
Qed.

Lemma mq_peek_queues c mq mq' : mq_queues mq' = mq_queues mq -> mq_peek c mq' = mq_peek c mq.
Proof. intros E. unfold mq_peek, queueOf. rewrite E. reflexivity. Qed.

Lemma mq_peek_failed c id mq : failed_head mq c id -> mq_peek c mq = None.
Proof.
  intros (m & rest & Hq & _ & Hf). unfold mq_peek. rewrite Hq.
  unfold is_pending, is_failed in *. destruct (qm_status m); congruence.
Qed.

Lemma processQueuedMessages_failed_head fuel c id w t w' r :
  failed_head (w_mq w) c id -> processQueuedMessages wenv fuel c w = (t, w', r) ->
  queueOf (w_mq w') c = queueOf (w_mq w) c /\ Forall (fun ev => starts_work (fst ev) = false) t.
Proof.
  intros Hfh. unfold processQueuedMessages, drainStep. unfold_calls. intros H.
  cbn in H. unfold mq_tryAcquire in H.
  destruct (decide (c ∈ mq_locks (w_mq w))) as [Hl|Hl].
  { cbn in H. inversion H; subst. split; [reflexivity|repeat constructor]. }
  destruct fuel as [|k].
  { cbv [try_finally while_true bind prim ret ok stuck] in H. cbn in H.
    inversion H; subst. split; [reflexivity|repeat constructor]. }
  cbv [try_finally while_true bind prim ret ok mq_isPaused] in H. cbn in H.
  destruct (bool_decide _); cbn in H.
  { inversion H; subst. split; [reflexivity|repeat constructor]. }
  rewrite (mq_peek_queues c (w_mq w)) in H by reflexivity.
  rewrite (mq_peek_failed _ _ _ Hfh) in H. cbn in H.
  inversion H; subst. split; [reflexivity|repeat constructor].
Qed.

Ltac unfold_commands :=
  unfold run_command, createMcpTextInput, stopAgentSession, retryQueuedMessage,
    updateQueuedMessageText, resumeMessageQueue, removeFromMessageQueue, clearMessageQueue, reorderMessageQueue,
    processQueuedMessages, drainStep, processQueuedMessage; unfold_calls; cbv zeta.

Lemma run_command_keeps_failed_head c id cmd :
  command_releases c id cmd = false ->
  forall w t w' r, failed_head (w_mq w) c id -> run_command cmd w = (t, w', r) ->
  failed_head (w_mq w') c id.
Proof.
  intros Hcmd.
  assert (Hdrain : forall fuel c', cmd = CmdDrain fuel c' -> c' = c ->
            forall w t w' r, failed_head (w_mq w) c id -> run_command cmd w = (t, w', r) ->
            failed_head (w_mq w') c id).
  { intros fuel c' -> -> w t w' r Hfh H.
    destruct (processQueuedMessages_failed_head _ _ _ _ _ _ _ Hfh H) as [Hq _].
    destruct Hfh as (m & rest & Hq0 & Hid & Hf). exists m, rest. rewrite Hq. auto. }
  destruct cmd as [| | | | | | | | |fuel c'];
    try (destruct (String.eqb_spec c' c) as [->|Hne]; [exact (Hdrain _ _ eq_refl eq_refl)|]);
    apply (run_preserves _ (fun cl => releases_failed c id cl = false));
    try exact (world_step_keeps_failed_head c id);
    try apply run_command_replays;
    unfold_commands; cbn in Hcmd.
  all: calls_tac; try exact Hcmd;
    try (apply processQueueIfIdle_calls; reflexivity); try agent_calls_tac.
  all: try reflexivity.
  cbn. rewrite (proj2 (String.eqb_neq _ _) Hne). reflexivity.
Qed.

Lemma head_id_update mq c c' id id' f :
  head_id mq c id -> (forall m, qm_id (f m) = qm_id m) -> head_id (update_msg mq c' id' f) c id.
Proof.
  intros (m & rest & Hq & Hid) Hf. unfold head_id, update_msg.
  rewrite queueOf_set_queue. destruct (String.eqb_spec c' c) as [->|Hne].
  - rewrite Hq. cbn. eexists _, _. split; [reflexivity|]. destruct (Nat.eqb (qm_id m) id'); auto.
    rewrite Hf; auto.
  - exists m, rest. auto.
Qed.

Lemma world_step_keeps_head_id c id :
  forall cl w, keeps_head c cl = true -> head_id (w_mq w) c id -> head_id (w_mq (world_step cl w)) c id.
Proof.
  intros [] w Hk Hh; cbn in Hk |- *; try exact Hh.
  - unfold mq_tryAcquire. destruct decide; exact Hh.
  - unfold mq_markProcessing. destruct find_msg; [destruct is_pending|]; cbn; try exact Hh.
    apply head_id_update; [exact Hh|reflexivity].
  - apply head_id_update; [exact Hh|reflexivity].
  - destruct Hh as (m & rest & Hq & Hid). unfold head_id, mq_markProcessed.
    rewrite queueOf_set_queue. destruct (String.eqb_spec conversationId c); [discriminate|].
    eauto.
  - apply head_id_update; [exact Hh|reflexivity].
  - destruct Hh as (m & rest & Hq & Hid). unfold head_id. rewrite queueOf_insert.
    destruct (String.eqb_spec conversationId c) as [->|Hne].
    + fold (queueOf (w_mq w) c). rewrite Hq. eexists _, _. split; [reflexivity|]. auto.
    + exists m, rest. auto.
  - unfold mq_updateText. destruct find_msg; [destruct qm_addedToHistory|]; cbn; try exact Hh.
    apply head_id_update; [exact Hh|]. intros m. destruct (is_failed m); reflexivity.
  - unfold mq_resetToPending. destruct find_msg; [destruct is_failed|]; cbn; try exact Hh.
    apply head_id_update; [exact Hh|reflexivity].
  - unfold mq_remove. destruct find_msg; cbn; [|exact Hh].
    destruct Hh as (m & rest & Hq & Hid). unfold head_id, mq_markProcessed.
    rewrite queueOf_set_queue. destruct (String.eqb_spec conversationId c); [discriminate|].
    eauto.
  - unfold mq_reorder. destruct (mq_queues (w_mq w) !! conversationId); [|exact Hh].
    unfold head_id. cbn. rewrite queueOf_set_queue.
    destruct (String.eqb_spec conversationId c); [discriminate|]. exact Hh.
  - unfold head_id, mq_clear. rewrite queueOf_set_queue.
    destruct (String.eqb_spec conversationId c); [discriminate|]. exact Hh.
  - destruct (cs_add w conversationId text queued) as [w' b] eqn:E. cbn.
    pose proof (cs_add_mq w conversationId text queued) as Hmq. rewrite E in Hmq.
    cbn in Hmq. rewrite Hmq. exact Hh.
  - destruct (w_agentOutcomes w); exact Hh.
Qed.

Lemma processQueuedMessage_keeps_head c qm :
  only_calls (fun cl => protocol_call cl = false -> keeps_head c cl = true)
    (processQueuedMessage wenv c qm).
Proof.
  unfold processQueuedMessage. unfold_calls. cbv zeta.
  calls_tac; try (intros; reflexivity); try discriminate.
  - eapply only_calls_impl; [|apply processWithAgentMode_agent_calls].
    intros [] Ha _; cbn in Ha; try discriminate; reflexivity.
Qed.

Lemma processQueuedMessage_raise_head c qm w t w' e id :
  processQueuedMessage wenv c qm w = (t, w', Raise e) -> head_id (w_mq w) c id ->
  head_id (w_mq w') c id.
Proof.
  intros H Hh.
  pose proof (processQueuedMessage_ends wenv wenv_markProcessed_total c qm _ _ _ _ H) as Hw.
  cbn in Hw.
  pose proof (processQueuedMessage_keeps_head c qm _ _ _ _ H) as Hk.
  assert (Hr : replays (processQueuedMessage wenv c qm)).
  { unfold processQueuedMessage. unfold_calls. cbv zeta. replays_tac.
    apply processWithAgentMode_replays. }
  rewrite (Hr _ _ _ _ H).
  apply (replay_preserves (fun w => head_id (w_mq w) c id) (fun cl => keeps_head c cl = true)).
  - apply world_step_keeps_head_id.
  - unfold work in Hw. rewrite Forall_forall in Hw, Hk |- *. intros ev Hin.
    apply (Hk ev Hin), (Hw ev Hin).
  - exact Hh.
Qed.

Lemma failed_with_markFailed mq c id err :
  head_id mq c id -> failed_with (mq_markFailed c id err mq) c id err.
Proof.
  intros (m & rest & Hq & Hid). unfold failed_with, mq_markFailed, update_msg.
  rewrite queueOf_set_queue, String.eqb_refl, Hq. cbn. rewrite Hid, Nat.eqb_refl.
  eexists _, _. split; [reflexivity|]. cbn. auto.
Qed.

Lemma processQueuedMessage_no_markFailed c qm :
  only_calls (fun cl => is_markFailed cl = false) (processQueuedMessage wenv c qm).
Proof.
  unfold processQueuedMessage. unfold_calls. cbv zeta. calls_tac.
  eapply only_calls_impl; [|apply processWithAgentMode_agent_calls].
  intros [] Ha; cbn in Ha; try discriminate; reflexivity.
Qed.

Lemma drainStep_marks_failed c w t w' r :
  drainStep wenv c w = (t, w', r) ->
  Forall (fun ev => is_markFailed (fst ev) = false) t \/
  (r = Ret LStop /\ exists t0 id err, t = t0 ++ [(CMarkFailed c id err, RUnit)] /\
     Forall (fun ev => is_markFailed (fst ev) = false) t0 /\ failed_with (w_mq w') c id err).
Proof.
  unfold drainStep, isQueuePaused, peek, markProcessing, markFailed.
  rewrite (bind_prim_ok _ _ _ _ w w (mq_isPaused c (w_mq w)) eq_refl).
  destruct (mq_isPaused c (w_mq w)).
  { intros H; inversion H; subst. left. repeat constructor. }
  rewrite (bind_prim_ok _ _ _ _ w w (mq_peek c (w_mq w)) eq_refl).
  destruct (mq_peek c (w_mq w)) as [m|] eqn:Ep.
  2: { intros H; inversion H; subst. left. repeat constructor. }
  destruct (mq_markProcessing c (qm_id m) (w_mq w)) as [mq3 b] eqn:E3.
  rewrite (bind_prim_ok _ _ _ _ w (set_mq w mq3) b) by (cbn; rewrite E3; reflexivity).
  destruct b; cbv beta iota delta [negb].
  2: { intros H; inversion H; subst. left. repeat constructor. }
  assert (Hh : head_id mq3 c (qm_id m)).
  { unfold mq_peek in Ep. destruct (queueOf (w_mq w) c) as [|h rest] eqn:Hq; [discriminate|].
    destruct (is_pending h) eqn:Hp; [|discriminate]. inversion Ep; subst.
    unfold mq_markProcessing in E3. rewrite (find_msg_head _ _ _ _ _ Hq eq_refl), Hp in E3.
    inversion E3; subst. apply head_id_update; [exists m, rest; auto|reflexivity]. }
  destruct (try_catch _ _ (set_mq w mq3)) as [[t4 w4] r4] eqn:Etc.
  intros H. inversion H; subst. clear H.
  apply try_catch_inv in Etc as [(t1 & s1 & e & t2 & E1 & E2 & ->)|(E & Hnr)].
  - apply bind_inv in E1 as [(? & ? & ? & ? & ? & Er & ?)|[(e' & Eq & Ee)|(Eq & Es)]];
      [inversion Er| |discriminate].
    injection Ee as Ee. subst e'.
    rewrite (bind_prim_ok _ _ _ _ s1
               (set_mq s1 (mq_markFailed c (qm_id m) (errorMessage e) (w_mq s1))) tt eq_refl)
      in E2.
    cbn in E2. inversion E2; subst. clear E2.
    right. split; [reflexivity|].
    exists ([(CIsQueuePaused c, RBool false); (CPeek c, RMsg (Some m));
             (CMarkProcessing c (qm_id m), RBool true)] ++ t1), (qm_id m), (errorMessage e).
    split; [cbn; reflexivity|]. split.
    + apply Forall_app. split; [repeat constructor|].
      exact (processQueuedMessage_no_markFailed c m _ _ _ _ Eq).
    + apply failed_with_markFailed.
      exact (processQueuedMessage_raise_head c m _ _ _ _ _ Eq Hh).
  - left. repeat constructor.
    refine (only_calls_bind _ _ _ (processQueuedMessage_no_markFailed c m) _ _ _ _ _ E).
    intros _. apply only_calls_ret.
Qed.

Lemma while_marks_failed fuel c w t w' r :
  while_true fuel (drainStep wenv c) w = (t, w', r) ->
  Forall (fun ev => is_markFailed (fst ev) = false) t \/
  (r = Ret tt /\ exists t0 id err, t = t0 ++ [(CMarkFailed c id err, RUnit)] /\
     Forall (fun ev => is_markFailed (fst ev) = false) t0 /\ failed_with (w_mq w') c id err).
Proof.
  revert w t w' r. induction fuel as [|n IH]; intros w t w' r H; cbn in H.
  - inversion H; subst. left. constructor.
  - apply bind_inv in H as [(t1 & w1 & ctl & t2 & E1 & E2 & ->)|[(e & E & ->)|(E & ->)]].
    + destruct (drainStep_marks_failed _ _ _ _ _ E1) as [F1|(Hc & t0 & id & err & -> & F0 & Hf)].
      * destruct ctl.
        -- inversion E2; subst. left. rewrite app_nil_r. exact F1.
        -- destruct (IH _ _ _ _ E2) as [F2|(Hr & t0 & id & err & -> & F0 & Hf)].
           ++ left. apply Forall_app; auto.
           ++ right. split; [exact Hr|]. exists (t1 ++ t0), id, err.
              split; [rewrite app_assoc; reflexivity|]. split; [apply Forall_app; auto|exact Hf].
      * inversion Hc; subst. inversion E2; subst. right. split; [reflexivity|].
        exists t0, id, err. rewrite app_nil_r. auto.
    + destruct (drainStep_marks_failed _ _ _ _ _ E) as [F|(Hc & _)]; [left; exact F|discriminate].
    + destruct (drainStep_marks_failed _ _ _ _ _ E) as [F|(Hc & _)]; [left; exact F|discriminate].
Qed.

Lemma processQueuedMessages_marks_failed fuel c w t w' r id err :
  processQueuedMessages wenv fuel c w = (t, w', r) -> In (CMarkFailed c id err, RUnit) t ->
  exists t0, t = t0 ++ [(CMarkFailed c id err, RUnit); (CReleaseProcessingLock c, RUnit)]
  /\ r = Ret tt /\ failed_with (w_mq w') c id err.
Proof.
  unfold processQueuedMessages, tryAcquireProcessingLock, releaseProcessingLock.
  destruct (mq_tryAcquire c (w_mq w)) as [mq1 b] eqn:E1.
  rewrite (bind_prim_ok _ _ _ _ w (set_mq w mq1) b) by (cbn; rewrite E1; reflexivity).
  destruct b; cbv beta iota delta [negb].
  2: { intros H Hin. inversion H; subst. destruct Hin as [Hin|[]]. discriminate. }
  unfold try_finally.
  destruct (while_true fuel (drainStep wenv c) (set_mq w mq1)) as [[t1 w1] r1] eqn:Ew.
  pose proof (while_marks_failed _ _ _ _ _ _ Ew) as Hw.
  assert (Hnot : Forall (fun ev => is_markFailed (fst ev) = false) t1 ->
                 ~ In (CMarkFailed c id err, RUnit) t1).
  { intros F Hin. rewrite List.Forall_forall in F. specialize (F _ Hin). discriminate. }
  destruct r1 as [u|e|].
  - rewrite (prim_ok _ _ _ _ (set_mq w1 (mq_release c (w_mq w1))) tt eq_refl).
    intros H Hin. inversion H; subst. clear H.
    destruct Hw as [F|(_ & t0 & id' & err' & -> & F0 & Hf)].
    + exfalso. destruct Hin as [Hin|Hin]; [discriminate|].
      apply in_app_or in Hin as [Hin|[Hin|[]]]; [exact (Hnot F Hin)|discriminate].
    + destruct Hin as [Hin|Hin]; [discriminate|].
      rewrite <- app_assoc in Hin. cbn in Hin.
      apply in_app_or in Hin as [Hin|[Hin|[Hin|[]]]].
      * rewrite List.Forall_forall in F0. specialize (F0 _ Hin). discriminate.
      * inversion Hin; subst. exists ((CTryAcquireProcessingLock c, RBool true) :: t0).
        split; [rewrite <- app_assoc; reflexivity|]. split; [destruct u; reflexivity|exact Hf].
      * discriminate.
  - rewrite (prim_ok _ _ _ _ (set_mq w1 (mq_release c (w_mq w1))) tt eq_refl).
    intros H Hin. inversion H; subst. clear H. exfalso.
    destruct Hw as [F|(Hc & _)]; [|discriminate].
    destruct Hin as [Hin|Hin]; [discriminate|].
    apply in_app_or in Hin as [Hin|[Hin|[]]]; [exact (Hnot F Hin)|discriminate].
  - intros H Hin. inversion H; subst. clear H. exfalso.
    destruct Hw as [F|(Hc & _)]; [|discriminate].
    destruct Hin as [Hin|Hin]; [discriminate|]. exact (Hnot F Hin).
Qed.

Lemma failed_with_head mq c id err : failed_with mq c id err -> failed_head mq c id.
Proof.
  intros (m & rest & Hq & Hid & Hs & _). exists m, rest. unfold is_failed. rewrite Hs. auto.
Qed.

Lemma history_ids_app h1 h2 : history_ids (h1 ++ h2) = history_ids h1 ++ history_ids h2.
Proof.
  induction h1 as [|[x [id|]] h1 IH]; cbn; [reflexivity| |]; rewrite ?IH; reflexivity.
Qed.

Lemma history_once_frame w w' :
  history_once w ->
  (forall c, history_ids (history w' c) = history_ids (history w c)
             \/ history_ids (history w' c) = []) ->
  queue_sub (w_mq w) (w_mq w') ->
  mq_nextId (w_mq w) <= mq_nextId (w_mq w') ->
  history_once w'.
Proof.
  intros [Hh Hb] Hc Hq Hn. split.
  - intros c. destruct (Hc c) as [E|E]; rewrite E.
    + destruct (Hh c) as [Hnd Hin]. split; [exact Hnd|]. intros id Hid.
      destruct (Hin id Hid) as [Hlt Hflag]. split; [lia|].
      intros m Hm Hmid. destruct (Hq c m Hm) as (m0 & Hm0 & Hid0 & Hf0).
      apply Hf0, (Hflag m0 Hm0). congruence.
    + split; [constructor|]. intros id [].
  - intros c m Hm. destruct (Hq c m Hm) as (m0 & Hm0 & Hid0 & _).
    specialize (Hb c m0 Hm0). lia.
Qed.

Lemma queue_sub_same mq mq' : mq_queues mq' = mq_queues mq -> queue_sub mq mq'.
Proof.
  intros E c m Hm. exists m. unfold queueOf in *. rewrite E in Hm. auto.
Qed.

Lemma queue_sub_set_queue mq c' q :
  (forall m, In m q -> exists m0, In m0 (queueOf mq c') /\ qm_id m0 = qm_id m /\
                      (qm_addedToHistory m0 = true -> qm_addedToHistory m = true)) ->
  queue_sub mq (set_queue mq c' q).
Proof.
  intros Hq c m Hm. rewrite queueOf_set_queue in Hm.
  destruct (String.eqb_spec c' c) as [->|Hne]; [exact (Hq m Hm)|]. exists m. auto.
Qed.

Lemma queue_sub_update mq c' id' f :
  (forall m, qm_id (f m) = qm_id m) ->
  (forall m, qm_addedToHistory m = true -> qm_addedToHistory (f m) = true) ->
  queue_sub mq (update_msg mq c' id' f).
Proof.
  intros Hid Hfl. apply queue_sub_set_queue. intros m Hm.
  apply in_map_iff in Hm as (m0 & <- & Hm0). exists m0. split; [exact Hm0|].
  destruct (Nat.eqb (qm_id m0) id'); auto.
Qed.

Lemma queue_sub_filter mq c' (p : QueuedMessage -> bool) :
  queue_sub mq (set_queue mq c' (filter p (queueOf mq c'))).
Proof.
  apply queue_sub_set_queue. intros m Hm.
  apply list_elem_of_In, list_elem_of_filter in Hm as [_ Hm]. apply list_elem_of_In in Hm.
  exists m. auto.
Qed.

Lemma queue_sub_nil mq c' : queue_sub mq (set_queue mq c' []).
Proof. apply queue_sub_set_queue. intros m []. Qed.

Lemma reorder_by_incl ids q m : In m (reorder_by ids q) -> In m q.
Proof.
  revert q. induction ids as [|id ids IH]; intros q Hm; [exact Hm|]. cbn in Hm.
  destruct (List.find _ q) as [m0|] eqn:Ef.
  - destruct Hm as [<-|Hm]; [exact (proj1 (find_some _ _ Ef))|].
    apply IH, list_elem_of_In, list_elem_of_filter in Hm as [_ Hm].
    apply list_elem_of_In in Hm. exact Hm.
  - exact (IH q Hm).
Qed.

Lemma queue_sub_reorder mq c' ids q :
  mq_queues mq !! c' = Some q -> queue_sub mq (set_queue mq c' (reorder_by ids q)).
Proof.
  intros Eq. apply queue_sub_set_queue. intros m Hm. exists m.
  unfold queueOf. rewrite Eq. split; [exact (reorder_by_incl _ _ _ Hm)|auto].
Qed.

Lemma history_set_mq w mq c : history (set_mq w mq) c = history w c.
Proof. reflexivity. Qed.

Lemma history_once_enqueue w c text :
  history_once w -> history_once (set_mq w (fst (mq_enqueue c text (w_mq w)))).
Proof.
  intros [Hh Hb]. cbn. split.
  - intros c'. destruct (Hh c') as [Hnd Hin]. rewrite history_set_mq. split; [exact Hnd|].
    intros id Hid. destruct (Hin id Hid) as [Hlt Hflag]. cbn. split; [lia|].
    intros m Hm Hmid. unfold queueOf in Hm; cbn in Hm.
    destruct (String.eqb_spec c c') as [->|Hne].
    + rewrite lookup_insert_eq in Hm. fold (queueOf (w_mq w) c') in Hm.
      apply in_app_or in Hm as [Hm|[<-|[]]]; [exact (Hflag m Hm Hmid)|].
      cbn in Hmid. lia.
    + rewrite lookup_insert_ne in Hm by exact Hne. exact (Hflag m Hm Hmid).
  - intros c' m Hm. unfold queueOf in Hm; cbn in Hm.
    destruct (String.eqb_spec c c') as [->|Hne].
    + rewrite lookup_insert_eq in Hm. fold (queueOf (w_mq w) c') in Hm.
      apply in_app_or in Hm as [Hm|[<-|[]]]; [specialize (Hb c' m Hm); cbn; lia|]. cbn. lia.
    + rewrite lookup_insert_ne in Hm by exact Hne. specialize (Hb c' m Hm). cbn. lia.
Qed.

Lemma history_once_add_untagged w c text :
  history_once w -> history_once (fst (cs_add w c text None)).
Proof.
  intros H. unfold cs_add. destruct (w_conversations w !! c) as [h|] eqn:Eh; [|exact H]. cbn.
  apply (history_once_frame w _ H); [|apply queue_sub_same; reflexivity|cbn; lia].
  intros c'. left. unfold history. cbn [w_conversations set_conversations].
  destruct (String.eqb_spec c c') as [->|Hne].
  - rewrite lookup_insert_eq, history_ids_app, Eh. cbn. apply app_nil_r.
  - rewrite lookup_insert_ne by exact Hne. reflexivity.
Qed.

Lemma history_once_create w text :
  history_once w -> history_once (fst (cs_create w text)).
Proof.
  intros H. unfold cs_create. cbn.
  apply (history_once_frame w _ H); [|apply queue_sub_same; reflexivity|cbn; lia].
  intros c'. unfold history. cbn [w_conversations set_conversations].
  destruct (String.eqb_spec (id_string "conv_" (w_nextConversationId w)) c') as [<-|Hne].
  - right. rewrite lookup_insert_eq. reflexivity.
  - left. rewrite lookup_insert_ne by exact Hne. reflexivity.
Qed.

Lemma world_step_history cl w :
  tagged_add cl = false -> history_once w -> history_once (world_step cl w).
Proof.
  intros Htag H. destruct cl; cbn in Htag |- *; try discriminate.
  all: unfold mq_tryAcquire, mq_updateText, mq_resetToPending, mq_remove, mq_reorder,
    mq_markProcessing, mq_markAddedToHistory, mq_markFailed, mq_markProcessed, mq_clear, mq_release,
    mq_pause, mq_resume, st_revive, am_await; repeat case_match; cbn.
  all: try (apply (history_once_frame w _ H);
            [intros ?; left; reflexivity
            |cbn; first [ apply queue_sub_same; reflexivity
                        | apply queue_sub_filter | apply queue_sub_nil
                        | apply queue_sub_reorder; assumption
                        | apply queue_sub_update; intros ?; repeat case_match; easy ]
            |cbn; lia]).
  all: try discriminate.
  all: try match goal with E : cs_add ?w _ _ None = (?w0, ?b) |- history_once ?w0 =>
      change w0 with (fst (w0, b)); rewrite <- E; exact (history_once_add_untagged _ _ _ H)
    end.
  - exact (history_once_enqueue w conversationId text H).
  - exact (history_once_create w text H).
Qed.

Section Preserves.
Variable I : World -> Prop.

Lemma preserves_ret {A} (a : A) : preserves I (ret a).
Proof. intros w t w' r Hw H. inversion H; subst. exact Hw. Qed.

Lemma preserves_prim {A} c (inj : A -> reply) (f : World -> answer World A) :
  (forall w, I w -> I (fst (f w))) -> preserves I (prim c inj f).
Proof.
  intros Hf w t w' r Hw H. unfold prim in H. specialize (Hf w Hw).
  destruct (f w) as [w1 [e|a]]; inversion H; subst; exact Hf.
Qed.

Lemma preserves_bind {A B} (m : M World A) (k : A -> M World B) :
  preserves I m -> (forall a, preserves I (k a)) -> preserves I (bind m k).
Proof.
  intros Hm Hk w t w' r Hw H.
  apply bind_inv in H as [(t1 & w1 & a & t2 & E1 & E2 & ->)|[(e & E & _)|(E & _)]].
  - exact (Hk a _ _ _ _ (Hm _ _ _ _ Hw E1) E2).
  - exact (Hm _ _ _ _ Hw E).
  - exact (Hm _ _ _ _ Hw E).
Qed.

Lemma preserves_try_finally {A} (m : M World A) fin :
  preserves I m -> preserves I fin -> preserves I (try_finally m fin).
Proof.
  intros Hm Hf w t w' r Hw. unfold try_finally.
  destruct (m w) as [[t1 w1] r1] eqn:Em.
  pose proof (Hm _ _ _ _ Hw Em) as F1.
  destruct r1 as [a|e|];
    [destruct (fin w1) as [[t2 w2] [u|e2|]] eqn:Ef
    |destruct (fin w1) as [[t2 w2] [u|e2|]] eqn:Ef|];
    intros H; inversion H; subst; try exact F1; exact (Hf _ _ _ _ F1 Ef).
Qed.

Lemma preserves_while_true fuel (body : M World loopctl) :
  preserves I body -> preserves I (while_true fuel body).
Proof.
  intros Hb. induction fuel as [|n IH]; simpl.
  - intros w t w' r Hw H. inversion H; subst. exact Hw.
  - apply preserves_bind; [exact Hb|]. intros [|]; [apply preserves_ret|exact IH].
Qed.

End Preserves.

Lemma in_update_msg mq c id f m :
  In m (queueOf (update_msg mq c id f) c) ->
  exists m0, In m0 (queueOf mq c) /\ m = if Nat.eqb (qm_id m0) id then f m0 else m0.
Proof.
  unfold update_msg. rewrite queueOf_set_queue, String.eqb_refl. intros Hm.
  apply in_map_iff in Hm as (m0 & <- & Hm0). eauto.
Qed.

Lemma cs_add_false w c text q w1 : cs_add w c text q = (w1, false) -> w1 = w.
Proof. unfold cs_add. destruct (w_conversations w !! c); intros H; inversion H; reflexivity. Qed.

(** the tagged insertion of [processQueuedMessage] followed by
    [markAddedToHistory] *)
Lemma history_once_add_tagged w c text id m :
  history_once w -> In m (queueOf (w_mq w) c) -> qm_id m = id -> qm_addedToHistory m = false ->
  history_once (set_mq (fst (cs_add w c text (Some id)))
                  (mq_markAddedToHistory c id (w_mq (fst (cs_add w c text (Some id)))))).
Proof.
  intros [Hh Hb] Hm Hmid Hmf. rewrite cs_add_mq.
  assert (Hsub : queue_sub (w_mq w) (mq_markAddedToHistory c id (w_mq w))).
  { apply queue_sub_update; reflexivity || (intros; reflexivity). }
  assert (Hnot : ~ In id (history_ids (history w c))).
  { intros Hin. destruct (Hh c) as [_ Hin']. specialize (proj2 (Hin' id Hin) m Hm Hmid).
    congruence. }
  assert (Hlt : id < mq_nextId (w_mq w)) by (subst id; exact (Hb c m Hm)).
  unfold cs_add. destruct (w_conversations w !! c) as [h|] eqn:Eh.
  2: { apply (history_once_frame w _ (conj Hh Hb)); [intros ?; left; reflexivity|exact Hsub|cbn; lia]. }
  cbn. split.
  - intros c'. unfold history. cbn [w_conversations set_conversations set_mq].
    destruct (String.eqb_spec c c') as [<-|Hne].
    + rewrite lookup_insert_eq, history_ids_app. cbn.
      destruct (Hh c) as [Hnd Hin]. unfold history in Hnot, Hnd, Hin. rewrite Eh in Hnot, Hnd, Hin.
      split.
      * apply (proj2 (NoDup_app _ _)). split; [exact Hnd|]. split; [|apply NoDup_singleton].
        intros x Hx Hx'. apply list_elem_of_singleton in Hx'. subst x.
        apply Hnot, list_elem_of_In, Hx.
      * intros id' Hid'. apply in_app_or in Hid' as [Hid'|[<-|[]]].
        -- destruct (Hin id' Hid') as [Hl Hf]. split; [exact Hl|]. intros m' Hm' Hm'id.
           destruct (Hsub c m' Hm') as (m0 & Hm0 & E0 & Hf0). apply Hf0, (Hf m0 Hm0). congruence.
        -- split; [exact Hlt|]. intros m' Hm' Hm'id.
           apply in_update_msg in Hm' as (m0 & _ & ->).
           destruct (Nat.eqb_spec (qm_id m0) id) as [_|Hne']; [reflexivity|].
           cbn in Hm'id. congruence.
    + rewrite lookup_insert_ne by exact Hne. destruct (Hh c') as [Hnd Hin].
      split; [exact Hnd|]. intros id' Hid'. destruct (Hin id' Hid') as [Hl Hf].
      split; [exact Hl|]. intros m' Hm' Hm'id.
      destruct (Hsub c' m' Hm') as (m0 & Hm0 & E0 & Hf0). apply Hf0, (Hf m0 Hm0). congruence.
  - intros c' m' Hm'. destruct (Hsub c' m' Hm') as (m0 & Hm0 & E0 & _).
    specialize (Hb c' m0 Hm0). cbn. lia.
Qed.

Lemma processQueuedMessage_history c qm w t w' r :
  history_once w ->
  (qm_addedToHistory qm = false ->
   exists m, In m (queueOf (w_mq w) c) /\ qm_id m = qm_id qm /\ qm_addedToHistory m = false) ->
  processQueuedMessage wenv c qm w = (t, w', r) -> history_once w'.
Proof.
  intros Hw Hpre H. unfold processQueuedMessage in H.
  apply bind_inv in H as [(t1 & w1 & a & t2 & E1 & E2 & ->)|[(e & E & ->)|(E & ->)]].
  - assert (Hw1 : history_once w1).
    { unfold addMessageToConversation, markAddedToHistory in E1.
      destruct (qm_addedToHistory qm) eqn:Ef; cbv beta iota delta [negb] in E1.
      - inversion E1; subst. exact Hw.
      - destruct (Hpre eq_refl) as (m & Hm & Hmid & Hmf).
        destruct (cs_add w c (qm_text qm) (Some (qm_id qm))) as [wa b] eqn:Ea.
        rewrite (bind_prim_ok _ _ _ _ w wa b) in E1 by (cbn; rewrite Ea; reflexivity).
        destruct b; cbn in E1; inversion E1; subst.
        pose proof (history_once_add_tagged w c (qm_text qm) (qm_id qm) m Hw Hm Hmid Hmf) as Hh.
        rewrite Ea in Hh. exact Hh. }
    refine (run_preserves _ (fun cl => tagged_add cl = false) _ world_step_history _ _ _ _ _ _ Hw1 E2).
    + unfold_calls. cbv zeta. replays_tac. apply processWithAgentMode_replays.
    + unfold_calls. cbv zeta. calls_tac. agent_calls_tac; reflexivity.
  - unfold addMessageToConversation, markAddedToHistory in E.
    destruct (qm_addedToHistory qm) eqn:Ef; cbv beta iota delta [negb] in E; [discriminate|].
    destruct (cs_add w c (qm_text qm) (Some (qm_id qm))) as [wa b] eqn:Ea.
    rewrite (bind_prim_ok _ _ _ _ w wa b) in E by (cbn; rewrite Ea; reflexivity).
    destruct b; cbn in E; inversion E; subst.
    rewrite (cs_add_false _ _ _ _ _ Ea). exact Hw.
  - unfold addMessageToConversation, markAddedToHistory in E.
    destruct (qm_addedToHistory qm) eqn:Ef; cbv beta iota delta [negb] in E; [discriminate|].
    destruct (cs_add w c (qm_text qm) (Some (qm_id qm))) as [wa b] eqn:Ea.
    rewrite (bind_prim_ok _ _ _ _ w wa b) in E by (cbn; rewrite Ea; reflexivity).
    destruct b; cbn in E; inversion E.
Qed.

Lemma drainStep_history c : preserves history_once (drainStep wenv c).
Proof.
  intros w t w' r Hw. unfold drainStep, isQueuePaused, peek, markProcessing, markFailed.
  rewrite (bind_prim_ok _ _ _ _ w w (mq_isPaused c (w_mq w)) eq_refl).
  destruct (mq_isPaused c (w_mq w)).
  { intros H; inversion H; subst. exact Hw. }
  rewrite (bind_prim_ok _ _ _ _ w w (mq_peek c (w_mq w)) eq_refl).
  destruct (mq_peek c (w_mq w)) as [m|] eqn:Ep.
  2: { intros H; inversion H; subst. exact Hw. }
  destruct (mq_markProcessing c (qm_id m) (w_mq w)) as [mq3 b] eqn:E3.
  rewrite (bind_prim_ok _ _ _ _ w (set_mq w mq3) b) by (cbn; rewrite E3; reflexivity).
  assert (Hw3 : history_once (set_mq w mq3)).
  { pose proof (world_step_history (CMarkProcessing c (qm_id m)) w eq_refl Hw) as H3.
    cbn in H3. rewrite E3 in H3. exact H3. }
  destruct b; cbv beta iota delta [negb].
  2: { intros H; inversion H; subst. exact Hw3. }
  assert (Hpre : qm_addedToHistory m = false ->
     exists m', In m' (queueOf mq3 c) /\ qm_id m' = qm_id m /\ qm_addedToHistory m' = false).
  { intros Hf. unfold mq_peek in Ep. destruct (queueOf (w_mq w) c) as [|h rest] eqn:Hq;
      [discriminate|].
    destruct (is_pending h) eqn:Hp; [|discriminate]. inversion Ep; subst.
    unfold mq_markProcessing in E3. rewrite (find_msg_head _ _ _ _ _ Hq eq_refl), Hp in E3.
    inversion E3; subst. exists (with_status QProcessing None m).
    unfold update_msg. rewrite queueOf_set_queue, String.eqb_refl, Hq. cbn.
    rewrite Nat.eqb_refl. auto. }
  destruct (try_catch _ _ (set_mq w mq3)) as [[t4 w4] r4] eqn:Etc.
  intros H. inversion H; subst. clear H.
  apply try_catch_inv in Etc as [(t1 & s1 & e & t2 & E1 & E2 & ->)|(E & Hnr)].
  - apply bind_inv in E1 as [(? & ? & ? & ? & ? & Er & ?)|[(e' & Eq & Ee)|(Eq & Es)]];
      [inversion Er| |discriminate].
    pose proof (processQueuedMessage_history c m _ _ _ _ Hw3 Hpre Eq) as Hs1.
    rewrite (bind_prim_ok _ _ _ _ s1
               (set_mq s1 (mq_markFailed c (qm_id m) (errorMessage e) (w_mq s1))) tt eq_refl)
      in E2.
    cbn in E2. inversion E2; subst.
    exact (world_step_history (CMarkFailed c (qm_id m) (errorMessage e)) s1 eq_refl Hs1).
  - apply bind_inv in E as [(t1 & s1 & a & t2 & E1 & E2 & _)|[(e & E & _)|(E & _)]].
    + pose proof (processQueuedMessage_history c m _ _ _ _ Hw3 Hpre E1) as Hs1.
      inversion E2; subst. exact Hs1.
    + exact (processQueuedMessage_history c m _ _ _ _ Hw3 Hpre E).
    + exact (processQueuedMessage_history c m _ _ _ _ Hw3 Hpre E).
Qed.

Lemma processQueuedMessages_history fuel c : preserves history_once (processQueuedMessages wenv fuel c).
Proof.
  unfold processQueuedMessages, tryAcquireProcessingLock, releaseProcessingLock.
  apply preserves_bind.
  - apply preserves_prim. intros w Hw.
    exact (world_step_history (CTryAcquireProcessingLock c) w eq_refl Hw).
  - intros [|]; cbv beta iota delta [negb]; [|apply preserves_ret].
    apply preserves_try_finally; [apply preserves_while_true, drainStep_history|].
    apply preserves_prim. intros w Hw.
    exact (world_step_history (CReleaseProcessingLock c) w eq_refl Hw).
Qed.

Lemma run_command_history cmd : preserves history_once (run_command cmd).
Proof.
  destruct cmd as [| | | | | | | | |fuel c].
  10: { unfold run_command. apply processQueuedMessages_history. }
  all: intros w t w' r Hw E;
    refine (run_preserves _ (fun cl => tagged_add cl = false) _ world_step_history
              (run_command_replays _) _ _ _ _ _ Hw E);
    unfold_commands.
  all: calls_tac; try reflexivity;
    try (apply processQueueIfIdle_calls; reflexivity); try (agent_calls_tac; reflexivity).
Qed.

Lemma history_once_retryWorld : history_once retryWorld.
Proof.
  split.
  - intros c. assert (E : history retryWorld c = []).
    { unfold history. cbn. destruct (decide (c = "c1")) as [->|Hne]; [reflexivity|].
      rewrite lookup_singleton_ne by congruence. reflexivity. }
    rewrite E. split; [constructor|]. intros id [].
  - intros c m. unfold queueOf. cbn. destruct (decide (c = "c1")) as [->|Hne].
    + rewrite lookup_insert_eq. intros [<-|[]]. cbn. lia.
    + rewrite lookup_insert_ne by congruence. rewrite lookup_empty. intros [].
Qed.

(** Claim C2 on [stopWorld]. *)
Lemma stopAgentSession_denies_and_pauses_witness :
  let '(t, w', r) := stopAgentSession wenv "session_0" stopWorld in
  r = Ret true /\
  In (mkApprovalRequest 0 "session_0" "write_file" (Some false)) (am_approvals (w_am w')) /\
  "c1" ∈ mq_paused (w_mq (snd (run_commands [CmdTextInput "more" (Some "c1") None] w'))).
Proof.
  destruct (stopAgentSession wenv "session_0" stopWorld) as [[t w'] r] eqn:E.
  destruct (stopAgentSession_denies_and_pauses _ _ _ _ _ E) as (Hr & _ & Hden & Hp).
  split; [exact Hr|]. split.
  - exact (Hden (mkApprovalRequest 0 "session_0" "write_file" None) (or_introl eq_refl)
             eq_refl eq_refl).
  - exact (proj1 (Hp (mkAgentSession "session_0" (Some "c1") "first" SActive) "c1"
                    eq_refl eq_refl [CmdTextInput "more" (Some "c1") None]
                    ltac:(repeat constructor; discriminate))).
Defined.

(** Claim C6, counterexample: after a drain of "c2" leaves message 0
    failed, [updateQueuedMessageText] on it makes it pending again without
    any [resetToPending], launches the queue processing, and the next drain
    processes it. *)
Theorem updateQueuedMessageText_resets_failed :
  let w1 := snd (run_commands [CmdDrain 3 "c2"] queueFailWorld) in
  let '(t2, w2) := run_commands [CmdUpdateText "c2" 0 "hello again"] w1 in
  failed_head (w_mq w1) "c2" 0 /\
  Forall (fun ev => match fst ev with CResetToPending _ _ => False | _ => True end) t2 /\
  In (CSpawnQueueProcessing "c2", RUnit) t2 /\
  (exists m rest, queueOf (w_mq w2) "c2" = m :: rest /\ qm_id m = 0 /\ qm_status m = QPending) /\
  In (CMarkProcessing "c2" 0, RBool true) (fst (run_commands [CmdDrain 3 "c2"] w2)).
Proof.
  vm_compute. split; [eexists _, _; split; [reflexivity|auto]|].
  split; [repeat constructor|]. split; [tauto|].
  split; [eexists _, _; split; [reflexivity|auto]|]. tauto.
Qed.

(** Claim C6, amended: when a drain marks a message failed, it marks it
    with the error as the head of the queue, releases the lock and stops;
    while a failed message heads the queue, every sequence of router calls,
    runs and drains other than a retry, a text update or a removal of that
    message, or a clear or a reorder of the queue, keeps it failed at the
    head, and every drain then processes no message and leaves the queue as
    it is. *)
Theorem queue_failure_holds_until_released :
  (forall fuel c w t w' r id err,
     processQueuedMessages wenv fuel c w = (t, w', r) -> In (CMarkFailed c id err, RUnit) t ->
     exists t0, t = t0 ++ [(CMarkFailed c id err, RUnit); (CReleaseProcessingLock c, RUnit)]
     /\ r = Ret tt /\ failed_with (w_mq w') c id err) /\
  (forall c id w cmds,
     failed_head (w_mq w) c id -> Forall (fun cmd => command_releases c id cmd = false) cmds ->
     let w2 := snd (run_commands cmds w) in
     failed_head (w_mq w2) c id /\
     forall fuel t3 w3 r3, processQueuedMessages wenv fuel c w2 = (t3, w3, r3) ->
       queueOf (w_mq w3) c = queueOf (w_mq w2) c /\
       Forall (fun ev => starts_work (fst ev) = false) t3).
Proof.
  split.
  - intros fuel c w t w' r id err. apply processQueuedMessages_marks_failed.
  - intros c id w cmds Hfh Hcmds w2.
    assert (Hfh2 : failed_head (w_mq w2) c id).
    { apply (run_commands_preserves (fun w => failed_head (w_mq w) c id)); [|exact Hfh].
      eapply Forall_impl; [exact Hcmds|]. intros cmd Hcmd.
      exact (run_command_keeps_failed_head c id cmd Hcmd). }
    split; [exact Hfh2|]. intros fuel t3 w3 r3 E.
    exact (processQueuedMessages_failed_head _ _ _ _ _ _ _ Hfh2 E).
Qed.

(** Claim C6 on [queueFailWorld]. *)
Lemma queue_failure_holds_until_released_witness :
  let '(t, w', r) := processQueuedMessages wenv 3 "c2" queueFailWorld in
  failed_with (w_mq w') "c2" 0 "Failed to add message to conversation history" /\
  failed_head (w_mq (snd (run_commands [CmdRetry "c2" 1; CmdRemove "c2" 1; CmdDrain 3 "c2"] w')))
    "c2" 0.
Proof.
  destruct (processQueuedMessages wenv 3 "c2" queueFailWorld) as [[t w'] r] eqn:E.
  assert (Hin : In (CMarkFailed "c2" 0 "Failed to add message to conversation history", RUnit) t).
  { pose proof E as E'. vm_compute in E'. injection E' as Ht _ _. subst t. cbn. tauto. }
  destruct queue_failure_holds_until_released as [Hfail Hhold].
  destruct (Hfail _ _ _ _ _ _ _ _ E Hin) as (_ & _ & _ & Hf).
  split; [exact Hf|].
  apply (Hhold "c2" 0 w' _ (failed_with_head _ _ _ _ Hf)). repeat constructor.
Defined.

(** Claim C5: from a world where every queued message is in its
    conversation's history at most once and carries the [addedToHistory]
    flag once it is there, every sequence of router calls, runs and drains
    (retries after failures included) keeps this, so no queued message is
    ever inserted twice into a history. *)
Theorem queued_message_in_history_at_most_once w cmds :
  history_once w ->
  history_once (snd (run_commands cmds w)) /\
  forall c, NoDup (history_ids (history (snd (run_commands cmds w)) c)).
Proof.
  intros Hw.
  assert (H : history_once (snd (run_commands cmds w))).
  { apply run_commands_preserves; [|exact Hw].
    apply List.Forall_forall. intros cmd _. apply run_command_history. }
  split; [exact H|]. intros c. exact (proj1 (proj1 H c)).
Qed.

(** Claim C5 on [retryWorld]: the failed and retried message is in the
    history once. *)
Lemma queued_message_in_history_at_most_once_witness :
  history_once retryWorld /\
  history_once (snd (run_commands retryCommands retryWorld)) /\
  history (snd (run_commands retryCommands retryWorld)) "c1" = [("A", Some 0)] /\
  queueOf (w_mq (snd (run_commands retryCommands retryWorld))) "c1" = [].
Proof.
  split; [exact history_once_retryWorld|]. split.
  - exact (proj1 (queued_message_in_history_at_most_once retryWorld retryCommands
                    history_once_retryWorld)).
  - split; vm_compute; reflexivity.
Defined.

(** ** Further properties of the router *)

Ltac unfold_router :=
  unfold updateQueuedMessageText, retryQueuedMessage, resumeMessageQueue, processQueueIfIdle,
    getQueue, updateMessageText, resetToPending, resumeQueue, findSessionByConversationId,
    getSession, spawnQueueProcessing in *.

Ltac split_in H :=
  simpl in H;
  repeat match goal with
  | Hx : _ \/ _ |- _ => destruct Hx as [Hx|Hx]
  | Hx : False |- _ => destruct Hx
  | Hx : (_, _) = (_, _) |- _ => inversion Hx; subst; clear Hx
  end.

(** X1: When the queue refuses the text update of a message (updateMessageText answers false), updateQueuedMessageText returns false after exactly two calls, reading the queue and the update: it never starts queue processing. *)
Theorem updateQueuedMessageText_refused {S} (env : Env S) c id text s t s' r :
  updateQueuedMessageText env c id text s = (t, s', r) ->
  In (CUpdateMessageText c id text, RBool false) t ->
  r = Ret false /\ map fst t = [CGetQueue c; CUpdateMessageText c id text].
Proof.
  intros H Hin. unfold_router. cbv [bind prim ret] in H.
  run_all H; inversion H; subst; split_in Hin; simpl in *; try discriminate; auto.
Qed.

(** X2: updateQueuedMessageText starts processing of the conversation's queue only when the message it edits was failed in the queue it read, and the update succeeded. *)
Theorem updateQueuedMessageText_requeues_only_failed {S} (env : Env S) c id text s t s' r :
  updateQueuedMessageText env c id text s = (t, s', r) ->
  In (CSpawnQueueProcessing c) (map fst t) ->
  exists q m, In (CGetQueue c, RQueue q) t
    /\ List.find (fun m => Nat.eqb (qm_id m) id) q = Some m /\ qm_status m = QFailed
    /\ In (CUpdateMessageText c id text, RBool true) t.
Proof.
  intros H Hin. unfold_router. cbv [bind prim ret] in H.
  run_all H; inversion H; subst; simpl in Hin;
    repeat match goal with
    | Hx : _ \/ _ |- _ => destruct Hx as [Hx|Hx]
    | Hx : False |- _ => destruct Hx
    | Hx : _ = _ |- _ => discriminate Hx
    end;
    match goal with
    | Hf : find _ ?q = Some ?m |- _ => exists q, m
    end; simpl; repeat split; auto;
    repeat match goal with
    | Hb : negb ?b = false |- _ => destruct b; [clear Hb|discriminate Hb]
    end; auto.
Qed.

(** X3: When resetting a message to pending fails, retryQueuedMessage returns false and makes no call besides that reset. *)
Theorem retryQueuedMessage_refused {S} (env : Env S) c id s t s' r :
  retryQueuedMessage env c id s = (t, s', r) ->
  In (CResetToPending c id, RBool false) t ->
  r = Ret false /\ t = [(CResetToPending c id, RBool false)].
Proof.
  intros H Hin. unfold_router. cbv [bind prim ret] in H.
  run_all H; inversion H; subst; split_in Hin; simpl in *; try discriminate; auto.
Qed.

Lemma SessionStatus_eqb_true a b : SessionStatus_eqb a b = true -> a = b.
Proof. destruct a, b; simpl; congruence. Qed.

(** X4: resumeMessageQueue first resumes the queue, and then starts queue processing if and only if no session it found for the conversation is active. *)
Theorem resumeMessageQueue_drains_iff_idle {S} (env : Env S) c s t s' :
  resumeMessageQueue env c s = (t, s', Ret true) ->
  hd_error t = Some (CResumeQueue c, RUnit)
  /\ (In (CSpawnQueueProcessing c) (map fst t) <->
      ~ exists sid se, In (CGetSession sid, RSession (Some se)) t /\ as_status se = SActive).
Proof.
  intros H. unfold_router. cbv [bind prim ret] in H.
  run_all H; inversion H; subst; clear H;
    (split; [reflexivity|]);
    repeat match goal with u : unit |- _ => destruct u end;
    (split; [intros Hin (sid & se & Hs & Hst)
            |intros Hno]);
    simpl in *;
    repeat match goal with
    | Hx : _ \/ _ |- _ => destruct Hx as [Hx|Hx]
    | Hx : False |- _ => destruct Hx
    | Hx : (_, _) = (_, _) |- _ => inversion Hx; subst; clear Hx
    | Hx : CSpawnQueueProcessing _ = _ |- _ => discriminate Hx
    | Hx : _ = CSpawnQueueProcessing _ |- _ => discriminate Hx
    end;
    try (rewrite Hst in *; discriminate);
    try (intuition (discriminate || congruence); fail);
    try (exfalso; apply Hno;
         match goal with
         | Hq : SessionStatus_eqb (as_status ?se) SActive = true |- _ =>
             apply SessionStatus_eqb_true in Hq; do 2 eexists; split; [|exact Hq]; simpl; auto
         end).
  all: idtac.
Qed.

Lemma processWithAgentMode_body_scoped {S} (env : Env S) text conv config sid :
  only_calls (scoped_to sid)
    (try_catch
      (let* _ := initializeMcpWithProgress env config sid in
       let* _ := registerExistingProcesses env in
       let* _ := getAvailableTools env in
       let* _ := match truthy conv with
                 | Some c => loadConversation env c
                 | None => ret tt
                 end in
       let* content := agentLoop env text conv sid (maxIterationsOf config) in
       let* _ := completeSession env sid "Agent completed successfully" in
       ret content)
      (fun error =>
         let msg := errorMessage error in
         let* _ := errorSession env sid msg in
         let* _ := emitAgentProgress env (errorProgress sid conv config msg) in
         raise error)).
Proof.
  unfold initializeMcpWithProgress, shouldStopSession, emitAgentProgress, mcpInitialize,
    registerExistingProcesses, getAvailableTools, loadConversation, agentLoop,
    completeSession, errorSession. cbv zeta.
  only_calls_tac; split; try reflexivity; simpl; intros ? Hx; inversion Hx; reflexivity.
Qed.

Lemma scoped_targets sid t :
  Forall (fun ev => scoped_to sid (fst ev)) t -> Forall (targets sid) t /\ starts t = 0.
Proof.
  induction t as [|ev t IH]; intros F; [split; [constructor|reflexivity]|].
  inversion F as [|? ? [Hs Ht] F']; subst. destruct (IH F') as [IH1 IH2].
  split; [constructor; auto|]. unfold starts in *. destruct ev as [c0 r0]. simpl in *. rewrite Hs. exact IH2.
Qed.

(** X5: Every call of a processWithAgentMode run that names a session names the run's own session, and the run starts exactly one session when no existing session id is given, none when one is. *)
Theorem processWithAgentMode_single_session {S} (env : Env S) text conv existing snoozed
  s t s' r sid :
  processWithAgentMode env text conv existing snoozed s = (t, s', r) ->
  run_session text conv existing snoozed t sid ->
  Forall (targets sid) t
  /\ starts t = match truthy existing with Some _ => 0 | None => 1 end.
Proof.
  intros H Hrs. unfold processWithAgentMode in H.
  apply bind_inv in H as [(t1 & s1 & config & t2 & E1 & E2 & ->)|[(e & E & _)|(E & _)]].
  2: { unfold getConfig in E. apply prim_inv in E as [(? & _ & _ & ?)|(? & _ & -> & _)];
       [discriminate|].
       destruct Hrs as [Hx|(Hx & Hin)].
       - rewrite Hx. split; [|reflexivity].
         constructor; [intros ? Hy; discriminate Hy|constructor].
       - simpl in Hin. destruct Hin as [Hin|[]]. discriminate. }
  2: { unfold getConfig in E. apply prim_inv in E as [(? & _ & _ & ?)|(? & _ & _ & ?)];
       discriminate. }
  unfold getConfig in E1. apply prim_inv in E1 as [(a & _ & -> & Ha)|(? & _ & _ & ?)];
    [|discriminate]. inversion Ha; subst a.
  assert (Hc : targets sid (CGetConfig, RConfig config)) by discriminate.
  destruct (truthy existing) as [x|] eqn:Tex.
  - destruct Hrs as [Hx|(Hx & _)]; [|congruence]. rewrite Hx in Tex. inversion Tex; subst x.
    apply bind_inv in E2 as [(t3 & s3 & a & t4 & E3 & E4 & ->)|[(e & E & _)|(E & _)]];
      [cbv [ret] in E3; inversion E3; subst|cbv [ret] in E; inversion E..].
    destruct (scoped_targets _ _ (processWithAgentMode_body_scoped env text conv config _
                                   _ _ _ _ E4)) as [F1 F2].
    split; [constructor; auto|exact F2].
  - apply bind_inv in E2 as [(t3 & s3 & a & t4 & E3 & E4 & ->)|[(e & E & _)|(E & _)]].
    + unfold startSession in E3.
      apply prim_inv in E3 as [(b & _ & -> & Hb)|(? & _ & _ & ?)]; [|discriminate].
      inversion Hb; subst b.
      pose proof (processWithAgentMode_body_scoped env text conv config a _ _ _ _ E4) as F.
      destruct Hrs as [Hx|(_ & Hin)]; [congruence|].
      simpl in Hin. destruct Hin as [Hin|Hin]; [discriminate|].
      destruct Hin as [Hin|Hin].
      * inversion Hin; subst a. destruct (scoped_targets _ _ F) as [F1 F2].
        split; [constructor; [exact Hc|constructor; [discriminate|exact F1]]|].
        unfold starts in *. simpl. rewrite F2. reflexivity.
      * apply (proj1 (List.Forall_forall _ _) F) in Hin. destruct Hin as [Hs _]. discriminate.
    + unfold startSession in E. apply prim_inv in E as [(? & _ & -> & ?)|(? & _ & -> & ?)];
        try discriminate.
      destruct Hrs as [Hx|(_ & Hin)]; [congruence|]. simpl in Hin. intuition discriminate.
    + unfold startSession in E. apply prim_inv in E as [(? & _ & -> & ?)|(? & _ & -> & ?)];
        discriminate.
Qed.

(** X6: createMcpTextInput without a conversation id queues nothing: it reads the config, creates a conversation for the text, and spawns the agent run on that new conversation, and makes no other call. *)
Theorem createMcpTextInput_new_conversation {S} (env : Env S) text ic fromTile s t s' res :
  truthy ic = None ->
  createMcpTextInput env text ic fromTile s = (t, s', Ret res) ->
  ti_queuedMessageId res = None
  /\ exists config,
       t = [(CGetConfig, RConfig config);
            (CCreateConversation text, RString (ti_conversationId res));
            (CSpawnAgentRun text (ti_conversationId res) None
               (match fromTile with Some b => b | None => false end), RUnit)].
Proof.
  intros Hic H. unfold createMcpTextInput, getConfig, createConversation, spawnAgentRun in H.
  rewrite Hic in H. cbv [bind prim ret] in H.
  run_all H; inversion H; subst; simpl; eauto.
Qed.

(** X7: A panel size saved with savePanelModeSize is restored by initializePanelSize to the same clamped size (width at least 200, height at least 100) that updatePanelSize applies, with a minimum-size call then an unanimated resize. *)
Theorem panel_size_saved_then_restored mode width height w t1 w1 r1 t2 w2 r2 t3 w3 r3 :
  pw_panel w <> None ->
  savePanelModeSize mode width height w = (t1, w1, r1) ->
  initializePanelSize w1 = (t2, w2, r2) ->
  updatePanelSize width height w = (t3, w3, r3) ->
  r2 = r3 /\ r2 = Ret (Z.max 200 width, Z.max 100 height)
  /\ pw_calls w2 = pw_calls w ++ [WSetMinimumSize 200 100;
                                  WSetSize (Z.max 200 width) (Z.max 100 height) false].
Proof.
  intros Hp H1 H2 H3. destruct w as [[p|] c calls]; [|exfalso; apply Hp; reflexivity].
  cbv in H1. inversion H1; subst. cbv - [Z.max] in H2. cbv - [Z.max] in H3.
  inversion H2; subst. inversion H3; subst. split; [reflexivity|split; [reflexivity|]].
  change ((calls ++ [WSetMinimumSize 200 100]) ++ [WSetSize (Z.max 200 width) (Z.max 100 height) false]
    = calls ++ [WSetMinimumSize 200 100; WSetSize (Z.max 200 width) (Z.max 100 height) false]).
  rewrite <- app_assoc. reflexivity.
Qed.

Lemma lookup_spread (prev next : JsObject) k :
  spread prev next !! k = match next !! k with Some v => Some v | None => prev !! k end.
Proof.
  unfold spread. destruct (next !! k) eqn:E.
  - apply lookup_union_Some_l; exact E.
  - rewrite lookup_union_r; auto.
Qed.

Lemma qr_call fails c :
  (forall config, c <> ESaveConfig config) -> quiet_run (settingsCallM fails c) (eq [c]).
Proof.
  intros Hc w t w' r H. unfold settingsCallM in H.
  destruct (fails c) as [e|]; inversion H; subst; cbn [sw_config sw_calls].
  - repeat split; [discriminate|]. exists [c]. auto.
  - destruct c; try (exfalso; eapply Hc; reflexivity);
      (repeat split; [discriminate|]; eexists; split; reflexivity).
Qed.

Lemma qr_ret : quiet_run (ret tt) (eq []).
Proof.
  intros w t w' r H. cbv in H. inversion H; subst. repeat split; [discriminate|].
  exists []. rewrite app_nil_r. auto.
Qed.

Lemma qr_bind m1 m2 P1 P2 :
  quiet_run m1 P1 -> quiet_run m2 P2 ->
  quiet_run (bind m1 (fun _ => m2)) (fun cs => P1 cs \/ seq_P P1 P2 cs).
Proof.
  intros H1 H2 w t w' r H. apply bind_inv in H.
  destruct H as [(t1 & s1 & [] & t2 & E1 & E2 & ->)|[(e & E1 & ->)|(E1 & ->)]].
  - destruct (H1 _ _ _ _ E1) as (-> & _ & C1 & cs1 & L1 & P1c).
    destruct (H2 _ _ _ _ E2) as (-> & Hr & C2 & cs2 & L2 & P2c).
    repeat split; [exact Hr|congruence|]. exists (cs1 ++ cs2).
    rewrite L2, L1, app_assoc. split; [reflexivity|right; exists cs1, cs2; auto].
  - destruct (H1 _ _ _ _ E1) as (-> & _ & C1 & cs1 & L1 & P1c).
    split; [reflexivity|]. split; [discriminate|]. split; [exact C1|]. exists cs1. auto.
  - destruct (H1 _ _ _ _ E1) as (_ & Hs & _). contradiction.
Qed.

Lemma qr_if (b : bool) m1 m2 P1 P2 :
  quiet_run m1 P1 -> quiet_run m2 P2 ->
  quiet_run (if b then m1 else m2) (fun cs => if b then P1 cs else P2 cs).
Proof. destruct b; auto. Qed.

Lemma sr_best_effort m P : quiet_run m P -> safe_run (best_effort m) P.
Proof.
  intros Hm w t w' r H. apply try_catch_inv in H.
  destruct H as [(t1 & s1 & e & t2 & E1 & E2 & ->)|(E1 & Hr)].
  - destruct (Hm _ _ _ _ E1) as (-> & _ & C1 & cs & L1 & Pc).
    cbv in E2. inversion E2; subst. repeat split; [exact C1|]. exists cs. auto.
  - destruct (Hm _ _ _ _ E1) as (-> & Hs & C1 & cs & L1 & Pc).
    destruct r as [[]|e|]; [|exfalso; eapply Hr; reflexivity|contradiction].
    repeat split; [exact C1|]. exists cs. auto.
Qed.

Lemma sr_ret : safe_run (ret tt) (eq []).
Proof.
  intros w t w' r H. cbv in H. inversion H; subst. repeat split.
  exists []. rewrite app_nil_r. auto.
Qed.

Lemma sr_bind m1 m2 P1 P2 :
  safe_run m1 P1 -> safe_run m2 P2 -> safe_run (bind m1 (fun _ => m2)) (seq_P P1 P2).
Proof.
  intros H1 H2 w t w' r H. apply bind_inv in H.
  destruct H as [(t1 & s1 & [] & t2 & E1 & E2 & ->)|[(e & E1 & ->)|(E1 & ->)]];
    destruct (H1 _ _ _ _ E1) as (-> & Hr1 & C1 & cs1 & L1 & P1c); try discriminate.
  destruct (H2 _ _ _ _ E2) as (-> & -> & C2 & cs2 & L2 & P2c).
  repeat split; [congruence|]. exists (cs1 ++ cs2).
  rewrite L2, L1, app_assoc. split; [reflexivity|exists cs1, cs2; auto].
Qed.

Lemma sr_if (b : bool) m1 m2 P1 P2 :
  safe_run m1 P1 -> safe_run m2 P2 ->
  safe_run (if b then m1 else m2) (fun cs => if b then P1 cs else P2 cs).
Proof. destruct b; auto. Qed.

Ltac settings_run :=
  repeat first
    [ apply sr_bind | apply sr_if | apply sr_best_effort | apply sr_ret
    | apply qr_bind | apply qr_if | apply qr_ret
    | apply qr_call; intros ? ?; discriminate ].

(** A successful save of the merged config, followed by the four blocks of
    side effects, each in its own [try]. *)
Lemma saveConfig_run fails host next w t w' r :
  fails (ESaveConfig (spread (sw_config w) next)) = None ->
  saveConfig fails host next w = (t, w', r) ->
  let prev := sw_config w in
  let merged := spread prev next in
  t = [] /\ r = Ret tt /\ sw_config w' = merged
  /\ exists cs, sw_calls w' = sw_calls w ++ ESaveConfig merged :: cs
  /\ seq_P
       (fun cs => if existsb (changed prev next) providerKeys
                  then [EClearModelsCache] = cs else [] = cs)
       (seq_P
          (fun cs => if (h_production host || negb (h_rendererUrl host)) && negb (h_linux host)
                     then [ESetLoginItemSettings (js_truthy (prop merged "launchAtLogin"))] = cs
                     else [] = cs)
          (seq_P
             (fun cs => Forall (fun c => c = EDockHide \/ c = EDockShow
                                      \/ exists p, c = ESetActivationPolicy p) cs)
             (fun cs =>
                let prevEnabled := js_truthy (prop prev "remoteServerEnabled") in
                let nextEnabled := js_truthy (prop merged "remoteServerEnabled") in
                if negb (Bool.eqb prevEnabled nextEnabled) then
                  if nextEnabled then [EStartRemoteServer] = cs else [EStopRemoteServer] = cs
                else if nextEnabled then
                  if existsb (changed prev next) remoteServerKeys
                  then [ERestartRemoteServer] = cs else [] = cs
                else [] = cs))) cs.
Proof.
  intros Hs H. cbv zeta. unfold saveConfig in H. apply bind_inv in H.
  destruct H as [(t1 & s1 & a & t2 & E1 & E2 & ->)|[(e & E1 & _)|(E1 & _)]];
    cbv [gets] in E1; inversion E1; subst; clear E1.
  apply bind_inv in E2.
  destruct E2 as [(t4 & s4 & [] & t3 & E3 & E4 & ->)|[(e4 & E3 & _)|(E3 & _)]];
    cbv [settingsCallM] in E3; rewrite Hs in E3; inversion E3; subst; clear E3.
  lazymatch type of E4 with
  | ?m _ = _ => eassert (Hrest : safe_run m _) by settings_run
  end.
  destruct (Hrest _ _ _ _ E4) as (-> & -> & C & cs & L & Pc).
  cbn [sw_config sw_calls] in C, L. repeat split; [exact C|].
  exists cs. split; [rewrite L, <- app_assoc; reflexivity|]. cbv beta in Pc.
  destruct Pc as (c1 & cs1 & -> & P1 & c2 & cs2 & -> & P2 & c3 & c4 & -> & P3 & P4).
  exists c1, (c2 ++ c3 ++ c4). split; [reflexivity|split; [exact P1|]].
  exists c2, (c3 ++ c4). split; [reflexivity|split; [exact P2|]].
  exists c3, c4. split; [reflexivity|split; [|exact P4]].
  repeat match type of P3 with context [if ?b then _ else _] => destruct b end;
    try (subst; constructor; fail);
    (destruct P3 as [<-|(d1 & d2 & -> & <- & <-)];
     repeat first [ apply List.Forall_nil | apply List.Forall_cons
                  | left; reflexivity | right; left; reflexivity
                  | right; right; eexists; reflexivity ]).
Qed.

(** X8: When the config store saves, saveConfig succeeds even if its later side effects throw, and the saved config holds the new value of each key given and the old value of every other key. *)
Theorem saveConfig_merges fails host next w t w' r :
  fails (ESaveConfig (spread (sw_config w) next)) = None ->
  saveConfig fails host next w = (t, w', r) ->
  r = Ret tt
  /\ forall k, sw_config w' !! k =
       match next !! k with Some v => Some v | None => sw_config w !! k end.
Proof.
  intros Hs H. destruct (saveConfig_run _ _ _ _ _ _ _ Hs H) as (_ & -> & -> & _).
  split; [reflexivity|]. intros k. apply lookup_spread.
Qed.

(** X9: After saving, saveConfig clears the models cache exactly when a provider key changed, and makes at most one remote-server call: start when it becomes enabled, stop when it becomes disabled, restart when it stays enabled and a remote-server key changed. *)
Theorem saveConfig_side_effects fails host next w t w' r :
  fails (ESaveConfig (spread (sw_config w) next)) = None ->
  saveConfig fails host next w = (t, w', r) ->
  let prevEnabled := js_truthy (prop (sw_config w) "remoteServerEnabled") in
  let nextEnabled := js_truthy (prop (spread (sw_config w) next) "remoteServerEnabled") in
  r = Ret tt
  /\ exists cs, sw_calls w' = sw_calls w ++ ESaveConfig (spread (sw_config w) next) :: cs
  /\ (In EClearModelsCache cs <-> existsb (changed (sw_config w) next) providerKeys = true)
  /\ length (List.filter is_remote_server_call cs) <= 1
  /\ (In EStartRemoteServer cs <-> prevEnabled = false /\ nextEnabled = true)
  /\ (In EStopRemoteServer cs <-> prevEnabled = true /\ nextEnabled = false)
  /\ (In ERestartRemoteServer cs <-> prevEnabled = true /\ nextEnabled = true
        /\ existsb (changed (sw_config w) next) remoteServerKeys = true).
Proof.
  intros Hs H. destruct (saveConfig_run _ _ _ _ _ _ _ Hs H) as (_ & -> & _ & cs & L & Pc).
  cbv zeta in *. split; [reflexivity|]. exists cs. split; [exact L|].
  destruct Pc as (c1 & cs1 & -> & P1 & c2 & cs2 & -> & P2 & c3 & c4 & -> & P3 & P4).
  assert (Hmid : forall c, In c (c2 ++ c3) ->
            c <> EClearModelsCache /\ is_remote_server_call c = false).
  { intros c Hc. apply in_app_iff in Hc. destruct Hc as [Hc|Hc].
    - destruct (_ && _); subst; simpl in Hc; [|contradiction].
      destruct Hc as [<-|[]]. split; [discriminate|reflexivity].
    - apply List.Forall_forall with (x := c) in P3; [|exact Hc].
      destruct P3 as [->|[->|[p ->]]]; split; (discriminate || reflexivity). }
  assert (Hf : List.filter is_remote_server_call (c2 ++ c3) = []).
  { induction (c2 ++ c3) as [|c l IH]; [reflexivity|]. simpl.
    destruct (Hmid c (or_introl eq_refl)) as [_ ->].
    apply IH. intros c' Hc'. apply Hmid. right. exact Hc'. }
  rewrite (app_assoc c2 c3 c4). rewrite (List.filter_app _ c1), (List.filter_app _ (c2 ++ c3)), Hf.
  assert (Hin : forall c, c <> EClearModelsCache -> is_remote_server_call c = true ->
            (In c (c1 ++ (c2 ++ c3) ++ c4) <-> In c c4)).
  { intros c Hc Hr. rewrite !in_app_iff. split; [|tauto].
    intros [Hx|[Hx|Hx]]; [|exfalso; apply in_app_iff, Hmid in Hx; destruct Hx; congruence|exact Hx].
    destruct (existsb _ providerKeys); subst; simpl in Hx; [|contradiction].
    destruct Hx as [<-|[]]. discriminate. }
  rewrite (Hin EStartRemoteServer), (Hin EStopRemoteServer), (Hin ERestartRemoteServer)
    by (discriminate || reflexivity).
  assert (Hc1 : List.filter is_remote_server_call c1 = []).
  { destruct (existsb _ providerKeys); subst; reflexivity. }
  rewrite Hc1, app_nil_l.
  assert (Hclear : In EClearModelsCache c4 -> False).
  { repeat match type of P4 with context [if ?b then _ else _] => destruct b end;
      subst; simpl; intuition discriminate. }
  split.
  - rewrite !in_app_iff. split.
    + intros [Hx|[Hx|Hx]]; [|exfalso; apply in_app_iff, Hmid in Hx; destruct Hx; congruence|contradiction].
      destruct (existsb _ providerKeys); subst; [reflexivity|contradiction].
    + intros Hp. rewrite Hp in P1. subst. left. left. reflexivity.
  - revert P4.
    destruct (js_truthy (prop (sw_config w) "remoteServerEnabled")),
      (js_truthy (prop (spread (sw_config w) next) "remoteServerEnabled")),
      (existsb (changed (sw_config w) next) remoteServerKeys);
      cbn; intros <-; cbn; intuition (first [lia | discriminate | congruence]).
Qed.

Lemma lookup_fold_spreadModelSetting mc ks (o : JsObject) k :
  fold_left (spreadModelSetting mc) ks o !! k =
  match mc with
  | Some m => if existsb (String.eqb k) ks && js_truthy (prop m k) then Some (prop m k)
              else o !! k
  | None => o !! k
  end.
Proof.
  revert o. induction ks as [|a ks IH]; intros o; simpl.
  - destruct mc; reflexivity.
  - rewrite IH. destruct mc as [m|]; [|reflexivity]. unfold spreadModelSetting.
    destruct (String.eqb_spec k a) as [->|Hne]; simpl.
    + destruct (js_truthy (prop m a)) eqn:Ht; simpl.
      * rewrite lookup_insert_eq. destruct (existsb _ ks); reflexivity.
      * rewrite andb_false_r. reflexivity.
    + destruct (existsb (String.eqb k) ks && js_truthy (prop m k)); [reflexivity|].
      destruct (js_truthy (prop m a)); [|reflexivity].
      rewrite lookup_insert_ne; [reflexivity|congruence].
Qed.

Lemma setCurrentProfile_saves fails svc id profile w t w' r :
  svc id = inr profile ->
  fails (ESaveConfig (profileConfig (sw_config w) profile)) = None ->
  setCurrentProfile fails svc id w = (t, w', r) ->
  sw_config w' = profileConfig (sw_config w) profile.
Proof.
  intros Hp Hs H. unfold setCurrentProfile in H. rewrite Hp in H.
  apply bind_inv in H.
  destruct H as [(t1 & s1 & a & t2 & E1 & E2 & _)|[(e & E1 & _)|(E1 & _)]];
    cbv [ret] in E1; try discriminate E1.
  injection E1 as <- <- <-.
  apply bind_inv in E2.
  destruct E2 as [(t3 & s3 & a & t4 & E3 & E4 & _)|[(e & E3 & _)|(E3 & _)]];
    cbv [gets] in E3; try discriminate E3.
  injection E3 as <- <- <-.
  apply bind_inv in E4.
  destruct E4 as [(t5 & s5 & [] & t6 & E5 & E6 & _)|[(e & E5 & _)|(E5 & _)]];
    unfold settingsCallM in E5; rewrite Hs in E5; try discriminate E5.
  injection E5 as <- <-.
  apply bind_inv in E6.
  destruct E6 as [(t7 & s7 & [] & t8 & E7 & E8 & _)|[(e & E7 & _)|(E7 & _)]];
    unfold settingsCallM in E7.
  all: destruct (fails (EApplyProfileMcpConfig _ _ _ _)); try discriminate E7.
  all: apply (f_equal (fun x => snd (fst x))) in E7; cbn [fst snd] in E7; subst.
  all: try (cbv [ret] in E8; apply (f_equal (fun x => snd (fst x))) in E8;
            cbn [fst snd] in E8; subst).
  all: reflexivity.
Qed.

Lemma profileConfig_lookup config profile :
  profileConfig config profile !! "mcpToolsSystemPrompt" = Some (JString (pr_guidelines profile))
  /\ profileConfig config profile !! "mcpCurrentProfileId" = Some (JString (pr_id profile))
  /\ profileConfig config profile !! "mcpCustomSystemPrompt"
     = Some (js_or (pr_systemPrompt profile) (JString ""))
  /\ (forall k, In k profileModelKeys ->
        profileConfig config profile !! k =
        match pr_modelConfig profile with
        | Some mc => if js_truthy (prop mc k) then Some (prop mc k) else config !! k
        | None => config !! k
        end)
  /\ (forall k, ~ In k (profileKeys ++ profileModelKeys) -> profileConfig config profile !! k = config !! k).
Proof.
  unfold profileConfig. rewrite !lookup_fold_spreadModelSetting.
  split; [|split; [|split; [|split]]].
  1-3: let b := eval vm_compute in (existsb (String.eqb "mcpToolsSystemPrompt") profileModelKeys) in
       change (existsb (String.eqb "mcpToolsSystemPrompt") profileModelKeys) with b;
       let b := eval vm_compute in (existsb (String.eqb "mcpCurrentProfileId") profileModelKeys) in
       change (existsb (String.eqb "mcpCurrentProfileId") profileModelKeys) with b;
       let b := eval vm_compute in (existsb (String.eqb "mcpCustomSystemPrompt") profileModelKeys) in
       change (existsb (String.eqb "mcpCustomSystemPrompt") profileModelKeys) with b;
       cbn [andb];
       destruct (pr_modelConfig profile);
       rewrite ?lookup_insert_ne by discriminate; apply lookup_insert_eq.
  - intros k Hk.
    assert (Hm : existsb (String.eqb k) profileModelKeys = true)
      by (apply existsb_exists; exists k; split; [exact Hk|apply String.eqb_refl]).
    rewrite lookup_fold_spreadModelSetting, Hm. cbn [andb].
    assert (Hn : ~ In k profileKeys)
      by (intros Hk'; simpl in Hk, Hk'; intuition congruence).
    destruct (pr_modelConfig profile); [destruct (js_truthy _); [reflexivity|]|];
      rewrite !lookup_insert_ne by (intros Heq; apply Hn; rewrite <- Heq; simpl; tauto); reflexivity.
  - intros k Hk.
    assert (Hn : forall x, In x profileKeys -> x <> k)
      by (intros x Hx Hxk; subst; apply Hk; apply in_or_app; left; exact Hx).
    assert (Hm : existsb (String.eqb k) profileModelKeys = false)
      by (apply Bool.not_true_iff_false; intros He; apply existsb_exists in He;
          destruct He as [x [Hx Hxk]]; apply String.eqb_eq in Hxk; subst;
          apply Hk; apply in_or_app; right; exact Hx).
    rewrite lookup_fold_spreadModelSetting, Hm. cbn [andb].
    destruct (pr_modelConfig profile);
      rewrite !lookup_insert_ne by (apply Hn; simpl; tauto); reflexivity.
Qed.

(** X10: setCurrentProfile saves the profile's guidelines, id and system prompt into the config, takes each model setting from the profile when it is truthy there and keeps the old one otherwise, and leaves every other key unchanged. *)
Theorem setCurrentProfile_config fails svc id profile w t w' r :
  svc id = inr profile ->
  fails (ESaveConfig (profileConfig (sw_config w) profile)) = None ->
  setCurrentProfile fails svc id w = (t, w', r) ->
  sw_config w' !! "mcpToolsSystemPrompt" = Some (JString (pr_guidelines profile))
  /\ sw_config w' !! "mcpCurrentProfileId" = Some (JString (pr_id profile))
  /\ sw_config w' !! "mcpCustomSystemPrompt" = Some (js_or (pr_systemPrompt profile) (JString ""))
  /\ (forall k, In k profileModelKeys ->
        sw_config w' !! k =
        match pr_modelConfig profile with
        | Some mc => if js_truthy (prop mc k) then Some (prop mc k) else sw_config w !! k
        | None => sw_config w !! k
        end)
  /\ (forall k, ~ In k (profileKeys ++ profileModelKeys) -> sw_config w' !! k = sw_config w !! k).
Proof.
  intros Hp Hs H. rewrite (setCurrentProfile_saves _ _ _ _ _ _ _ _ Hp Hs H).
  apply profileConfig_lookup.
Qed.

(** X11: When the profile service throws, setCurrentProfile rethrows that error and changes nothing. *)
Theorem setCurrentProfile_unknown_profile fails svc id e w t w' r :
  svc id = inl e ->
  setCurrentProfile fails svc id w = (t, w', r) ->
  r = Raise e /\ w' = w /\ t = [].
Proof.
  intros Hp H. unfold setCurrentProfile in H. rewrite Hp in H.
  cbv [bind raise] in H. inversion H; subst. auto.
Qed.

Lemma createdAt_desc_trans : Transitive createdAt_desc.
Proof. intros x y z; unfold createdAt_desc; lia. Qed.

Lemma insert_by_createdAt_hd x y l :
  HdRel createdAt_desc y l -> createdAt_desc y x -> HdRel createdAt_desc y (insert_by_createdAt x l).
Proof.
  intros Hh Hyx. destruct l as [|z l]; simpl.
  - constructor. exact Hyx.
  - destruct (rh_createdAt z <? rh_createdAt x)%Z; constructor; [exact Hyx|].
    inversion Hh; assumption.
Qed.

Lemma insert_by_createdAt_sorted x l :
  Sorted createdAt_desc l -> Sorted createdAt_desc (insert_by_createdAt x l).
Proof.
  induction l as [|y l IH]; intros Hs; simpl.
  - repeat constructor.
  - inversion Hs; subst. destruct (rh_createdAt y <? rh_createdAt x)%Z eqn:E.
    + apply Z.ltb_lt in E. constructor; [exact Hs|]. constructor. unfold createdAt_desc; lia.
    + apply Z.ltb_ge in E. constructor; [apply IH; assumption|].
      apply insert_by_createdAt_hd; [assumption|exact E].
Qed.

Lemma insert_by_createdAt_perm x l : Permutation (insert_by_createdAt x l) (x :: l).
Proof.
  induction l as [|y l IH]; simpl; [reflexivity|].
  destruct (rh_createdAt y <? rh_createdAt x)%Z; [reflexivity|].
  rewrite IH. apply perm_swap.
Qed.

Lemma sort_fold_sorted l acc :
  Sorted createdAt_desc acc ->
  Sorted createdAt_desc (fold_left (fun acc x => insert_by_createdAt x acc) l acc).
Proof.
  revert acc. induction l as [|x l IH]; intros acc Hs; simpl; [exact Hs|].
  apply IH, insert_by_createdAt_sorted, Hs.
Qed.

Lemma sort_fold_perm l acc :
  Permutation (fold_left (fun acc x => insert_by_createdAt x acc) l acc) (acc ++ l).
Proof.
  revert acc. induction l as [|x l IH]; intros acc; simpl; [rewrite app_nil_r; reflexivity|].
  rewrite IH, insert_by_createdAt_perm. apply Permutation_middle.
Qed.

Lemma filter_all_false {A} (f : A -> bool) l :
  (forall z, In z l -> f z = false) -> List.filter f l = [].
Proof.
  induction l as [|a l IH]; simpl; intros H; [reflexivity|].
  rewrite H by (left; reflexivity). apply IH. intros z Hz. apply H. right. exact Hz.
Qed.

Lemma with_createdAt_insert c x acc :
  Sorted createdAt_desc acc ->
  with_createdAt c (insert_by_createdAt x acc) = with_createdAt c acc ++ with_createdAt c [x].
Proof.
  unfold with_createdAt. induction acc as [|y acc IH]; intros Hs; simpl; [reflexivity|].
  apply Sorted_StronglySorted in Hs; [|exact createdAt_desc_trans].
  inversion Hs as [|? ? Hs' Hall]; subst.
  destruct (rh_createdAt y <? rh_createdAt x)%Z eqn:E.
  - apply Z.ltb_lt in E. simpl.
    destruct (Z.eqb (rh_createdAt x) c) eqn:Ex.
    + apply Z.eqb_eq in Ex. subst c.
      assert (Hy : Z.eqb (rh_createdAt y) (rh_createdAt x) = false) by (apply Z.eqb_neq; lia).
      rewrite Hy.
      rewrite filter_all_false; [reflexivity|].
      intros z Hz. rewrite List.Forall_forall in Hall. specialize (Hall z Hz).
      unfold createdAt_desc in Hall. apply Z.eqb_neq. lia.
    + destruct (Z.eqb (rh_createdAt y) c); rewrite app_nil_r; reflexivity.
  - simpl. rewrite IH by (apply StronglySorted_Sorted; exact Hs').
    destruct (Z.eqb (rh_createdAt y) c); reflexivity.
Qed.

Lemma with_createdAt_app c l1 l2 :
  with_createdAt c (l1 ++ l2) = with_createdAt c l1 ++ with_createdAt c l2.
Proof. unfold with_createdAt. apply List.filter_app. Qed.

Lemma sort_fold_stable c l acc :
  Sorted createdAt_desc acc ->
  with_createdAt c (fold_left (fun acc x => insert_by_createdAt x acc) l acc)
  = with_createdAt c acc ++ with_createdAt c l.
Proof.
  revert acc. induction l as [|x l IH]; intros acc Hs; cbn [fold_left].
  - rewrite app_nil_r. reflexivity.
  - rewrite IH by (apply insert_by_createdAt_sorted; exact Hs).
    rewrite with_createdAt_insert by exact Hs.
    rewrite <- app_assoc. unfold with_createdAt. simpl.
    destruct (Z.eqb (rh_createdAt x) c); reflexivity.
Qed.

(** Inserting an item no newer than any item of the list puts it last. *)
Lemma insert_by_createdAt_last x l :
  (forall y, In y l -> createdAt_desc y x) -> insert_by_createdAt x l = l ++ [x].
Proof.
  induction l as [|y l IH]; intros H; simpl; [reflexivity|].
  assert (Hy := H y (or_introl eq_refl)). unfold createdAt_desc in Hy.
  replace (rh_createdAt y <? rh_createdAt x)%Z with false by (symmetry; apply Z.ltb_ge; lia).
  rewrite IH; [reflexivity|]. intros z Hz. apply H. right. exact Hz.
Qed.

Lemma StronglySorted_app_rel {A} (R : A -> A -> Prop) l1 l2 :
  StronglySorted R (l1 ++ l2) -> forall y z, In y l1 -> In z l2 -> R y z.
Proof.
  induction l1 as [|a l1 IH]; intros Hs y z Hy Hz; [destruct Hy|].
  inversion Hs as [|? ? Hs' Hall]; subst. destruct Hy as [<-|Hy].
  - rewrite List.Forall_forall in Hall. apply Hall, in_or_app. right. exact Hz.
  - eapply IH; eassumption.
Qed.

Lemma sort_fold_sorted_id l acc :
  StronglySorted createdAt_desc (acc ++ l) ->
  fold_left (fun acc x => insert_by_createdAt x acc) l acc = acc ++ l.
Proof.
  revert acc. induction l as [|x l IH]; intros acc Hs; simpl; [rewrite app_nil_r; reflexivity|].
  rewrite insert_by_createdAt_last.
  - rewrite IH; [rewrite <- app_assoc; reflexivity|]. rewrite <- app_assoc. exact Hs.
  - intros y Hy. eapply StronglySorted_app_rel; [exact Hs|exact Hy|left; reflexivity].
Qed.

Lemma sort_by_createdAt_desc_sorted l : Sorted createdAt_desc (sort_by_createdAt_desc l).
Proof. apply sort_fold_sorted. constructor. Qed.

Lemma sort_by_createdAt_desc_idem l :
  Sorted createdAt_desc l -> sort_by_createdAt_desc l = l.
Proof.
  intros Hs. apply sort_fold_sorted_id. apply Sorted_StronglySorted; [exact createdAt_desc_trans|].
  exact Hs.
Qed.

Lemma sort_by_createdAt_desc_snoc l x :
  sort_by_createdAt_desc (l ++ [x]) = insert_by_createdAt x (sort_by_createdAt_desc l).
Proof. unfold sort_by_createdAt_desc. rewrite fold_left_app. reflexivity. Qed.

Lemma filter_insert_by_createdAt (f : RecordingHistoryItem -> bool) x l :
  f x = false -> List.filter f (insert_by_createdAt x l) = List.filter f l.
Proof.
  intros Hx. induction l as [|y l IH]; simpl; [rewrite Hx; reflexivity|].
  destruct (rh_createdAt y <? rh_createdAt x)%Z; simpl; [rewrite Hx; reflexivity|].
  rewrite IH. reflexivity.
Qed.

Lemma filter_all_true {A} (f : A -> bool) l :
  (forall z, In z l -> f z = true) -> List.filter f l = l.
Proof.
  induction l as [|a l IH]; simpl; intros H; [reflexivity|].
  rewrite H by (left; reflexivity). f_equal. apply IH. intros z Hz. apply H. right. exact Hz.
Qed.

Lemma getRecordingHistory_run w :
  getRecordingHistory w = ([], w, Ret (sort_by_createdAt_desc (stored_history w))).
Proof.
  unfold getRecordingHistory, stored_history, readHistoryJson.
  cbv [try_catch bind ret].
  destruct (fs_folder w) as [[[h|] files]|]; reflexivity.
Qed.

Lemma StronglySorted_filter {A} (R : A -> A -> Prop) (f : A -> bool) l :
  StronglySorted R l -> StronglySorted R (List.filter f l).
Proof.
  induction l as [|a l IH]; intros Hs; simpl; [constructor|].
  inversion Hs as [|? ? Hs' Hall]; subst.
  destruct (f a); [|apply IH; exact Hs'].
  constructor; [apply IH; exact Hs'|].
  rewrite List.Forall_forall in Hall |- *. intros x Hx. apply filter_In in Hx.
  apply Hall. apply Hx.
Qed.

(** X12: getRecordingHistory changes nothing and returns the stored history sorted by decreasing creation time: a permutation of it in which items with equal creation time keep their stored order. *)
Theorem getRecordingHistory_sorted_stable w t w' r :
  getRecordingHistory w = (t, w', r) ->
  w' = w /\ t = []
  /\ exists h, r = Ret h
     /\ Permutation h (stored_history w)
     /\ Sorted createdAt_desc h
     /\ forall c, with_createdAt c h = with_createdAt c (stored_history w).
Proof.
  rewrite getRecordingHistory_run. intros H. inversion H; subst.
  split; [reflexivity|split; [reflexivity|]].
  eexists; split; [reflexivity|]. split; [|split].
  - unfold sort_by_createdAt_desc. rewrite sort_fold_perm. reflexivity.
  - apply sort_by_createdAt_desc_sorted.
  - intros c. unfold sort_by_createdAt_desc. rewrite sort_fold_stable by constructor.
    reflexivity.
Qed.

(** X13: deleteRecordingItem rewrites the history without the items of that id, still sorted, removes the id's webm file and no other file, and succeeds exactly when that file existed. *)
Theorem deleteRecordingItem_removes id w f t w' r :
  fs_folder w = Some f ->
  deleteRecordingItem id w = (t, w', r) ->
  exists f' h', fs_folder w' = Some f' /\ rf_history f' = Some h'
  /\ (forall x, In x h' <-> In x (stored_history w) /\ rh_id x <> id)
  /\ Sorted createdAt_desc h'
  /\ ~ In (id ++ ".webm")%string (rf_files f')
  /\ (forall n, n <> (id ++ ".webm")%string -> In n (rf_files f') <-> In n (rf_files f))
  /\ (r = Ret tt <-> In (id ++ ".webm")%string (rf_files f)).
Proof.
  intros Hf H. unfold deleteRecordingItem in H. apply bind_inv in H.
  rewrite getRecordingHistory_run in H.
  destruct H as [(t1 & s1 & hs & t2 & E1 & E2 & _)|[(e & E1 & _)|(E1 & _)]];
    try discriminate E1.
  injection E1 as <- <- <-. apply bind_inv in E2.
  unfold saveRecordingsHitory in E2. rewrite !Hf in E2.
  destruct E2 as [(t3 & s3 & [] & t4 & E3 & E4 & _)|[(e & E3 & _)|(E3 & _)]];
    try discriminate E3.
  injection E3 as <- <-. unfold unlinkFile in E4. cbn [set_folder fs_folder rf_files rf_history] in E4.
  set (name := (id ++ ".webm")%string) in *.
  set (h' := List.filter (fun item => negb (String.eqb (rh_id item) id))
               (sort_by_createdAt_desc (stored_history w))) in *.
  assert (Hh : forall x, In x h' <-> In x (stored_history w) /\ rh_id x <> id).
  { intros x. unfold h'. rewrite filter_In. split.
    - intros [Hx Hn]. split.
      + eapply Permutation_in; [|exact Hx]. unfold sort_by_createdAt_desc.
        rewrite sort_fold_perm. reflexivity.
      + intros He. rewrite He, String.eqb_refl in Hn. discriminate.
    - intros [Hx Hn]. split.
      + eapply Permutation_in; [|exact Hx]. unfold sort_by_createdAt_desc.
        rewrite sort_fold_perm. reflexivity.
      + apply negb_true_iff, String.eqb_neq. exact Hn. }
  assert (Hs : Sorted createdAt_desc h').
  { apply StronglySorted_Sorted, StronglySorted_filter, Sorted_StronglySorted;
      [exact createdAt_desc_trans|apply sort_by_createdAt_desc_sorted]. }
  assert (Hex : existsb (String.eqb name) (rf_files f) = true <-> In name (rf_files f)).
  { rewrite existsb_exists. split.
    - intros [n [Hn He]]. apply String.eqb_eq in He. subst. exact Hn.
    - intros Hn. exists name. split; [exact Hn|apply String.eqb_refl]. }
  destruct (existsb (String.eqb name) (rf_files f)) eqn:Ee.
  - apply (f_equal (fun x => (snd (fst x), snd x))) in E4. cbn [fst snd] in E4.
    injection E4 as <- <-. cbn [fs_folder set_folder rf_history rf_files].
    eexists _, h'. split; [reflexivity|]. split; [reflexivity|].
    split; [exact Hh|]. split; [exact Hs|]. cbn [rf_files]. split; [|split].
    + rewrite filter_In. intros [_ Hn]. rewrite String.eqb_refl in Hn. discriminate.
    + intros n Hn. rewrite filter_In. split; [intros [Hn' _]; exact Hn'|].
      intros Hn'. split; [exact Hn'|]. apply negb_true_iff, String.eqb_neq. exact Hn.
    + split; [intros _; apply Hex; reflexivity|reflexivity].
  - apply (f_equal (fun x => (snd (fst x), snd x))) in E4. cbn [fst snd] in E4.
    injection E4 as <- <-. cbn [fs_folder set_folder rf_history rf_files].
    eexists _, h'. split; [reflexivity|]. split; [reflexivity|].
    split; [exact Hh|]. split; [exact Hs|]. cbn [rf_files]. split; [|split].
    + intros Hn. apply Hex in Hn. discriminate.
    + intros n _. reflexivity.
    + split; [discriminate|]. intros Hn. apply Hex in Hn. discriminate.
Qed.

(** X14: After deleteRecordingHistory removes the recordings folder, createTextInput throws ENOENT when writing the history, before any UI effect, and does not recreate the folder. *)
Theorem createTextInput_after_deleteRecordingHistory pp text w t1 w1 r1 t2 w2 r2 :
  deleteRecordingHistory w = (t1, w1, r1) ->
  createTextInput pp text w1 = (t2, w2, r2) ->
  r1 = Ret tt /\ r2 = Raise ENOENT /\ fs_folder w2 = None /\ fs_effects w2 = fs_effects w.
Proof.
  intros H1 H2. cbv [deleteRecordingHistory rmRecordings modify] in H1.
  injection H1 as <- <- <-. split; [reflexivity|].
  destruct w as [folder config now main panel focused granted effects].
  cbv [createTextInput bind gets ret try_catch lift raise set_folder getRecordingHistory
       readHistoryJson saveRecordingsHitory fs_folder fs_config fs_effects fs_now] in H2.
  destruct (js_truthy (prop config "transcriptPostProcessingEnabled"));
    [destruct (pp text)|]; injection H2 as <- <- <-; auto.
Qed.

(** X15: createTextInput appends one item to the sorted history, with id the current time, duration 0, and as transcript the post-processed text, or the raw text when post-processing is off or throws; any auto-paste it schedules pastes that transcript. *)
Theorem createTextInput_records pp text w f t w' r :
  fs_folder w = Some f ->
  createTextInput pp text w = (t, w', r) ->
  let enabled := js_truthy (prop (fs_config w) "transcriptPostProcessingEnabled") in
  r = Ret tt
  /\ exists f' item, fs_folder w' = Some f' /\ rf_files f' = rf_files f
  /\ rf_history f' = Some (sort_by_createdAt_desc (stored_history w) ++ [item])
  /\ rh_id item = pretty (fs_now w) /\ rh_createdAt item = fs_now w /\ rh_duration item = 0%Z
  /\ (enabled = false -> rh_transcript item = text)
  /\ (forall e, pp text = inl e -> rh_transcript item = text)
  /\ (forall s, enabled = true -> pp text = inr s -> rh_transcript item = s)
  /\ exists effects, fs_effects w' = fs_effects w ++ effects
  /\ forall s d b, In (UScheduleWriteText s d b) effects -> s = rh_transcript item.
Proof.
  intros Hf H. cbv zeta.
  destruct w as [folder config now main panel focused granted effects].
  cbn [fs_folder] in Hf. subst folder. destruct f as [hist files].
  unfold stored_history. cbn [fs_folder fs_config fs_now fs_effects rf_history rf_files].
  cbv [createTextInput bind gets ret try_catch lift raise set_folder getRecordingHistory
       readHistoryJson saveRecordingsHitory uiEffectM modify
       fs_folder fs_config fs_effects fs_now fs_main fs_panel fs_focusedApp
       rf_history rf_files] in H.
  destruct (js_truthy (prop config "transcriptPostProcessingEnabled")) eqn:Een;
    [destruct (pp text) as [e|s] eqn:Epp|];
    destruct hist as [hist|]; destruct main, panel, focused,
      (js_truthy (prop config "mcpAutoPasteEnabled"));
    injection H as <- <- <-; (split; [reflexivity|]);
    eexists _, _; (split; [reflexivity|]); (split; [reflexivity|]);
    (split; [reflexivity|]); cbn [rh_id rh_createdAt rh_duration rh_transcript];
    (split; [reflexivity|]); (split; [reflexivity|]); (split; [reflexivity|]);
    (split; [intros; first [reflexivity|discriminate]|]);
    (split; [intros ? He; first [reflexivity|discriminate]|]);
    (split; [intros ? ? He; first [congruence|discriminate]|]);
    cbn [andb]; rewrite <- ?app_assoc;
    first [ exists []; split; [symmetry; apply app_nil_r|]
          | eexists; split; [reflexivity|] ];
    cbn; intros ? ? ? Hin; intuition congruence.
Qed.

Lemma existsb_eqb_false name l : ~ In name l -> existsb (String.eqb name) l = false.
Proof.
  intros Hn. apply Bool.not_true_iff_false. intros He. apply existsb_exists in He.
  destruct He as [x [Hx Hxe]]. apply String.eqb_eq in Hxe. subst. contradiction.
Qed.

(** X16: Deleting, by its id, the recording createRecording just made gives back the former history in sorted order and the former files. *)
Theorem createRecording_deleteRecordingItem_roundtrip pp s s' d w f l t1 w1 r1 t2 w2 r2 :
  fs_folder w = Some f -> rf_history f = Some l ->
  (forall x, In x l -> rh_id x <> pretty (fs_now w)) ->
  ~ In (pretty (fs_now w) ++ ".webm")%string (rf_files f) ->
  pp s = inr s' ->
  createRecording pp (inr s) d w = (t1, w1, r1) ->
  deleteRecordingItem (pretty (fs_now w)) w1 = (t2, w2, r2) ->
  r1 = Ret tt /\ r2 = Ret tt
  /\ fs_folder w2 = Some (mkRecordingsFolder (Some (sort_by_createdAt_desc l)) (rf_files f)).
Proof.
  intros Hf Hl Hid Hfile Hpp H1 H2.
  destruct w as [folder config now main panel focused granted effects].
  cbn [fs_folder fs_now] in *. subst folder. destruct f as [hist files].
  cbn [rf_history rf_files] in *. subst hist.
  cbv [createRecording bind gets ret lift raise set_folder getRecordingHistory try_catch
       readHistoryJson saveRecordingsHitory uiEffectM modify mkdirRecordings writeFile
       fs_folder fs_config fs_effects fs_now fs_main fs_panel fs_focusedApp fs_accessibility
       rf_history rf_files rh_id] in H1.
  rewrite Hpp in H1. rewrite (existsb_eqb_false _ _ Hfile) in H1.
  set (item := mkRecordingHistoryItem (pretty now) now d s') in *.
  assert (Hw1 : r1 = Ret tt /\ fs_folder w1 = Some (mkRecordingsFolder
             (Some (sort_by_createdAt_desc l ++ [item])) (files ++ [(pretty now ++ ".webm")%string]))).
  { destruct main, panel, granted;
      apply (f_equal (fun x => (snd (fst x), snd x))) in H1; cbn [fst snd] in H1;
      injection H1 as <- <-; split; reflexivity. }
  clear H1. destruct Hw1 as [-> Hw1]. split; [reflexivity|].
  cbv [deleteRecordingItem bind] in H2. rewrite getRecordingHistory_run in H2.
  unfold stored_history in H2. rewrite Hw1 in H2.
  cbv [saveRecordingsHitory unlinkFile] in H2. rewrite ?Hw1 in H2.
  cbn [set_folder fs_folder rf_history rf_files] in H2.
  rewrite sort_by_createdAt_desc_snoc, (sort_by_createdAt_desc_idem (sort_by_createdAt_desc l))
    in H2 by apply sort_by_createdAt_desc_sorted.
  rewrite filter_insert_by_createdAt in H2 by (cbn; rewrite String.eqb_refl; reflexivity).
  rewrite filter_all_true in H2.
  2: { intros z Hz. apply negb_true_iff, String.eqb_neq. apply Hid.
       eapply Permutation_in; [|exact Hz]. unfold sort_by_createdAt_desc.
       rewrite sort_fold_perm. reflexivity. }
  replace (existsb (String.eqb (pretty now ++ ".webm")%string) (files ++ [(pretty now ++ ".webm")%string]))
    with true in H2.
  2: { symmetry. apply existsb_exists. exists (pretty now ++ ".webm")%string.
       split; [apply in_or_app; right; left; reflexivity|apply String.eqb_refl]. }
  rewrite List.filter_app in H2. cbn [List.filter] in H2. rewrite String.eqb_refl in H2.
  cbn [negb] in H2. rewrite app_nil_r in H2.
  rewrite filter_all_true in H2.
  2: { intros z Hz. apply negb_true_iff, String.eqb_neq. intros ->. contradiction. }
  apply (f_equal (fun x => (snd (fst x), snd x))) in H2; cbn [fst snd] in H2.
  injection H2 as <- <-. split; [reflexivity|].
  cbn [fs_folder set_folder]. rewrite ?app_nil_r. reflexivity.
Qed.

Ltac tts_unfold H :=
  unfold generateSpeech, generateOpenAITTS, generateGroqTTS, generateGeminiTTS,
    fetchM, ttsCallM, modify, gets, lift, bind, try_catch, ret, raise in H.

Section SpeechProofs.
Variable fetchSpeech : string -> option string -> list (string * jsval) -> exn + SpeechResponse.
Variable preprocessTextForTTSWithLLM : string -> jsval -> exn + string.
Variable preprocessTextForTTS : string -> jsval -> jsval -> jsval -> string.
Variable validateTTSText : string -> bool * list string.
Variable atob : string -> exn + string.

(** X19: With TTS disabled, generateSpeech throws Text-to-Speech is not enabled and makes no call. *)
Lemma generateSpeech_disabled input w t w' r :
  js_truthy (prop (tts_config w) "ttsEnabled") = false ->
  generateSpeech fetchSpeech preprocessTextForTTSWithLLM preprocessTextForTTS validateTTSText atob
    input w = (t, w', r) ->
  r = Raise (ErrorObj "Text-to-Speech is not enabled") /\ w' = w /\ t = [].
Proof.
  intros Hen H. tts_unfold H. cbn beta iota zeta in H. rewrite Hen in H. cbn in H.
  inversion H; subst; auto.
Qed.

Ltac gen_solve :=
  intros text input config w t w' r H;
  unfold fetchM, ttsCallM, modify, lift, bind, ret, raise in H;
  destruct (js_truthy (prop config _)) eqn:Ek; cbn in H;
  [ destruct (fetchSpeech _ _ _) as [e|resp]; cbn in H;
    [| repeat (match type of H with
              | context [if ?b then _ else _] => destruct b
              | context [match ?x with Some _ => _ | None => _ end] => destruct x
              | context [match ?x with inl _ => _ | inr _ => _ end] => destruct x
              end; cbn in H)]
  | ];
  inversion H; subst; clear H;
  (split; [reflexivity|]); (split; [reflexivity|]); (split; [discriminate|]);
  cbn;
  first
    [ exists []; split; [symmetry; apply app_nil_r|]; left; auto
    | eexists; split; [reflexivity|]; right; split; [reflexivity|];
      do 3 eexists; split; [reflexivity|]; eexists; cbn; auto 6 ].

Lemma generateOpenAITTS_spec :
  gen_spec "openaiApiKey" "OpenAI API key is required for TTS" (generateOpenAITTS fetchSpeech).
Proof. unfold gen_spec, generateOpenAITTS. gen_solve. Qed.
Lemma generateGroqTTS_spec :
  gen_spec "groqApiKey" "Groq API key is required for TTS" (generateGroqTTS fetchSpeech).
Proof. unfold gen_spec, generateGroqTTS. gen_solve. Qed.
Lemma generateGeminiTTS_spec :
  gen_spec "geminiApiKey" "Gemini API key is required for TTS" (generateGeminiTTS fetchSpeech atob).
Proof. unfold gen_spec, generateGeminiTTS. gen_solve. Qed.

Lemma js_strict_eq_string v s : js_strict_eq v (JString s) = true -> v = JString s.
Proof. destruct v; cbn; try discriminate. intros E. apply String.eqb_eq in E. now subst. Qed.

Lemma dispatch_run pid text input config w t w' r :
  (if js_strict_eq pid (JString "openai") then generateOpenAITTS fetchSpeech text input config
   else if js_strict_eq pid (JString "groq") then generateGroqTTS fetchSpeech text input config
   else if js_strict_eq pid (JString "gemini") then generateGeminiTTS fetchSpeech atob text input config
   else raise (ErrorObj ("Unsupported TTS provider: " +:+ js_to_string pid))) w = (t, w', r) ->
  t = [] /\ tts_config w' = tts_config w /\
  exists new, tts_calls w' = tts_calls w ++ new /\ dispatch_spec pid text config new r.
Proof.
  unfold dispatch_spec.
  destruct (js_strict_eq pid (JString "openai")) eqn:E1;
  [| destruct (js_strict_eq pid (JString "groq")) eqn:E2;
  [| destruct (js_strict_eq pid (JString "gemini")) eqn:E3]].
  1: intros H; apply generateOpenAITTS_spec in H.
  2: intros H; apply generateGroqTTS_spec in H.
  3: intros H; apply generateGeminiTTS_spec in H.
  1-3: apply js_strict_eq_string in E1 || apply js_strict_eq_string in E2 ||
       apply js_strict_eq_string in E3; subst pid;
       destruct H as (-> & Hc & Hr & new & Hn & Hs);
       (split; [reflexivity|]); split; [exact Hc|]; exists new; split; [exact Hn|];
       split; [exact Hr|]; exact Hs.
  intros H. unfold raise in H. inversion H; subst.
  split; [reflexivity|]. split; [reflexivity|]. exists []. split; [symmetry; apply app_nil_r|].
  split; [discriminate|].
  destruct pid; try (split; reflexivity).
  cbn in E1, E2, E3. unfold ttsProviderKey. rewrite E1, E2, E3. split; reflexivity.
Qed.

Lemma preprocess_run input config w t w' r :
  (if negb (js_strict_eq (prop config "ttsPreprocessingEnabled") (JBool false)) then
     if js_truthy (prop config "ttsUseLLMPreprocessing") then
       let* _ := ttsCallM (TPreprocessWithLLM (si_text input)
                             (prop config "ttsLLMPreprocessingProviderId")) in
       lift (preprocessTextForTTSWithLLM (si_text input)
               (prop config "ttsLLMPreprocessingProviderId"))
     else
       ret (preprocessTextForTTS (si_text input)
              (js_nullish_or (prop config "ttsRemoveCodeBlocks") (JBool true))
              (js_nullish_or (prop config "ttsRemoveUrls") (JBool true))
              (js_nullish_or (prop config "ttsConvertMarkdown") (JBool true)))
   else ret (si_text input)) w = (t, w', r) ->
  t = [] /\ tts_config w' = tts_config w /\ r <> Stuck /\
  exists pre, tts_calls w' = tts_calls w ++ pre /\
    (pre = [] \/ exists p, pre = [TPreprocessWithLLM (si_text input) p]).
Proof.
  destruct (negb _); [destruct (js_truthy _)|];
  unfold bind, ttsCallM, modify, lift, ret, raise; cbn;
  [destruct (preprocessTextForTTSWithLLM _ _)|..]; cbn; intros H; inversion H; subst;
  (split; [reflexivity|]); (split; [reflexivity|]); (split; [discriminate|]); cbn;
  first [ exists []; split; [symmetry; apply app_nil_r | left; reflexivity]
        | eexists; split; [reflexivity | right; eexists; reflexivity] ].
Qed.

Lemma generateSpeech_run input w t w' r :
  generateSpeech fetchSpeech preprocessTextForTTSWithLLM preprocessTextForTTS validateTTSText atob
    input w = (t, w', r) ->
  t = [] /\ tts_config w' = tts_config w /\ r <> Stuck /\
  exists pre new, tts_calls w' = tts_calls w ++ pre ++ new /\
  (pre = [] \/ exists p, pre = [TPreprocessWithLLM (si_text input) p]) /\
  ((new = [] /\ exists e, r = Raise e) \/
   exists p new0 r0,
     js_truthy (prop (tts_config w) "ttsEnabled") = true /\
     fst (validateTTSText p) = true /\
     dispatch_spec (speechProviderId input (tts_config w)) p (tts_config w) new0 r0 /\
     ((exists a, r0 = Ret a /\ new = new0 /\
                 r = Ret (mkSpeechResult a p (speechProviderId input (tts_config w)))) \/
      (exists e, r0 = Raise e /\ new = new0 ++ [TLogError e] /\ r = Raise e))).
Proof.
  intros H. unfold generateSpeech in H. apply bind_inv in H.
  destruct H as [(t1 & s1 & config & t2 & Hg & H & ->)|[(e & Hg & _)|(Hg & _)]];
    unfold gets in Hg; [injection Hg as <- <- <- | discriminate Hg | discriminate Hg].
  destruct (js_truthy (prop (tts_config w) "ttsEnabled")) eqn:Hen; cbn [negb] in H.
  2: { unfold raise in H. inversion H; subst.
       split; [reflexivity|]. split; [reflexivity|]. split; [discriminate|].
       exists [], []. split; [rewrite !app_nil_r; reflexivity|].
       split; [left; reflexivity|]. left. split; [reflexivity|]. eexists; reflexivity. }
  apply bind_inv in H.
  destruct H as [(t3 & s3 & p & t4 & Hp & H & ->)|[(e & Hp & ->)|(Hp & ->)]];
    apply preprocess_run in Hp; destruct Hp as (-> & Hc3 & Hr3 & pre & Hpre & Hpre');
    [| | now exfalso].
  2: { split; [reflexivity|]. split; [exact Hc3|]. split; [discriminate|].
       exists pre, []. split; [rewrite app_nil_r; exact Hpre|]. split; [exact Hpre'|].
       left. split; [reflexivity|]. eexists; reflexivity. }
  destruct (fst (validateTTSText p)) eqn:Hv; cbn [negb] in H.
  2: { unfold raise in H. inversion H; subst.
       split; [reflexivity|]. split; [exact Hc3|]. split; [discriminate|].
       exists pre, []. split; [rewrite app_nil_r; exact Hpre|]. split; [exact Hpre'|].
       left. split; [reflexivity|]. eexists; reflexivity. }
  fold (speechProviderId input (tts_config w)) in H.
  apply try_catch_inv in H.
  destruct H as [(t5 & s5 & e & t6 & Hm & Hh & ->)|(Hm & Hne)];
    apply bind_inv in Hm.
  - destruct Hm as [(t7 & s7 & a & t8 & Hd & Hk & _)|[(e' & Hd & He)|(Hd & Hst)]].
    + unfold ret in Hk. discriminate Hk.
    + injection He as <-. apply dispatch_run in Hd.
      destruct Hd as (-> & Hc5 & new0 & Hn0 & Hs).
      unfold bind, ttsCallM, modify, raise in Hh. cbn in Hh. inversion Hh; subst.
      split; [reflexivity|]. split; [cbn; congruence|]. split; [discriminate|].
      exists pre, (new0 ++ [TLogError e]). cbn. split.
      { rewrite Hn0, Hpre, !app_assoc. reflexivity. }
      split; [exact Hpre'|]. right. exists p, new0, (Raise e).
      split; [first [exact Hen | reflexivity]|]. split; [first [exact Hv | reflexivity]|]. split; [exact Hs|].
      right. exists e. auto.
    + discriminate Hst.
  - destruct Hm as [(t7 & s7 & a & t8 & Hd & Hk & ->)|[(e' & Hd & He)|(Hd & ->)]].
    + apply dispatch_run in Hd. destruct Hd as (-> & Hc5 & new0 & Hn0 & Hs).
      unfold ret in Hk. inversion Hk; subst.
      split; [reflexivity|]. split; [congruence|]. split; [discriminate|].
      exists pre, new0. split; [rewrite Hn0, Hpre, app_assoc; reflexivity|].
      split; [exact Hpre'|]. right. exists p, new0, (Ret a).
      split; [first [exact Hen | reflexivity]|]. split; [first [exact Hv | reflexivity]|]. split; [exact Hs|].
      left. exists a. auto.
    + subst r. exfalso. eapply Hne. reflexivity.
    + apply dispatch_run in Hd. destruct Hd as (_ & _ & new0 & _ & Hs & _). now exfalso.
Qed.

Lemma ttsProviderKey_some p key msg :
  ttsProviderKey p = Some (key, msg) -> p = "openai" \/ p = "groq" \/ p = "gemini".
Proof.
  unfold ttsProviderKey.
  destruct (String.eqb_spec p "openai"); [auto|].
  destruct (String.eqb_spec p "groq"); [auto|].
  destruct (String.eqb_spec p "gemini"); [auto|discriminate].
Qed.

(** X20: When generateSpeech returns, the processed text passed validation, the provider is openai, groq or gemini, and exactly one speech request was sent, carrying the processed text, after at most the LLM preprocessing call. *)
Lemma generateSpeech_success input w t w' res :
  generateSpeech fetchSpeech preprocessTextForTTSWithLLM preprocessTextForTTS validateTTSText atob
    input w = (t, w', Ret res) ->
  t = [] /\ tts_config w' = tts_config w /\
  fst (validateTTSText (sr_processedText res)) = true /\
  (sr_provider res = JString "openai" \/ sr_provider res = JString "groq"
   \/ sr_provider res = JString "gemini") /\
  exists pre url auth body,
    tts_calls w' = tts_calls w ++ pre ++ [TFetch url auth body] /\
    (pre = [] \/ exists p, pre = [TPreprocessWithLLM (si_text input) p]) /\
    exists k, In (k, JString (sr_processedText res)) body.
Proof.
  intros H. apply generateSpeech_run in H.
  destruct H as (-> & Hc & _ & pre & new & Hcalls & Hpre & Hcase).
  destruct Hcase as [(_ & e & He)|(p & new0 & r0 & _ & Hv & Hs & Hk)]; [discriminate He|].
  destruct Hk as [(a & -> & -> & Hres)|(e & _ & _ & He)]; [|discriminate He].
  injection Hres as Hres. subst res. cbn [sr_processedText sr_provider].
  destruct Hs as (_ & Hs).
  destruct (speechProviderId input (tts_config w)) as [| | | |p'|]; try (destruct Hs; discriminate).
  destruct (ttsProviderKey p') as [[key msg]|] eqn:Hkey; [|destruct Hs; discriminate].
  destruct Hs as [(_ & _ & Hr)|(_ & u & a' & b & -> & Hin)]; [discriminate Hr|].
  split; [reflexivity|]. split; [exact Hc|]. split; [exact Hv|].
  split.
  { apply ttsProviderKey_some in Hkey. destruct Hkey as [->|[->| ->]]; auto. }
  exists pre, u, a', b. auto.
Qed.

Lemma preprocess_calls_quiet input pre :
  (pre = [] \/ exists p, pre = [TPreprocessWithLLM (si_text input) p]) ->
  Forall (fun c => is_fetch c = false) pre /\ forall e, ~ In (TLogError e) pre.
Proof.
  intros [->|(p & ->)]; split; cbn; auto; try (intros e [H|[]]; discriminate H).
Qed.

(** X21: With a provider other than openai, groq and gemini, generateSpeech throws and sends no speech request; the only error it logs is Unsupported TTS provider for that provider. *)
Lemma generateSpeech_unsupported_provider input w t w' r :
  is_known_provider (speechProviderId input (tts_config w)) = false ->
  generateSpeech fetchSpeech preprocessTextForTTSWithLLM preprocessTextForTTS validateTTSText atob
    input w = (t, w', r) ->
  t = [] /\ tts_config w' = tts_config w /\
  exists e new, r = Raise e /\ tts_calls w' = tts_calls w ++ new /\
    Forall (fun c => is_fetch c = false) new /\
    forall e', In (TLogError e') new ->
      e' = e /\ e = ErrorObj ("Unsupported TTS provider: " +:+
                              js_to_string (speechProviderId input (tts_config w))).
Proof.
  intros Hunk H. apply generateSpeech_run in H.
  destruct H as (-> & Hc & _ & pre & new & Hcalls & Hpre & Hcase).
  apply preprocess_calls_quiet in Hpre. destruct Hpre as (Hpf & Hpl).
  split; [reflexivity|]. split; [exact Hc|].
  destruct Hcase as [(-> & e & ->)|(p & new0 & r0 & _ & _ & Hs & Hk)].
  { exists e, pre. split; [reflexivity|]. split; [rewrite app_nil_r in Hcalls; exact Hcalls|].
    split; [exact Hpf|]. intros e' Hin. exfalso. exact (Hpl e' Hin). }
  assert (Hd : new0 = [] /\ r0 = Raise (ErrorObj ("Unsupported TTS provider: " +:+
                 js_to_string (speechProviderId input (tts_config w))))).
  { destruct Hs as (_ & Hs).
    destruct (speechProviderId input (tts_config w)) as [| | | |p'|]; try exact Hs.
    cbn in Hunk. destruct (ttsProviderKey p'); [discriminate Hunk|exact Hs]. }
  destruct Hd as (-> & ->).
  destruct Hk as [(a & Ha & _)|(e & He & -> & ->)]; [discriminate Ha|].
  injection He as <-.
  eexists _, (pre ++ [TLogError _]). split; [reflexivity|].
  split; [rewrite Hcalls; reflexivity|].
  split; [apply Forall_app; split; [exact Hpf|constructor; [reflexivity|constructor]]|].
  intros e' Hin. apply in_app_or in Hin. destruct Hin as [Hin|[Hin|[]]].
  - exfalso. exact (Hpl e' Hin).
  - injection Hin as <-. auto.
Qed.

(** X22: Without an API key for the chosen provider, generateSpeech throws and sends no speech request; the only error it logs is that provider's API key is required for TTS. *)
Lemma generateSpeech_requires_api_key input w t w' r p key msg :
  speechProviderId input (tts_config w) = JString p ->
  ttsProviderKey p = Some (key, msg) ->
  js_truthy (prop (tts_config w) key) = false ->
  generateSpeech fetchSpeech preprocessTextForTTSWithLLM preprocessTextForTTS validateTTSText atob
    input w = (t, w', r) ->
  t = [] /\ tts_config w' = tts_config w /\
  exists e new, r = Raise e /\ tts_calls w' = tts_calls w ++ new /\
    Forall (fun c => is_fetch c = false) new /\
    forall e', In (TLogError e') new -> e' = e /\ e = ErrorObj msg.
Proof.
  intros Hpid Hkey Hnokey H. apply generateSpeech_run in H.
  destruct H as (-> & Hc & _ & pre & new & Hcalls & Hpre & Hcase).
  apply preprocess_calls_quiet in Hpre. destruct Hpre as (Hpf & Hpl).
  split; [reflexivity|]. split; [exact Hc|].
  destruct Hcase as [(-> & e & ->)|(p0 & new0 & r0 & _ & _ & Hs & Hk)].
  { exists e, pre. split; [reflexivity|]. split; [rewrite app_nil_r in Hcalls; exact Hcalls|].
    split; [exact Hpf|]. intros e' Hin. exfalso. exact (Hpl e' Hin). }
  destruct Hs as (_ & Hs). rewrite Hpid, Hkey in Hs.
  destruct Hs as [(_ & -> & ->)|(Hk' & _)]; [|congruence].
  destruct Hk as [(a & Ha & _)|(e & He & -> & ->)]; [discriminate Ha|].
  injection He as <-.
  eexists _, (pre ++ [TLogError _]). split; [reflexivity|].
  split; [rewrite Hcalls; reflexivity|].
  split; [apply Forall_app; split; [exact Hpf|constructor; [reflexivity|constructor]]|].
  intros e' Hin. apply in_app_or in Hin. destruct Hin as [Hin|[Hin|[]]].
  - exfalso. exact (Hpl e' Hin).
  - injection Hin as <-. auto.
Qed.
End SpeechProofs.

(** X17: The context menu has a separator exactly when a message context is given, and then exactly one, right after Copy Message. *)
Lemma contextMenu_separator dev panelId senderId input :
  let items := contextMenuItems dev panelId senderId input in
  (cmi_messageContext input = None -> ~ In MSeparator items) /\
  (forall mc, cmi_messageContext input = Some mc ->
     exists pre post, items = pre ++ MCopyMessage (mc_content mc) :: MSeparator :: post /\
       ~ In MSeparator pre /\ ~ In MSeparator post).
Proof.
  cbv zeta. unfold contextMenuItems.
  destruct (truthy (cmi_selectedText input)) as [s|];
  destruct (cmi_messageContext input) as [mc|];
  destruct dev; destruct (match panelId with Some i => Z.eqb i senderId | None => false end);
  cbn; split; intros; try discriminate;
  try (intros Hin; repeat (destruct Hin as [Hin|Hin]; [discriminate Hin|]); exact Hin);
  match goal with H : Some _ = Some _ |- _ => injection H as <- end;
  first [ exists [MCopy s] | exists [] ];
  eexists; (split; [reflexivity|]);
  split; intros Hin; repeat (destruct Hin as [Hin|Hin]; [discriminate Hin|]); exact Hin.
Qed.

(** X18: The context menu has a Close item exactly when the request comes from the panel window, and then Close is the last item. *)
Lemma contextMenu_close_last dev panelId senderId input :
  let items := contextMenuItems dev panelId senderId input in
  (In MClose items <-> panelId = Some senderId) /\
  (panelId = Some senderId -> exists pre, items = pre ++ [MClose]).
Proof.
  cbv zeta. unfold contextMenuItems.
  destruct (truthy (cmi_selectedText input)) as [s|];
  destruct (cmi_messageContext input) as [mc|];
  destruct dev; destruct panelId as [i|];
  try destruct (Z.eqb_spec i senderId); subst;
  cbn; split; try split; intros; try discriminate;
  try match goal with |- exists pre, ?l = pre ++ [_] => exists (removelast l); reflexivity end;
  try (repeat (destruct H as [H|H]; [discriminate H|]); contradiction);
  try (injection H; congruence);
  auto 10.
Qed.

Lemma updateQueuedMessageText_refused_witness :
  let '(t, s', r) := updateQueuedMessageText wenv "c1" 0 "B" world0 in
  In (CUpdateMessageText "c1" 0 "B", RBool false) t /\ r = Ret false.
Proof.
  destruct (updateQueuedMessageText wenv "c1" 0 "B" world0) as [[t s'] r] eqn:E.
  assert (Hin : In (CUpdateMessageText "c1" 0 "B", RBool false) t)
    by (pose proof E as E'; vm_compute in E'; inversion E'; subst; simpl; tauto).
  split; [exact Hin|].
  exact (proj1 (updateQueuedMessageText_refused wenv "c1" 0 "B" world0 t s' r E Hin)).
Defined.

Lemma updateQueuedMessageText_requeues_only_failed_witness :
  let '(t, s', r) := updateQueuedMessageText wenv "c1" 0 "B" failedWorld in
  In (CSpawnQueueProcessing "c1") (map fst t) /\
  exists q m, In (CGetQueue "c1", RQueue q) t /\ qm_status m = QFailed.
Proof.
  destruct (updateQueuedMessageText wenv "c1" 0 "B" failedWorld) as [[t s'] r] eqn:E.
  assert (Hin : In (CSpawnQueueProcessing "c1") (map fst t))
    by (pose proof E as E'; vm_compute in E'; inversion E'; subst; simpl; tauto).
  split; [exact Hin|].
  destruct (updateQueuedMessageText_requeues_only_failed wenv "c1" 0 "B" failedWorld t s' r E Hin)
    as (q & m & Hq & _ & Hs & _).
  exists q, m. split; [exact Hq|exact Hs].
Defined.

Lemma retryQueuedMessage_refused_witness :
  let '(t, s', r) := retryQueuedMessage wenv "c1" 0 world0 in
  In (CResetToPending "c1" 0, RBool false) t /\ r = Ret false.
Proof.
  destruct (retryQueuedMessage wenv "c1" 0 world0) as [[t s'] r] eqn:E.
  assert (Hin : In (CResetToPending "c1" 0, RBool false) t)
    by (pose proof E as E'; vm_compute in E'; inversion E'; subst; simpl; tauto).
  split; [exact Hin|].
  exact (proj1 (retryQueuedMessage_refused wenv "c1" 0 world0 t s' r E Hin)).
Defined.

Lemma resumeMessageQueue_drains_iff_idle_witness :
  let '(t, s', r) := resumeMessageQueue wenv "c1" world0 in
  r = Ret true /\ hd_error t = Some (CResumeQueue "c1", RUnit).
Proof.
  destruct (resumeMessageQueue wenv "c1" world0) as [[t s'] r] eqn:E.
  assert (Hr : r = Ret true) by (pose proof E as E'; vm_compute in E'; inversion E'; reflexivity).
  split; [exact Hr|]. subst r.
  exact (proj1 (resumeMessageQueue_drains_iff_idle wenv "c1" world0 t s' E)).
Defined.

Lemma processWithAgentMode_single_session_witness :
  let '(t, s', r) := processWithAgentMode wenv "hi" (Some "c1") None false world0 in
  run_session "hi" (Some "c1") None false t "session_0" /\ starts t = 1.
Proof.
  destruct (processWithAgentMode wenv "hi" (Some "c1") None false world0) as [[t s'] r] eqn:E.
  assert (Hs : run_session "hi" (Some "c1") None false t "session_0")
    by (pose proof E as E'; vm_compute in E'; inversion E'; subst;
        right; split; [reflexivity|simpl; tauto]).
  split; [exact Hs|].
  exact (proj2 (processWithAgentMode_single_session wenv "hi" (Some "c1") None false world0
                  t s' r "session_0" E Hs)).
Defined.

Lemma createMcpTextInput_new_conversation_witness :
  let '(t, s', r) := createMcpTextInput wenv "hello" None None world0 in
  exists res, r = Ret res /\ ti_queuedMessageId res = None.
Proof.
  destruct (createMcpTextInput wenv "hello" None None world0) as [[t s'] r] eqn:E.
  pose proof E as E'. vm_compute in E'. injection E' as _ _ Hr. subst r.
  eexists. split; [reflexivity|].
  exact (proj1 (createMcpTextInput_new_conversation wenv "hello" None None world0 t s' _
                  eq_refl E)).
Defined.

(** *** Settings *)

Lemma panel_size_saved_then_restored_witness :
  let '(t1, w1, r1) := savePanelModeSize PMAgent 150 400 panelWorld0 in
  let '(t2, w2, r2) := initializePanelSize w1 in
  let '(t3, w3, r3) := updatePanelSize 150 400 panelWorld0 in
  r2 = r3 /\ r2 = Ret (200, 400)%Z.
Proof.
  destruct (savePanelModeSize PMAgent 150 400 panelWorld0) as [[t1 w1] r1] eqn:E1.
  destruct (initializePanelSize w1) as [[t2 w2] r2] eqn:E2.
  destruct (updatePanelSize 150 400 panelWorld0) as [[t3 w3] r3] eqn:E3.
  destruct (panel_size_saved_then_restored PMAgent 150 400 panelWorld0 t1 w1 r1 t2 w2 r2 t3 w3 r3
              ltac:(discriminate) E1 E2 E3) as (H23 & H2 & _).
  split; [exact H23|exact H2].
Defined.

Lemma saveConfig_merges_witness :
  let '(t, w', r) := saveConfig (fun _ => None) host0 nextSettings0 settingsWorld0 in
  r = Ret tt /\ sw_config w' !! "remoteServerEnabled" = Some (JBool true).
Proof.
  destruct (saveConfig (fun _ => None) host0 nextSettings0 settingsWorld0) as [[t w'] r] eqn:E.
  destruct (saveConfig_merges (fun _ => None) host0 nextSettings0 settingsWorld0 t w' r
              eq_refl E) as (Hr & Hk).
  split; [exact Hr|]. rewrite Hk. reflexivity.
Defined.

Lemma saveConfig_side_effects_witness :
  let '(t, w', r) := saveConfig (fun _ => None) host0 nextSettings0 settingsWorld0 in
  r = Ret tt.
Proof.
  destruct (saveConfig (fun _ => None) host0 nextSettings0 settingsWorld0) as [[t w'] r] eqn:E.
  exact (proj1 (saveConfig_side_effects (fun _ => None) host0 nextSettings0 settingsWorld0
                  t w' r eq_refl E)).
Defined.

Lemma setCurrentProfile_config_witness :
  let '(t, w', r) := setCurrentProfile (fun _ => None) (fun _ => inr profile0) "p1"
                       settingsWorld0 in
  sw_config w' !! "mcpCurrentProfileId" = Some (JString "p1").
Proof.
  destruct (setCurrentProfile (fun _ => None) (fun _ => inr profile0) "p1" settingsWorld0)
    as [[t w'] r] eqn:E.
  exact (proj1 (proj2 (setCurrentProfile_config (fun _ => None) (fun _ => inr profile0) "p1"
                         profile0 settingsWorld0 t w' r eq_refl eq_refl E))).
Defined.

Lemma setCurrentProfile_unknown_profile_witness :
  let '(t, w', r) := setCurrentProfile (fun _ => None)
                       (fun _ => inl (ErrorObj "Profile not found")) "p9" settingsWorld0 in
  r = Raise (ErrorObj "Profile not found").
Proof.
  destruct (setCurrentProfile (fun _ => None) (fun _ => inl (ErrorObj "Profile not found")) "p9"
              settingsWorld0) as [[t w'] r] eqn:E.
  exact (proj1 (setCurrentProfile_unknown_profile (fun _ => None)
                  (fun _ => inl (ErrorObj "Profile not found")) "p9" (ErrorObj "Profile not found")
                  settingsWorld0 t w' r eq_refl E)).
Defined.

(** *** Recordings *)

Lemma getRecordingHistory_sorted_stable_witness :
  let '(t, w', r) := getRecordingHistory fsWorld0 in
  exists h, r = Ret h /\ Sorted createdAt_desc h.
Proof.
  destruct (getRecordingHistory fsWorld0) as [[t w'] r] eqn:E.
  destruct (getRecordingHistory_sorted_stable fsWorld0 t w' r E) as (_ & _ & h & Hr & _ & Hs & _).
  exists h. split; [exact Hr|exact Hs].
Defined.

Lemma deleteRecordingItem_removes_witness :
  let '(t, w', r) := deleteRecordingItem "a" fsWorld0 in
  fs_folder fsWorld0 = Some recFolder0 /\ (r = Ret tt <-> In "a.webm" (rf_files recFolder0)).
Proof.
  destruct (deleteRecordingItem "a" fsWorld0) as [[t w'] r] eqn:E.
  split; [reflexivity|].
  destruct (deleteRecordingItem_removes "a" fsWorld0 recFolder0 t w' r eq_refl E)
    as (f' & h' & _ & _ & _ & _ & _ & _ & Hr).
  exact Hr.
Defined.

Lemma createTextInput_after_deleteRecordingHistory_witness :
  let '(t1, w1, r1) := deleteRecordingHistory fsWorld0 in
  let '(t2, w2, r2) := createTextInput (fun s => inr s) "note" w1 in
  r2 = Raise ENOENT.
Proof.
  destruct (deleteRecordingHistory fsWorld0) as [[t1 w1] r1] eqn:E1.
  destruct (createTextInput (fun s => inr s) "note" w1) as [[t2 w2] r2] eqn:E2.
  exact (proj1 (proj2 (createTextInput_after_deleteRecordingHistory (fun s => inr s) "note"
                         fsWorld0 t1 w1 r1 t2 w2 r2 E1 E2))).
Defined.

Lemma createTextInput_records_witness :
  let '(t, w', r) := createTextInput (fun s => inr s) "note" fsWorld0 in
  r = Ret tt.
Proof.
  destruct (createTextInput (fun s => inr s) "note" fsWorld0) as [[t w'] r] eqn:E.
  exact (proj1 (createTextInput_records (fun s => inr s) "note" fsWorld0 recFolder0 t w' r
                  eq_refl E)).
Defined.

Lemma createRecording_deleteRecordingItem_roundtrip_witness :
  let '(t1, w1, r1) := createRecording (fun s => inr s) (inr "said") 3 fsWorld0 in
  let '(t2, w2, r2) := deleteRecordingItem (pretty 7%Z) w1 in
  fs_folder w2 = Some (mkRecordingsFolder (Some (sort_by_createdAt_desc [recItemA; recItemB]))
                         ["a.webm"; "b.webm"]).
Proof.
  destruct (createRecording (fun s => inr s) (inr "said") 3 fsWorld0) as [[t1 w1] r1] eqn:E1.
  destruct (deleteRecordingItem (pretty 7%Z) w1) as [[t2 w2] r2] eqn:E2.
  refine (proj2 (proj2 (createRecording_deleteRecordingItem_roundtrip (fun s => inr s) "said" "said"
            3 fsWorld0 recFolder0 [recItemA; recItemB] t1 w1 r1 t2 w2 r2 eq_refl eq_refl
            _ _ eq_refl E1 E2))).
  - intros x Hx. destruct Hx as [<-|[<-|[]]]; vm_compute; discriminate.
  - vm_compute. intros [Hx|[Hx|[]]]; discriminate Hx.
Defined.

(** *** Text to speech *)

Lemma generateSpeech_disabled_witness :
  let '(t, w', r) := generateSpeech okFetch noLLM keepText acceptText decode64 speechInput0
                       (ttsWorldWith []) in
  r = Raise (ErrorObj "Text-to-Speech is not enabled").
Proof.
  destruct (generateSpeech okFetch noLLM keepText acceptText decode64 speechInput0
              (ttsWorldWith [])) as [[t w'] r] eqn:E.
  exact (proj1 (generateSpeech_disabled okFetch noLLM keepText acceptText decode64 speechInput0
                  (ttsWorldWith []) t w' r eq_refl E)).
Defined.

Lemma generateSpeech_success_witness :
  let '(t, w', r) := generateSpeech okFetch noLLM keepText acceptText decode64 speechInput0
                       openaiWorld in
  exists res, r = Ret res /\ sr_processedText res = "Hello there" /\
    exists pre url auth body,
      tts_calls w' = pre ++ [TFetch url auth body] /\
      exists k, In (k, JString (sr_processedText res)) body.
Proof.
  destruct (generateSpeech okFetch noLLM keepText acceptText decode64 speechInput0 openaiWorld)
    as [[t w'] r] eqn:E.
  pose proof E as E'. vm_compute in E'. injection E' as _ _ Hr. subst r.
  eexists. split; [reflexivity|]. split; [reflexivity|].
  destruct (generateSpeech_success okFetch noLLM keepText acceptText decode64 speechInput0
              openaiWorld t w' _ E) as (_ & _ & _ & _ & pre & url & auth & body & Hc & _ & Hk).
  exists pre, url, auth, body. exact (conj Hc Hk).
Defined.

Lemma generateSpeech_unsupported_provider_witness :
  let '(t, w', r) := generateSpeech okFetch noLLM keepText acceptText decode64 speechInput0
                       azureWorld in
  exists e new, r = Raise e /\ tts_calls w' = new /\ Forall (fun c => is_fetch c = false) new.
Proof.
  destruct (generateSpeech okFetch noLLM keepText acceptText decode64 speechInput0 azureWorld)
    as [[t w'] r] eqn:E.
  destruct (generateSpeech_unsupported_provider okFetch noLLM keepText acceptText decode64
              speechInput0 azureWorld t w' r eq_refl E) as (_ & _ & e & new & Hr & Hc & Hf & _).
  exists e, new. split; [exact Hr|]. split; [exact Hc|exact Hf].
Defined.

Lemma generateSpeech_requires_api_key_witness :
  let '(t, w', r) := generateSpeech okFetch noLLM keepText acceptText decode64 speechInput0
                       groqNoKeyWorld in
  exists e new, r = Raise e /\ tts_calls w' = new /\ Forall (fun c => is_fetch c = false) new.
Proof.
  destruct (generateSpeech okFetch noLLM keepText acceptText decode64 speechInput0 groqNoKeyWorld)
    as [[t w'] r] eqn:E.
  destruct (generateSpeech_requires_api_key okFetch noLLM keepText acceptText decode64
              speechInput0 groqNoKeyWorld t w' r "groq" "groqApiKey" "Groq API key is required for TTS"
              eq_refl eq_refl eq_refl E) as (_ & _ & e & new & Hr & Hc & Hf & _).
  exists e, new. split; [exact Hr|]. split; [exact Hc|exact Hf].
Defined.

(** X23: When the first listed id names a message of the conversation's queue, reorderMessageQueue makes one call, the reorder of the queue, and answers true; the queue then starts with that message and holds only messages it held before, and when that message is pending it is the one peek returns next. On a conversation whose drain failed, a reorder listing the message behind the failed one first lets the following drain process it. *)
Theorem reorderMessageQueue_puts_listed_first c id ids m w t w' r :
  find_msg (w_mq w) c id = Some m ->
  reorderMessageQueue wenv c (id :: ids) w = (t, w', r) ->
  t = [(CReorderQueue c (id :: ids), RBool true)] /\ r = Ret true /\
  (exists rest, queueOf (w_mq w') c = m :: rest) /\
  (forall m', In m' (queueOf (w_mq w') c) -> In m' (queueOf (w_mq w) c)) /\
  (is_pending m = true -> mq_peek c (w_mq w') = Some m).
Proof.
  intros Hf E. unfold find_msg in Hf.
  assert (Hq : exists q, mq_queues (w_mq w) !! c = Some q /\ queueOf (w_mq w) c = q).
  { unfold queueOf in *. destruct (mq_queues (w_mq w) !! c) as [q|]; [eauto|discriminate]. }
  destruct Hq as (q & Eq & Hq). rewrite Hq in Hf.
  unfold reorderMessageQueue, reorderQueue, prim in E. cbn [op_reorderQueue wenv] in E.
  unfold with_mq, mq_reorder in E. rewrite Eq in E. cbn [fst snd] in E.
  injection E as <- <- <-. rewrite Hf.
  assert (Hq' : forall mq rest, queueOf (set_queue mq c rest) c = rest).
  { intros mq rest. rewrite queueOf_set_queue, String.eqb_refl. reflexivity. }
  cbn [w_mq set_mq]. rewrite Hq'.
  split; [reflexivity|]. split; [reflexivity|]. split; [eexists; reflexivity|]. split.
  - intros m' Hm'. rewrite Hq. apply (reorder_by_incl (id :: ids) q). cbn [reorder_by].
    rewrite Hf. exact Hm'.
  - intros Hp. unfold mq_peek. rewrite Hq', Hp. reflexivity.
Qed.

Lemma reorderMessageQueue_puts_listed_first_witness :
  let w1 := snd (run_commands [CmdDrain 3 "c2"] queueFailWorld) in
  failed_head (w_mq w1) "c2" 0 /\
  let '(t, w2, r) := reorderMessageQueue wenv "c2" [1] w1 in
  (exists m, mq_peek "c2" (w_mq w2) = Some m /\ qm_id m = 1) /\
  In (CMarkProcessing "c2" 1, RBool true) (fst (fst (processQueuedMessages wenv 3 "c2" w2))).
Proof.
  cbv zeta. split; [vm_compute; eexists _, _; split; [reflexivity|auto]|].
  destruct (reorderMessageQueue wenv "c2" [1] (snd (run_commands [CmdDrain 3 "c2"] queueFailWorld)))
    as [[t w2] r] eqn:E.
  destruct (find_msg (w_mq (snd (run_commands [CmdDrain 3 "c2"] queueFailWorld))) "c2" 1)
    as [m|] eqn:Hf; [|vm_compute in Hf; discriminate Hf].
  assert (Hp : is_pending m = true /\ qm_id m = 1)
    by (pose proof Hf as Hf'; vm_compute in Hf'; injection Hf' as <-; split; reflexivity).
  destruct (reorderMessageQueue_puts_listed_first "c2" 1 [] m _ t w2 r Hf E)
    as (_ & _ & _ & _ & Hpk).
  split; [exists m; split; [exact (Hpk (proj1 Hp))|exact (proj2 Hp)]|].
  vm_compute in E. injection E as _ <- _. vm_compute. tauto.
Defined.
